(** * ID3 decision tree classifier (decisionTree.cpp): model and properties

    The development embeds the induction and inference engine of
    [decisionTree.cpp]: the ordered containers the class relies on
    ([std::map], [std::set]), the [TreeNode] structure, the CSV reader,
    entropy and information gain, feature selection, the recursive tree
    builder, the predictor, the tree printer and the prediction prompt
    of [main].

    Conventions.
    - [std::string] is [string]; [std::map<std::string,V>] is an
      association list kept in ascending key order ([String.compare] is
      the byte-wise lexicographic order of [std::string::operator<]), so
      that iterating over it visits the keys the way the C++ loop does.
    - [int] is a two's-complement 32-bit integer carried by [Z]; the
      conversion from [size_t] and the increment write the wrap-around out.
    - [double] arithmetic is an interface ([DoubleOps]) with two
      instances: IEEE binary64 (the kernel's primitive floats, with
      [log2] of <cmath> supplied as a parameter) and exact real numbers.
      What does not depend on the values of the gains is proved for every
      instance.  What does is proved for binary64 from the specification
      of the primitive floats, under the properties of [log2] each
      theorem names; the exact instance serves the one statement that is
      about exact arithmetic, the non-negativity of the gain.
    - Reading [data[idx][col]] out of range is undefined behaviour in the
      source; the model reads the empty string there.  The rows cover the
      header columns ([rows_cover_headers]) on every table the theorems
      about the outcome of [train] speak of, so no such read occurs.
    - The row indices are natural numbers; the source counts the rows
      with an [int], and the theorems bound the number of rows by
      [INT_MAX].
    - [buildTree] is defined by well-founded recursion on the number of
      header columns that are still eligible. *)

From Stdlib Require Import List String Ascii ZArith Lia Bool Arith Sorted Permutation.
From Stdlib Require Import OrderedTypeEx.
From Stdlib Require Import Floats Uint63.
From Stdlib Require Import Reals Lra.
From Equations Require Import Equations.
Import ListNotations.

Local Set Warnings "-register-all".

Local Open Scope string_scope.
Local Open Scope list_scope.

(** ** Strings: the order of [std::string] *)

Definition str_lt (a b : string) : Prop := String.compare a b = Lt.

Lemma str_compare_refl (a : string) : String.compare a a = Eq.
Proof. apply String_as_OT.cmp_eq. reflexivity. Qed.

Lemma str_compare_eq (a b : string) : String.compare a b = Eq -> a = b.
Proof. apply String_as_OT.cmp_eq. Qed.

Lemma str_compare_gt_lt (a b : string) :
  String.compare a b = Gt -> str_lt b a.
Proof.
  intros H. unfold str_lt. rewrite String.compare_antisym, H. reflexivity.
Qed.

Lemma str_lt_trans (a b c : string) : str_lt a b -> str_lt b c -> str_lt a c.
Proof.
  unfold str_lt. intros H1 H2.
  apply String_as_OT.cmp_lt in H1. apply String_as_OT.cmp_lt in H2.
  apply String_as_OT.cmp_lt. eapply String_as_OT.lt_trans; eauto.
Qed.

Lemma str_lt_irrefl (a : string) : ~ str_lt a a.
Proof. unfold str_lt. rewrite str_compare_refl. discriminate. Qed.

Lemma str_lt_neq (a b : string) : str_lt a b -> a <> b.
Proof. intros H ->. exact (str_lt_irrefl _ H). Qed.

(** ** [std::map<std::string, V>] *)

Module StdMap.

Definition t (V : Type) : Type := list (string * V).

(** [find]: the value stored under [k]. *)
Fixpoint find {V : Type} (k : string) (m : t V) : option V :=
  match m with
  | [] => None
  | (k', v) :: m' => if String.eqb k k' then Some v else find k m'
  end.

(** [m[k] = f (m[k])]: [operator[]] creates the entry when it is
    absent, at the place the key order gives it, and the caller
    updates the stored value ([f None] is the update applied to the
    value-initialised entry). *)
Fixpoint upd {V : Type} (k : string) (f : option V -> V) (m : t V) : t V :=
  match m with
  | [] => [(k, f None)]
  | (k', v) :: m' =>
      match String.compare k k' with
      | Eq => (k', f (Some v)) :: m'
      | Lt => (k, f None) :: (k', v) :: m'
      | Gt => (k', v) :: upd k f m'
      end
  end.

Definition keys {V : Type} (m : t V) : list string := map fst m.

(** The class invariant of [std::map]: keys strictly ascending. *)
Definition ordered {V : Type} (m : t V) : Prop :=
  StronglySorted str_lt (keys m).

End StdMap.

(** ** [int] *)

Definition INT_MAX : Z := 2147483647.

(** Reduction of an integer to the range of a 32-bit [int]. *)
Definition wrap32 (z : Z) : Z := ((z + 2147483648) mod 4294967296 - 2147483648)%Z.

(** [int total = v.size();] *)
Definition int_of_size (n : nat) : Z := wrap32 (Z.of_nat n).

(** [c++] on an [int] *)
Definition int_incr (c : Z) : Z := wrap32 (c + 1).

(** ** [struct TreeNode] *)

Inductive TreeNode : Type :=
  mkTreeNode {
      feature : string;
      value : string;
      prediction : string;
      isLeaf : bool;
      children : list TreeNode
    }.

(** [std::make_unique<TreeNode>()]: empty strings, [isLeaf(false)], no
    children. *)
Definition newTreeNode : TreeNode := mkTreeNode "" "" "" false [].

Definition set_value (v : string) (n : TreeNode) : TreeNode :=
  mkTreeNode (feature n) v (prediction n) (isLeaf n) (children n).

(** ** [DecisionTree::predict] *)

(** The loop over [node->children]: the first child whose edge value is
    [featureValue]. *)
Fixpoint first_child (featureValue : string) (cs : list TreeNode) : option TreeNode :=
  match cs with
  | [] => None
  | c :: cs' => if String.eqb (value c) featureValue then Some c else first_child featureValue cs'
  end.

Fixpoint predict (node : TreeNode) (instance : StdMap.t string) {struct node} : string :=
  if isLeaf node then prediction node
  else
    match StdMap.find (feature node) instance with
    | None => "Unknown"
    | Some featureValue =>
        (fix scan (cs : list TreeNode) : string :=
           match cs with
           | [] => "Unknown"
           | child :: cs' =>
               if String.eqb (value child) featureValue
               then predict child instance
               else scan cs'
           end) (children node)
    end.

(** [predict] on a possibly null root, as [predictInstance] calls it. *)
Definition predictInstance (root : option TreeNode) (instance : StdMap.t string) : string :=
  match root with
  | None => "Unknown"
  | Some node => predict node instance
  end.

Lemma predict_unfold (node : TreeNode) (instance : StdMap.t string) :
  predict node instance =
    if isLeaf node then prediction node
    else match StdMap.find (feature node) instance with
         | None => "Unknown"
         | Some v =>
             match first_child v (children node) with
             | None => "Unknown"
             | Some child => predict child instance
             end
         end.
Proof.
  destruct node as [f v p l cs]. simpl.
  destruct l; [reflexivity|].
  destruct (StdMap.find f instance) as [fv|]; [|reflexivity].
  induction cs as [|c cs IH]; simpl; [reflexivity|].
  destruct (String.eqb (value c) fv); [reflexivity|exact IH].
Qed.

(** ** [double] arithmetic

    The operations the source applies to [double] values.  [of_int] is
    the conversion from an integer type (it also gives the literals
    [0.0] and [-1.0]). *)

Class DoubleOps (D : Type) : Type :=
  {
    of_int : Z -> D;
    dadd : D -> D -> D;
    dsub : D -> D -> D;
    dmul : D -> D -> D;
    ddiv : D -> D -> D;
    dlog2 : D -> D;
    dgt : D -> D -> bool
  }.

(** IEEE 754 binary64.  [log2] belongs to the C library, not to the
    program: it is a parameter of the instance. *)
Definition float_of_int (z : Z) : float :=
  if (z <? 0)%Z
  then PrimFloat.opp (PrimFloat.of_uint63 (Uint63.of_Z (- z)))
  else PrimFloat.of_uint63 (Uint63.of_Z z).

Definition Binary64 (log2 : float -> float) : DoubleOps float :=
  {|
    of_int := float_of_int;
    dadd := PrimFloat.add;
    dsub := PrimFloat.sub;
    dmul := PrimFloat.mul;
    ddiv := PrimFloat.div;
    dlog2 := log2;
    dgt := fun x y => PrimFloat.ltb y x
  |}.

(** Exact arithmetic on the real numbers. *)
Definition Rgtb (x y : R) : bool := if Rgt_dec x y then true else false.

Definition Rlog2 (x : R) : R := (ln x / ln 2)%R.

Definition Exact : DoubleOps R :=
  {|
    of_int := IZR;
    dadd := Rplus;
    dsub := Rminus;
    dmul := Rmult;
    ddiv := Rdiv;
    dlog2 := Rlog2;
    dgt := Rgtb
  |}.

(** ** [class DecisionTree]: the data members *)

Record DecisionTree : Type :=
  mkDecisionTree {
      data : list (list string);
      headers : list string;
      targetColumn : string;
      root : option TreeNode
    }.

(** [std::set<std::string>]: only [find] and [insert] are used. *)
Definition set_mem (x : string) (s : list string) : bool :=
  existsb (String.eqb x) s.

Definition set_insert (x : string) (s : list string) : list string :=
  if set_mem x s then s else x :: s.

Fixpoint index_of (x : string) (l : list string) : option nat :=
  match l with
  | [] => None
  | y :: l' =>
      if String.eqb y x then Some 0
      else match index_of x l' with
           | Some i => Some (S i)
           | None => None
           end
  end.

Section Methods.

Context {D : Type} {ops : DoubleOps D}.
Variable self : DecisionTree.

(** [getColumnIndex] *)
Definition getColumnIndex (columnName : string) : Z :=
  match index_of columnName (headers self) with
  | Some i => wrap32 (Z.of_nat i)
  | None => (-1)%Z
  end.

(** [data[idx][col]] *)
Definition cell (idx : nat) (col : Z) : string :=
  if (col <? 0)%Z then ""
  else nth (Z.to_nat col) (nth idx (data self) []) "".

(** The class of row [idx]: [data[idx][getColumnIndex(targetColumn)]]. *)
Definition classOf (idx : nat) : string :=
  cell idx (getColumnIndex (targetColumn self)).

(** [counts[data[idx][targetIdx]]++] over [indices]. *)
Definition count_incr (o : option Z) : Z :=
  match o with
  | None => int_incr 0
  | Some c => int_incr c
  end.

Definition classCounts (indices : list nat) : StdMap.t Z :=
  fold_left (fun counts idx => StdMap.upd (classOf idx) count_incr counts)
    indices [].

(** [groups[data[idx][featureIdx]].push_back(idx)] over [indices]. *)
Definition push_back (idx : nat) (o : option (list nat)) : list nat :=
  match o with
  | None => [idx]
  | Some l => l ++ [idx]
  end.

Definition groupBy (featureIdx : Z) (indices : list nat) : StdMap.t (list nat) :=
  fold_left (fun groups idx => StdMap.upd (cell idx featureIdx) (push_back idx) groups)
    indices [].

(** [calculateEntropy] *)
Definition entropy_step (total : Z) (entropy : D) (pair : string * Z) : D :=
  let prob := ddiv (of_int (snd pair)) (of_int total) in
  if dgt prob (of_int 0)
  then dsub entropy (dmul prob (dlog2 prob))
  else entropy.

Definition calculateEntropy (indices : list nat) : D :=
  match indices with
  | [] => of_int 0
  | _ :: _ =>
      let counts := classCounts indices in
      let total := int_of_size (List.length indices) in
      fold_left (entropy_step total) counts (of_int 0)
  end.

(** [calculateInformationGain] *)
Definition weighted_step (total : Z) (weightedEntropy : D)
  (group : string * list nat) : D :=
  let weight := ddiv (of_int (Z.of_nat (List.length (snd group)))) (of_int total) in
  dadd weightedEntropy (dmul weight (calculateEntropy (snd group))).

Definition calculateInformationGain (indices : list nat) (feature : string) : D :=
  let parentEntropy := calculateEntropy indices in
  let featureIdx := getColumnIndex feature in
  let groups := groupBy featureIdx indices in
  let total := int_of_size (List.length indices) in
  let weightedEntropy := fold_left (weighted_step total) groups (of_int 0) in
  dsub parentEntropy weightedEntropy.

(** [findBestFeature] *)
Definition eligible (usedFeatures : list string) (feature : string) : bool :=
  negb (String.eqb feature (targetColumn self)) && negb (set_mem feature usedFeatures).

Definition best_step (indices : list nat) (usedFeatures : list string)
  (best : string * D) (feature : string) : string * D :=
  if eligible usedFeatures feature
  then
    let gain := calculateInformationGain indices feature in
    if dgt gain (snd best) then (feature, gain) else best
  else best.

Definition findBestFeature (indices : list nat) (usedFeatures : list string) : string :=
  fst (fold_left (best_step indices usedFeatures) (headers self)
         ("", of_int (-1))).

(** [getMostCommonClass] *)
Definition common_step (best : string * Z) (pair : string * Z) : string * Z :=
  if (snd pair >? snd best)%Z then (fst pair, snd pair) else best.

Definition getMostCommonClass (indices : list nat) : string :=
  fst (fold_left common_step (classCounts indices) ("", 0%Z)).

(** [allSameClass] *)
Definition allSameClass (indices : list nat) : bool :=
  match indices with
  | [] => true
  | first :: _ =>
      let firstClass := classOf first in
      forallb (fun idx => String.eqb (classOf idx) firstClass) indices
  end.

End Methods.

(** ** [buildTree] *)

(** [std::string::empty] *)
Definition str_empty (s : string) : bool :=
  match s with
  | EmptyString => true
  | String _ _ => false
  end.

Definition inspect {A : Type} (a : A) : {b : A | a = b} := exist _ a eq_refl.

(** A leaf: [isLeaf = true] and the prediction set on a fresh node. *)
Definition leaf_node (p : string) : TreeNode :=
  let node := newTreeNode in
  mkTreeNode (feature node) (value node) p true (children node).

(** An inner node: the feature set on a fresh node and the children
    pushed back in turn. *)
Definition decision_node (f : string) (cs : list TreeNode) : TreeNode :=
  let node := newTreeNode in
  mkTreeNode f (value node) (prediction node) (isLeaf node) (children node ++ cs).

Section Builder.

Context {D : Type} {ops : DoubleOps D}.
Variable self : DecisionTree.

(** The number of header columns [findBestFeature] still considers. *)
Definition unused (usedFeatures : list string) : nat :=
  List.length (filter (eligible self usedFeatures) (headers self)).

Lemma best_step_inv (indices : list nat) (usedFeatures : list string)
  (l : list string) (best : string * D) :
  (fst best = "" \/ (In (fst best) l /\ eligible self usedFeatures (fst best) = true)
   -> forall l', incl l' l ->
      let r := fold_left (best_step self indices usedFeatures) l' best in
      fst r = "" \/ (In (fst r) l /\ eligible self usedFeatures (fst r) = true)).
Proof.
  intros Hb l'. revert best Hb.
  induction l' as [|h l' IH]; intros best Hb Hincl; simpl; [exact Hb|].
  apply IH.
  - unfold best_step.
    destruct (eligible self usedFeatures h) eqn:He; [|exact Hb].
    destruct (dgt _ _); [|exact Hb].
    right. simpl. split; [apply Hincl; left; reflexivity|exact He].
  - intros x Hx. apply Hincl. right. exact Hx.
Qed.

Lemma findBestFeature_eligible (indices : list nat) (usedFeatures : list string) :
  findBestFeature self indices usedFeatures = ""
  \/ (In (findBestFeature self indices usedFeatures) (headers self)
      /\ eligible self usedFeatures (findBestFeature self indices usedFeatures) = true).
Proof.
  unfold findBestFeature.
  apply (best_step_inv indices usedFeatures (headers self)).
  - left. reflexivity.
  - apply incl_refl.
Qed.

Lemma filter_length_lt {A : Type} (p q : A -> bool) (l : list A) (x : A) :
  (forall y, q y = true -> p y = true) ->
  In x l -> p x = true -> q x = false ->
  List.length (filter q l) < List.length (filter p l).
Proof.
  intros Hqp. induction l as [|h l IH]; simpl; [intros []|].
  assert (Hle : forall l0 : list A, List.length (filter q l0) <= List.length (filter p l0)).
  { induction l0 as [|h0 l0 IH0]; simpl; [lia|].
    destruct (q h0) eqn:Hq.
    - rewrite (Hqp _ Hq). simpl. lia.
    - destruct (p h0); simpl; lia. }
  intros [-> | Hin] Hp Hq.
  - rewrite Hp, Hq. simpl. specialize (Hle l). lia.
  - specialize (IH Hin Hp Hq).
    destruct (q h) eqn:Hqh.
    + rewrite (Hqp _ Hqh). simpl. lia.
    + destruct (p h); simpl; lia.
Qed.

Lemma set_mem_insert (x y : string) (s : list string) :
  set_mem y (set_insert x s) = String.eqb y x || set_mem y s.
Proof.
  unfold set_insert. destruct (set_mem x s) eqn:Hx; simpl; [|reflexivity].
  destruct (String.eqb y x) eqn:Hyx; [|reflexivity].
  apply String.eqb_eq in Hyx. subst y. simpl. exact Hx.
Qed.

Lemma unused_insert (usedFeatures : list string) (f : string) :
  In f (headers self) -> eligible self usedFeatures f = true ->
  unused (set_insert f usedFeatures) < unused usedFeatures.
Proof.
  intros Hin He. unfold unused.
  apply filter_length_lt with (x := f); auto.
  - intros y. unfold eligible. rewrite set_mem_insert.
    destruct (String.eqb y (targetColumn self)); simpl; [discriminate|].
    destruct (String.eqb y f); simpl; [discriminate|]. auto.
  - unfold eligible. rewrite set_mem_insert, String.eqb_refl. simpl.
    apply andb_false_r.
Qed.

Equations? buildTree (indices : list nat) (usedFeatures : list string) : TreeNode
  by wf (unused usedFeatures) lt :=
  buildTree [] usedFeatures := leaf_node "Unknown";
  buildTree (first :: rest) usedFeatures with allSameClass self (first :: rest) := {
    | true := leaf_node (classOf self first);
    | false with inspect (findBestFeature self (first :: rest) usedFeatures) := {
        | exist _ bestFeature Hbest with inspect (str_empty bestFeature) := {
            | exist _ true _ := leaf_node (getMostCommonClass self (first :: rest));
            | exist _ false Hfound :=
                decision_node bestFeature
                  (map (fun group =>
                          set_value (fst group)
                            (buildTree (snd group) (set_insert bestFeature usedFeatures)))
                     (groupBy self (getColumnIndex self bestFeature) (first :: rest)))
          }
      }
  }.
Proof.
  destruct (findBestFeature_eligible (first :: rest) usedFeatures) as [He | [Hin He]].
  - rewrite He in Hfound. discriminate.
  - apply unused_insert; assumption.
Qed.

(** The body of [buildTree], as the source writes it. *)
Lemma buildTree_body (indices : list nat) (usedFeatures : list string) :
  buildTree indices usedFeatures =
    match indices with
    | [] => leaf_node "Unknown"
    | first :: _ =>
        if allSameClass self indices then leaf_node (classOf self first)
        else
          let bestFeature := findBestFeature self indices usedFeatures in
          if str_empty bestFeature
          then leaf_node (getMostCommonClass self indices)
          else
            decision_node bestFeature
              (map (fun group =>
                      set_value (fst group)
                        (buildTree (snd group) (set_insert bestFeature usedFeatures)))
                 (groupBy self (getColumnIndex self bestFeature) indices))
    end.
Proof.
  destruct indices as [|first rest]; simp buildTree; [reflexivity|].
  destruct (allSameClass self (first :: rest)); simpl; [reflexivity|].
  cbv zeta.
  generalize (@eq_refl _ (str_empty (findBestFeature self (first :: rest) usedFeatures))).
  generalize (str_empty (findBestFeature self (first :: rest) usedFeatures)) at 2 3.
  intros [] e; cbn beta iota; rewrite e; reflexivity.
Qed.

End Builder.



(** ** [loadCSV]

    The file is the list of its lines.  A line is cut at every comma by
    [std::getline(ss, cell, ',')]: the cell before each comma, and the
    rest of the line when it is not empty (nothing is extracted at the
    end of the stream, so a line ending in a comma has no last empty
    cell).  Blanks and tabs are erased at both ends of every cell.  The
    first line gives the headers, every other line a row. *)

Fixpoint split_cells (cell : string) (rest : string) : list string :=
  match rest with
  | EmptyString =>
      match cell with
      | EmptyString => []
      | String _ _ => [cell]
      end
  | String c rest' =>
      if Ascii.eqb c ","%char then cell :: split_cells "" rest'
      else split_cells (cell ++ String c "") rest'
  end.

Definition is_blank (c : ascii) : bool :=
  Ascii.eqb c " "%char || Ascii.eqb c "009"%char.

(** [cell.erase(0, cell.find_first_not_of(" \t"))] *)
Fixpoint erase_leading (cell : string) : string :=
  match cell with
  | EmptyString => ""
  | String c cell' => if is_blank c then erase_leading cell' else cell
  end.

(** [cell.erase(cell.find_last_not_of(" \t") + 1)] *)
Fixpoint erase_trailing (cell : string) : string :=
  match cell with
  | EmptyString => ""
  | String c cell' =>
      match erase_trailing cell' with
      | EmptyString => if is_blank c then "" else String c ""
      | String _ _ as kept => String c kept
      end
  end.

Definition parse_line (line : string) : list string :=
  map (fun cell => erase_trailing (erase_leading cell)) (split_cells "" line).

(** The object after [targetColumn = target] and [loadCSV]. *)
Definition loadCSV (lines : list string) (target : string) : DecisionTree :=
  match lines with
  | [] => mkDecisionTree [] [] target None
  | first :: others =>
      mkDecisionTree (map parse_line others) (parse_line first) target None
  end.

(** ** [train]

    The part of [train] that follows a successful [loadCSV]: [loaded]
    holds the header row, the data rows and the target column. *)

Definition train {D : Type} {ops : DoubleOps D} (loaded : DecisionTree) : option DecisionTree :=
  match data loaded with
  | [] => None
  | _ :: _ =>
      if (getColumnIndex loaded (targetColumn loaded) =? -1)%Z then None
      else
        let allIndices := seq 0 (List.length (data loaded)) in
        Some (mkDecisionTree (data loaded) (headers loaded) (targetColumn loaded)
                (Some (buildTree loaded allIndices [])))
  end.

(** ** [printTree] and [printDecisionTree]

    The output is the list of the lines written, each one ended by
    [std::endl].  [depth] counts the inner nodes above the node. *)

(** [std::string(n, ' ')] *)
Fixpoint spaces (n : nat) : string :=
  match n with
  | O => ""
  | S k => String " "%char (spaces k)
  end.

Fixpoint printTree (node : TreeNode) (depth : nat) (parentValue : string)
  {struct node} : list string :=
  let indent := spaces (depth * 2) in
  if isLeaf node then [(indent ++ "-> " ++ prediction node)%string]
  else
    (if Nat.ltb 0 depth
     then [(indent ++ "if " ++ feature node ++ " == " ++ parentValue ++ ":")%string]
     else [("Root: " ++ feature node)%string])
    ++ (fix each (cs : list TreeNode) : list string :=
          match cs with
          | [] => []
          | child :: cs' =>
              (if negb (str_empty (feature node))
               then [(indent ++ "  " ++ feature node ++ " == " ++ value child ++ ":")%string]
               else [])
              ++ printTree child (depth + 1) (value child)
              ++ each cs'
          end) (children node).

Definition printDecisionTree (self : DecisionTree) : list string :=
  match root self with
  | Some node =>
      [""; "Decision Tree Structure:"; "========================"]
      ++ printTree node 0 ""
  | None => ["No tree built yet."]
  end.

(** ** The prediction prompt of [main]

    One line of input is cut at the commas; a piece holding [=] gives a
    feature (before the first [=]) and a value (after it), both with
    blanks and tabs erased at the ends, stored by
    [instance[feature] = value]; a piece without [=] is skipped. *)

(** [pair.find('=')], [pair.substr(0, pos)] and [pair.substr(pos + 1)] *)
Fixpoint split_pair (before : string) (pair : string) : option (string * string) :=
  match pair with
  | EmptyString => None
  | String c pair' =>
      if Ascii.eqb c "="%char then Some (before, pair')
      else split_pair (before ++ String c "")%string pair'
  end.

Definition trim (cell : string) : string := erase_trailing (erase_leading cell).

Definition store_pair (instance : StdMap.t string) (pair : string) : StdMap.t string :=
  match split_pair "" pair with
  | Some (feature, value) => StdMap.upd (trim feature) (fun _ => trim value) instance
  | None => instance
  end.

Definition parseInstance (input : string) : StdMap.t string :=
  fold_left store_pair (split_cells "" input) [].

(** What one round of the loop prints after reading [input]; [None] when
    the input is [quit] and the loop ends. *)
Definition reply (self : DecisionTree) (input : string) : option string :=
  if String.eqb input "quit" then None
  else
    let instance := parseInstance input in
    match instance with
    | [] => Some "Invalid input format. Use: feature1=value1,feature2=value2"
    | _ :: _ =>
        Some ("Prediction: " ++ predictInstance (root self) instance)%string
    end.

(** ** Observations on trees *)

(** Every node of a tree, the root first. *)
Fixpoint nodes (n : TreeNode) : list TreeNode :=
  n :: flat_map nodes (children n).

(** The number of inner nodes on the longest path from the root. *)
Fixpoint depth (n : TreeNode) : nat :=
  if isLeaf n then 0
  else S (fold_right (fun c d => Nat.max (depth c) d) 0 (children n)).

(** The features of the inner nodes met on each path from the root to a
    leaf. *)
Fixpoint paths (n : TreeNode) : list (list string) :=
  if isLeaf n then [[]]
  else
    match children n with
    | [] => [[feature n]]
    | _ :: _ => map (cons (feature n)) (flat_map paths (children n))
    end.

(** The children of [n] whose edge value is [v]. *)
Definition matching (v : string) (n : TreeNode) : list TreeNode :=
  filter (fun c => String.eqb (value c) v) (children n).

(** ** Dataset notions used in the statements *)

Section Notions.

Variable self : DecisionTree.

(** The rows of [indices] whose class is [c], and their number. *)
Definition of_class (c : string) (indices : list nat) : list nat :=
  filter (fun idx => String.eqb (classOf self idx) c) indices.

Definition class_count (c : string) (indices : list nat) : nat :=
  List.length (of_class c indices).

(** The rows of [indices] that hold [v] in column [col]. *)
Definition with_value (col : Z) (v : string) (indices : list nat) : list nat :=
  filter (fun idx => String.eqb (cell self idx col) v) indices.

(** The feature columns: the headers other than the target. *)
Definition featureColumns : list string :=
  filter (fun h => negb (String.eqb h (targetColumn self))) (headers self).

(** The instance that reproduces row [idx]: every feature column mapped
    to the row's value. *)
Definition instance_of_row (idx : nat) : StdMap.t string :=
  map (fun h => (h, cell self idx (getColumnIndex self h))) featureColumns.

(** Rows agreeing on feature [f] agree on the class. *)
Definition determines (f : string) : Prop :=
  forall i j,
    i < List.length (data self) -> j < List.length (data self) ->
    cell self i (getColumnIndex self f) = cell self j (getColumnIndex self f) ->
    classOf self i = classOf self j.

End Notions.

(** ** Observations on text *)

(** Whether character [c] occurs in [s]. *)
Fixpoint contains (c : ascii) (s : string) : bool :=
  match s with
  | EmptyString => false
  | String c' s' => Ascii.eqb c' c || contains c s'
  end.

Definition starts_blank (s : string) : bool :=
  match s with
  | EmptyString => false
  | String c _ => is_blank c
  end.

Fixpoint ends_blank (s : string) : bool :=
  match s with
  | EmptyString => false
  | String c EmptyString => is_blank c
  | String _ s' => ends_blank s'
  end.

(** A cell as [loadCSV] stores it: no comma, no blank or tab at either
    end. *)
Definition clean_cell (cell : string) : bool :=
  negb (contains ","%char cell) && negb (starts_blank cell) && negb (ends_blank cell).

(** The pairs an input line of the prompt holds, in the order typed:
    every piece with an [=], cut at the first one, both sides trimmed. *)
Definition typed_pairs (input : string) : list (string * string) :=
  flat_map (fun pair => match split_pair "" pair with
                        | Some (feature, value) => [(trim feature, trim value)]
                        | None => []
                        end) (split_cells "" input).

(** ** Further observations on trees *)

Definition leaves (t : TreeNode) : list TreeNode :=
  filter isLeaf (nodes t).

(** The features of the inner nodes of a tree. *)
Definition features_of (node : TreeNode) : list string :=
  map feature (filter (fun n => negb (isLeaf n)) (nodes node)).

(** The shape [buildTree] gives a node, edge value apart. *)
Definition well_shaped (self : DecisionTree) (n : TreeNode) : Prop :=
  if isLeaf n
  then children n = [] /\ feature n = ""
  else children n <> []
       /\ In (feature n) (featureColumns self)
       /\ feature n <> ""
       /\ prediction n = "".

(** Every row has a cell for every header column: the reads
    [data[idx][col]] of the program are in range. *)
Definition rows_cover_headers (self : DecisionTree) : Prop :=
  Forall (fun row => (List.length (headers self) <= List.length row)%nat) (data self).

(** Two rows of different classes with the same value in column [f]. *)
Definition same_value_rows : DecisionTree :=
  mkDecisionTree [["s"; "yes"]; ["s"; "no"]] ["f"; "y"] "y" None.

(** ** Encounter order, as the specification words it

    The distinct values of a list in the order of their first
    occurrence. *)
Fixpoint first_seen (seen : list string) (l : list string) : list string :=
  match l with
  | [] => []
  | x :: l' =>
      if set_mem x seen then first_seen seen l'
      else x :: first_seen (x :: seen) l'
  end.

(** The values of column [col] over [indices], in first-encountered order. *)
Definition firstEncounteredValues (self : DecisionTree) (col : Z) (indices : list nat) : list string :=
  first_seen [] (map (fun idx => cell self idx col) indices).

(** The majority class with ties going to the class encountered first. *)
Definition firstEncounteredMajority (self : DecisionTree) (indices : list nat) : string :=
  fst (fold_left
         (fun best c =>
            if Nat.ltb (snd best) (class_count self c indices)
            then (c, class_count self c indices) else best)
         (first_seen [] (map (classOf self) indices)) ("", 0)).

(** ** [log2] at the powers of two

    At a power of two the binary logarithm is an integer, and the C
    library returns it exactly.  This instance of the parameter gives
    these values and answers NaN elsewhere; the examples evaluated below
    call [log2] at [0.5] and [1.0] only. *)
Definition log2_pow2 (x : float) : float :=
  let (m, e) := FloatOps.Z.frexp x in
  if PrimFloat.eqb m 0.5%float
  then float_of_int (e - 1)
  else PrimFloat.nan.

Definition B64 : DoubleOps float := Binary64 log2_pow2.

(** * Properties *)

(** ** The ordered map *)

Section StdMapFacts.

Context {V : Type}.
Implicit Types (m : StdMap.t V) (f : option V -> V) (k : string).

Lemma upd_keys_In k f m k' :
  In k' (StdMap.keys (StdMap.upd k f m)) <-> k' = k \/ In k' (StdMap.keys m).
Proof.
  induction m as [|[k0 v0] m IH]; simpl.
  - intuition.
  - destruct (String.compare k k0) eqn:Hc; simpl.
    + apply str_compare_eq in Hc. subst k0. intuition.
    + intuition.
    + rewrite IH. intuition.
Qed.

Lemma upd_ordered k f m :
  StdMap.ordered m -> StdMap.ordered (StdMap.upd k f m).
Proof.
  unfold StdMap.ordered.
  induction m as [|[k0 v0] m IH]; simpl; intros Hs.
  - constructor; constructor.
  - inversion Hs as [|? ? Hs' Hall]; subst.
    destruct (String.compare k k0) eqn:Hc; simpl.
    + constructor; assumption.
    + constructor; [exact Hs|].
      constructor; [exact Hc|].
      eapply Forall_impl; [|exact Hall].
      intros a Ha. eapply str_lt_trans; eauto.
    + constructor; [apply IH; exact Hs'|].
      apply Forall_forall. intros a Ha.
      apply upd_keys_In in Ha. destruct Ha as [-> | Ha].
      * apply str_compare_gt_lt. exact Hc.
      * rewrite Forall_forall in Hall. apply Hall. exact Ha.
Qed.

Lemma find_not_key k m :
  ~ In k (StdMap.keys m) -> StdMap.find k m = None.
Proof.
  induction m as [|[k0 v0] m IH]; simpl; intros Hn; [reflexivity|].
  destruct (String.eqb k k0) eqn:He.
  - apply String.eqb_eq in He. subst. exfalso. apply Hn. left. reflexivity.
  - apply IH. intros Hin. apply Hn. right. exact Hin.
Qed.

Lemma ordered_head_not_key k0 (v0 : V) m k :
  StdMap.ordered ((k0, v0) :: m) -> (k = k0 \/ str_lt k k0) ->
  ~ In k (StdMap.keys m).
Proof.
  unfold StdMap.ordered. simpl. intros Hs Hk Hin.
  inversion Hs as [|? ? _ Hall]; subst.
  rewrite Forall_forall in Hall. specialize (Hall _ Hin).
  destruct Hk as [-> | Hk].
  - exact (str_lt_irrefl _ Hall).
  - exact (str_lt_irrefl _ (str_lt_trans _ _ _ Hk Hall)).
Qed.

Lemma find_upd k f m k' :
  StdMap.ordered m ->
  StdMap.find k' (StdMap.upd k f m) =
    if String.eqb k' k then Some (f (StdMap.find k m)) else StdMap.find k' m.
Proof.
  induction m as [|[k0 v0] m IH]; simpl; intros Hs.
  - destruct (String.eqb k' k); reflexivity.
  - destruct (String.compare k k0) eqn:Hc; simpl.
    + apply str_compare_eq in Hc. subst k0.
      rewrite String.eqb_refl.
      destruct (String.eqb k' k); reflexivity.
    + assert (Hk0 : String.eqb k k0 = false).
      { apply String.eqb_neq. apply str_lt_neq. exact Hc. }
      rewrite Hk0.
      destruct (String.eqb k' k) eqn:He; [|reflexivity].
      rewrite (find_not_key k m); [reflexivity|].
      eapply ordered_head_not_key; [exact Hs|right; exact Hc].
    + assert (Hk0 : String.eqb k k0 = false).
      { apply String.eqb_neq. intros ->. rewrite str_compare_refl in Hc. discriminate. }
      rewrite Hk0.
      assert (Hs' : StdMap.ordered m).
      { unfold StdMap.ordered in *. simpl in Hs. inversion Hs; assumption. }
      rewrite (IH Hs').
      destruct (String.eqb k' k0) eqn:He0; [|reflexivity].
      apply String.eqb_eq in He0. subst k'.
      rewrite String.eqb_sym, Hk0. reflexivity.
Qed.

Lemma find_In k v m : StdMap.find k m = Some v -> In (k, v) m.
Proof.
  induction m as [|[k0 v0] m IH]; simpl; [discriminate|].
  destruct (String.eqb k k0) eqn:He.
  - apply String.eqb_eq in He. subst. intros [= ->]. left. reflexivity.
  - intros H. right. apply IH. exact H.
Qed.

Lemma In_find k v m :
  StdMap.ordered m -> In (k, v) m -> StdMap.find k m = Some v.
Proof.
  induction m as [|[k0 v0] m IH]; simpl; intros Hs; [intros []|].
  intros [[= -> ->] | Hin].
  - rewrite String.eqb_refl. reflexivity.
  - destruct (String.eqb k k0) eqn:He.
    + apply String.eqb_eq in He. subst k0. exfalso.
      eapply ordered_head_not_key; [exact Hs|left; reflexivity|].
      change k with (fst (k, v)). apply in_map. exact Hin.
    + apply IH; [|exact Hin].
      unfold StdMap.ordered in *. simpl in Hs. inversion Hs; assumption.
Qed.

Lemma ordered_keys_NoDup m : StdMap.ordered m -> NoDup (StdMap.keys m).
Proof.
  unfold StdMap.ordered. generalize (StdMap.keys m). intros l.
  induction 1 as [|a l Hs IH Hall]; constructor; [|exact IH].
  intros Hin. rewrite Forall_forall in Hall.
  exact (str_lt_irrefl _ (Hall _ Hin)).
Qed.

End StdMapFacts.

(** ** [int] within its range *)

Lemma wrap32_small (z : Z) :
  (-2147483648 <= z <= INT_MAX)%Z -> wrap32 z = z.
Proof.
  unfold wrap32, INT_MAX. intros H.
  rewrite Z.mod_small by lia. lia.
Qed.

Lemma int_of_size_small (n : nat) :
  (Z.of_nat n <= INT_MAX)%Z -> int_of_size n = Z.of_nat n.
Proof. intros H. unfold int_of_size. apply wrap32_small. unfold INT_MAX in *. lia. Qed.

Lemma int_incr_small (c : Z) :
  (0 <= c < INT_MAX)%Z -> int_incr c = (c + 1)%Z.
Proof. intros H. unfold int_incr. apply wrap32_small. unfold INT_MAX in *. lia. Qed.

(** ** Grouping and counting *)

Section Grouping.

Variable self : DecisionTree.

Lemma groupBy_snoc (col : Z) (l : list nat) (i : nat) :
  groupBy self col (l ++ [i]) =
    StdMap.upd (cell self i col) (push_back i) (groupBy self col l).
Proof. unfold groupBy. rewrite fold_left_app. reflexivity. Qed.

Lemma groupBy_ordered (col : Z) (l : list nat) :
  StdMap.ordered (groupBy self col l).
Proof.
  induction l as [|i l IH] using rev_ind.
  - constructor.
  - rewrite groupBy_snoc. apply upd_ordered. exact IH.
Qed.

Lemma with_value_snoc (col : Z) (v : string) (l : list nat) (i : nat) :
  with_value self col v (l ++ [i]) =
    with_value self col v l ++ (if String.eqb (cell self i col) v then [i] else []).
Proof. unfold with_value. rewrite filter_app. reflexivity. Qed.

(** The group stored under [v] is the sub-list of the rows holding [v],
    in the order of [indices]; a value no row holds has no entry. *)
Lemma groupBy_find (col : Z) (l : list nat) (v : string) :
  StdMap.find v (groupBy self col l) =
    match with_value self col v l with
    | [] => None
    | g => Some g
    end.
Proof.
  induction l as [|i l IH] using rev_ind; [reflexivity|].
  rewrite groupBy_snoc, find_upd by apply groupBy_ordered.
  rewrite with_value_snoc, (String.eqb_sym v).
  destruct (String.eqb (cell self i col) v) eqn:He.
  - apply String.eqb_eq in He. subst v. rewrite IH.
    destruct (with_value self col (cell self i col) l); reflexivity.
  - rewrite app_nil_r. exact IH.
Qed.

Lemma groupBy_In (col : Z) (l : list nat) (v : string) (g : list nat) :
  In (v, g) (groupBy self col l) <-> g = with_value self col v l /\ g <> [].
Proof.
  split.
  - intros Hin. apply (In_find _ _ _ (groupBy_ordered col l)) in Hin.
    rewrite groupBy_find in Hin.
    destruct (with_value self col v l) eqn:Hw; [discriminate|].
    injection Hin as <-. split; [reflexivity|discriminate].
  - intros [-> Hne]. apply find_In. rewrite groupBy_find.
    destruct (with_value self col v l); [contradiction|reflexivity].
Qed.

Lemma with_value_nonempty (col : Z) (l : list nat) (v : string) :
  with_value self col v l <> [] <-> exists idx, In idx l /\ cell self idx col = v.
Proof.
  unfold with_value. split.
  - intros Hne. destruct (filter _ l) as [|idx g] eqn:Hf; [contradiction|].
    exists idx. assert (Hin : In idx (filter (fun idx => String.eqb (cell self idx col) v) l)).
    { rewrite Hf. left. reflexivity. }
    apply filter_In in Hin. destruct Hin as [Hin He].
    apply String.eqb_eq in He. auto.
  - intros (idx & Hin & He) Hf.
    assert (Hin' : In idx (filter (fun idx => String.eqb (cell self idx col) v) l)).
    { apply filter_In. split; [exact Hin|]. apply String.eqb_eq. exact He. }
    rewrite Hf in Hin'. exact Hin'.
Qed.

Lemma groupBy_keys (col : Z) (l : list nat) (v : string) :
  In v (StdMap.keys (groupBy self col l)) <->
  exists idx, In idx l /\ cell self idx col = v.
Proof.
  rewrite <- with_value_nonempty. split.
  - intros Hin. apply in_map_iff in Hin. destruct Hin as ([v' g] & Hv & Hin).
    simpl in Hv. subst v'. apply groupBy_In in Hin. destruct Hin as [<- Hne]. exact Hne.
  - intros Hne. apply in_map_iff. exists (v, with_value self col v l).
    split; [reflexivity|]. apply groupBy_In. auto.
Qed.

(** The map as a whole: one entry per key, holding the rows of that key. *)
Lemma groupBy_entries (col : Z) (l : list nat) :
  groupBy self col l =
    map (fun v => (v, with_value self col v l)) (StdMap.keys (groupBy self col l)).
Proof.
  assert (H : forall p, In p (groupBy self col l) -> snd p = with_value self col (fst p) l).
  { intros [v g] Hin. apply groupBy_In in Hin. simpl. tauto. }
  revert H. generalize (groupBy self col l). intros m.
  induction m as [|[v g] m IH]; intros H; [reflexivity|].
  simpl. f_equal.
  - f_equal. apply (H (v, g)). left. reflexivity.
  - apply IH. intros p Hp. apply H. right. exact Hp.
Qed.

Lemma classCounts_snoc (l : list nat) (i : nat) :
  classCounts self (l ++ [i]) =
    StdMap.upd (classOf self i) count_incr (classCounts self l).
Proof. unfold classCounts. rewrite fold_left_app. reflexivity. Qed.

Lemma classCounts_ordered (l : list nat) : StdMap.ordered (classCounts self l).
Proof.
  induction l as [|i l IH] using rev_ind.
  - constructor.
  - rewrite classCounts_snoc. apply upd_ordered. exact IH.
Qed.

Lemma class_count_snoc (c : string) (l : list nat) (i : nat) :
  class_count self c (l ++ [i]) =
    class_count self c l + (if String.eqb (classOf self i) c then 1 else 0).
Proof.
  unfold class_count, of_class. rewrite filter_app, length_app. simpl.
  destruct (String.eqb (classOf self i) c); reflexivity.
Qed.

Lemma class_count_le (c : string) (l : list nat) :
  class_count self c l <= List.length l.
Proof. unfold class_count, of_class. apply filter_length_le. Qed.

(** The count stored under [c] is the number of rows of class [c]; a
    class no row has has no entry. *)
Lemma classCounts_find (l : list nat) (c : string) :
  (Z.of_nat (List.length l) <= INT_MAX)%Z ->
  StdMap.find c (classCounts self l) =
    match class_count self c l with
    | 0 => None
    | S n => Some (Z.of_nat (S n))
    end.
Proof.
  induction l as [|i l IH] using rev_ind; [reflexivity|].
  rewrite length_app. simpl. intros Hlen.
  rewrite classCounts_snoc, find_upd by apply classCounts_ordered.
  rewrite class_count_snoc, (String.eqb_sym c).
  destruct (String.eqb (classOf self i) c) eqn:He.
  - apply String.eqb_eq in He. subst c. rewrite IH by lia.
    pose proof (class_count_le (classOf self i) l) as Hle.
    destruct (class_count self (classOf self i) l) as [|n] eqn:Hn; simpl.
    + reflexivity.
    + unfold count_incr. rewrite int_incr_small by lia.
      replace (S n + 1) with (S (S n)) by lia. f_equal. lia.
  - rewrite Nat.add_0_r. apply IH. lia.
Qed.

Lemma classCounts_In (l : list nat) (c : string) (k : Z) :
  (Z.of_nat (List.length l) <= INT_MAX)%Z ->
  In (c, k) (classCounts self l) <->
  k = Z.of_nat (class_count self c l) /\ 0 < class_count self c l.
Proof.
  intros Hlen. split.
  - intros Hin. apply (In_find _ _ _ (classCounts_ordered l)) in Hin.
    rewrite classCounts_find in Hin by exact Hlen.
    destruct (class_count self c l); [discriminate|].
    injection Hin as <-. split; [reflexivity|lia].
  - intros [-> Hpos]. apply find_In. rewrite classCounts_find by exact Hlen.
    destruct (class_count self c l); [lia|reflexivity].
Qed.

Lemma class_count_pos (l : list nat) (c : string) :
  0 < class_count self c l <-> exists idx, In idx l /\ classOf self idx = c.
Proof.
  unfold class_count, of_class. split.
  - intros Hpos. destruct (filter _ l) as [|idx g] eqn:Hf; [simpl in Hpos; lia|].
    exists idx.
    assert (Hin : In idx (filter (fun idx => String.eqb (classOf self idx) c) l)).
    { rewrite Hf. left. reflexivity. }
    apply filter_In in Hin. destruct Hin as [Hin He].
    apply String.eqb_eq in He. auto.
  - intros (idx & Hin & He).
    assert (Hin' : In idx (filter (fun idx => String.eqb (classOf self idx) c) l)).
    { apply filter_In. split; [exact Hin|]. apply String.eqb_eq. exact He. }
    destruct (filter _ l); [destruct Hin'|simpl; lia].
Qed.

Lemma allSameClass_true (l : list nat) :
  allSameClass self l = true <->
  forall i j, In i l -> In j l -> classOf self i = classOf self j.
Proof.
  destruct l as [|first rest]; simpl.
  - split; [intros _ i j []|reflexivity].
  - rewrite String.eqb_refl. simpl. rewrite forallb_forall. split.
    + intros H i j Hi Hj.
      assert (Hfirst : forall x, In x (first :: rest) -> classOf self x = classOf self first).
      { intros x [<- | Hx]; [reflexivity|]. apply String.eqb_eq. apply H. exact Hx. }
      rewrite (Hfirst i Hi), (Hfirst j Hj). reflexivity.
    + intros H x Hx. apply String.eqb_eq. apply H; [right; exact Hx|left; reflexivity].
Qed.

End Grouping.

(** ** The shape of built trees *)

Lemma set_value_children (v : string) (n : TreeNode) :
  children (set_value v n) = children n.
Proof. reflexivity. Qed.

Lemma depth_set_value (v : string) (n : TreeNode) :
  depth (set_value v n) = depth n.
Proof. destruct n; reflexivity. Qed.

Lemma paths_set_value (v : string) (n : TreeNode) :
  paths (set_value v n) = paths n.
Proof. destruct n; reflexivity. Qed.

Lemma nodes_unfold (n : TreeNode) :
  nodes n = n :: flat_map nodes (children n).
Proof. destruct n; reflexivity. Qed.

Section BuilderFacts.

Context {D : Type} {ops : DoubleOps D}.
Variable self : DecisionTree.

(** The children [buildTree] gives an inner node: one per group, in the
    order of the map, each built from the group with the chosen feature
    added to the used ones, and labelled with the group's key. *)
Definition built_children (indices : list nat) (usedFeatures : list string)
  (bestFeature : string) : list TreeNode :=
  map (fun group =>
         set_value (fst group)
           (buildTree self (snd group) (set_insert bestFeature usedFeatures)))
    (groupBy self (getColumnIndex self bestFeature) indices).

(** Induction following the four outcomes of [buildTree]. *)
Lemma buildTree_cases (P : list nat -> list string -> TreeNode -> Prop) :
  (forall used, P [] used (leaf_node "Unknown")) ->
  (forall first rest used,
      allSameClass self (first :: rest) = true ->
      P (first :: rest) used (leaf_node (classOf self first))) ->
  (forall indices used,
      indices <> [] -> allSameClass self indices = false ->
      str_empty (findBestFeature self indices used) = true ->
      P indices used (leaf_node (getMostCommonClass self indices))) ->
  (forall indices used f,
      indices <> [] -> allSameClass self indices = false ->
      f = findBestFeature self indices used ->
      str_empty f = false ->
      In f (headers self) -> eligible self used f = true ->
      (forall g, P g (set_insert f used) (buildTree self g (set_insert f used))) ->
      P indices used (decision_node f (built_children indices used f))) ->
  forall indices used, P indices used (buildTree self indices used).
Proof.
  intros Hempty Hpure Hnone Hsplit indices used.
  remember (unused self used) as n eqn:Hn.
  revert indices used Hn.
  induction n as [n IH] using lt_wf_ind. intros indices used Hn.
  rewrite buildTree_body.
  destruct indices as [|first rest]; [apply Hempty|].
  destruct (allSameClass self (first :: rest)) eqn:Hsame; [apply Hpure; exact Hsame|].
  cbv zeta.
  destruct (str_empty (findBestFeature self (first :: rest) used)) eqn:Hfound.
  - apply Hnone; [discriminate|exact Hsame|exact Hfound].
  - destruct (findBestFeature_eligible self (first :: rest) used) as [He | [Hin He]].
    + rewrite He in Hfound. discriminate.
    + apply (Hsplit (first :: rest) used _); try assumption; try reflexivity; try discriminate.
      intros g. eapply IH; [|reflexivity].
      subst n. apply unused_insert; assumption.
Qed.

Lemma buildTree_split (indices : list nat) (used : list string) :
  indices <> [] -> allSameClass self indices = false ->
  str_empty (findBestFeature self indices used) = false ->
  buildTree self indices used =
    decision_node (findBestFeature self indices used)
      (built_children indices used (findBestFeature self indices used)).
Proof.
  intros Hne Hsame Hfound. rewrite buildTree_body.
  destruct indices as [|first rest]; [contradiction|].
  rewrite Hsame. cbv zeta. rewrite Hfound. reflexivity.
Qed.

Lemma built_children_values (indices : list nat) (used : list string) (f : string) :
  map value (built_children indices used f) =
    StdMap.keys (groupBy self (getColumnIndex self f) indices).
Proof.
  unfold built_children, StdMap.keys. rewrite map_map. apply map_ext.
  intros [v g]. reflexivity.
Qed.

Lemma built_children_by_value (indices : list nat) (used : list string) (f : string) :
  built_children indices used f =
    map (fun v =>
           set_value v
             (buildTree self (with_value self (getColumnIndex self f) v indices)
                (set_insert f used)))
      (StdMap.keys (groupBy self (getColumnIndex self f) indices)).
Proof.
  unfold built_children.
  rewrite (groupBy_entries self (getColumnIndex self f) indices) at 1.
  rewrite map_map. reflexivity.
Qed.

Lemma built_children_In (indices : list nat) (used : list string) (f : string)
  (child : TreeNode) :
  In child (built_children indices used f) ->
  exists g, child = set_value (value child) (buildTree self g (set_insert f used))
            /\ g = with_value self (getColumnIndex self f) (value child) indices
            /\ g <> [].
Proof.
  unfold built_children. intros Hin. apply in_map_iff in Hin.
  destruct Hin as ([v g] & <- & Hin). simpl.
  apply groupBy_In in Hin. destruct Hin as [Hg Hne].
  exists g. repeat split; assumption.
Qed.

(** No eligible header: the loop of [findBestFeature] never assigns. *)
Lemma findBestFeature_none (indices : list nat) (used : list string) :
  (forall h, In h (headers self) -> eligible self used h = false) ->
  findBestFeature self indices used = "".
Proof.
  intros Hall. unfold findBestFeature.
  assert (Hfold : forall l best,
             (forall h, In h l -> eligible self used h = false) ->
             fold_left (best_step self indices used) l best = best).
  { induction l as [|h l IH]; intros best Hl; [reflexivity|].
    simpl. unfold best_step at 2. rewrite (Hl h) by (left; reflexivity).
    apply IH. intros h' Hh'. apply Hl. right. exact Hh'. }
  rewrite Hfold by exact Hall. reflexivity.
Qed.

Lemma unused_zero (used : list string) :
  unused self used = 0 <->
  forall h, In h (headers self) -> eligible self used h = false.
Proof.
  unfold unused. split.
  - intros Hlen h Hin. destruct (eligible self used h) eqn:He; [|reflexivity].
    assert (Hf : In h (filter (eligible self used) (headers self))).
    { apply filter_In. auto. }
    destruct (filter _ _); [destruct Hf|discriminate].
  - intros Hall. induction (headers self) as [|h l IH]; [reflexivity|].
    simpl. rewrite (Hall h) by (left; reflexivity).
    apply IH. intros h' Hh'. apply Hall. right. exact Hh'.
Qed.

Lemma unused_le_featureColumns (used : list string) :
  unused self used <= List.length (featureColumns self).
Proof.
  unfold unused, featureColumns.
  induction (headers self) as [|h l IH]; simpl; [lia|].
  unfold eligible at 1.
  destruct (String.eqb h (targetColumn self)); simpl; [exact IH|].
  destruct (set_mem h used); simpl; lia.
Qed.

Lemma max_depth_le (cs : list TreeNode) (k : nat) :
  (forall c, In c cs -> depth c <= k) ->
  fold_right (fun c d => Nat.max (depth c) d) 0 cs <= k.
Proof.
  induction cs as [|c cs IH]; simpl; intros H; [lia|].
  apply Nat.max_lub.
  - apply H. left. reflexivity.
  - apply IH. intros c' Hc'. apply H. right. exact Hc'.
Qed.

Lemma buildTree_depth (indices : list nat) (used : list string) :
  depth (buildTree self indices used) <= unused self used.
Proof.
  apply (buildTree_cases (fun _ used t => depth t <= unused self used));
    try (intros; simpl; lia).
  intros idx u f _ _ _ _ Hin He IH. simpl.
  pose proof (unused_insert self u f Hin He) as Hlt.
  assert (Hmax : fold_right (fun c d => Nat.max (depth c) d) 0 (built_children idx u f)
                 <= unused self (set_insert f u)).
  { apply max_depth_le. intros c Hc.
    apply built_children_In in Hc. destruct Hc as (g & -> & _).
    rewrite depth_set_value. apply IH. }
  lia.
Qed.

End BuilderFacts.

(** ** Edge values and the scan of [predict] *)

Lemma first_child_matching (v : string) (n : TreeNode) :
  first_child v (children n) = hd_error (matching v n).
Proof.
  unfold matching. induction (children n) as [|c cs IH]; simpl; [reflexivity|].
  destruct (String.eqb (value c) v); [reflexivity|exact IH].
Qed.

Lemma matching_unique (v : string) (n : TreeNode) (c : TreeNode) :
  NoDup (map value (children n)) ->
  In c (children n) -> value c = v -> matching v n = [c].
Proof.
  unfold matching. induction (children n) as [|c0 cs IH]; simpl; [intros _ []|].
  intros Hnd Hin Hv. inversion Hnd as [|? ? Hnotin Hnd']; subst.
  assert (Hnone : forall c', value c' = value c0 -> ~ In c' cs).
  { intros c' Hc' Hin'. apply Hnotin. rewrite <- Hc'. apply in_map. exact Hin'. }
  destruct Hin as [-> | Hin].
  - rewrite String.eqb_refl. f_equal.
    assert (Hf : forall l, (forall c', In c' l -> value c' <> value c) ->
                           filter (fun c' => String.eqb (value c') (value c)) l = []).
    { induction l as [|x l IHl]; intros Hl; [reflexivity|]. simpl.
      destruct (String.eqb (value x) (value c)) eqn:He.
      - apply String.eqb_eq in He. exfalso. apply (Hl x); [left; reflexivity|exact He].
      - apply IHl. intros c' Hc'. apply Hl. right. exact Hc'. }
    apply Hf. intros c' Hc' He. exact (Hnone c' He Hc').
  - destruct (String.eqb (value c0) (value c)) eqn:He.
    + apply String.eqb_eq in He. exfalso. exact (Hnone c (eq_sym He) Hin).
    + apply IH; auto.
Qed.

Lemma matching_le_one (v : string) (n : TreeNode) :
  NoDup (map value (children n)) -> List.length (matching v n) <= 1.
Proof.
  intros Hnd. destruct (matching v n) as [|c l] eqn:Hm; [simpl; lia|].
  assert (Hin : In c (matching v n)) by (rewrite Hm; left; reflexivity).
  unfold matching in Hin. apply filter_In in Hin. destruct Hin as [Hin He].
  apply String.eqb_eq in He.
  rewrite (matching_unique v n c Hnd Hin He) in Hm.
  injection Hm as <-. simpl. lia.
Qed.

Lemma predict_absent (node : TreeNode) (instance : StdMap.t string) :
  isLeaf node = false -> StdMap.find (feature node) instance = None ->
  predict node instance = "Unknown".
Proof. intros Hl Hf. rewrite predict_unfold, Hl, Hf. reflexivity. Qed.

Lemma predict_unseen (node : TreeNode) (instance : StdMap.t string) (v : string) :
  isLeaf node = false -> StdMap.find (feature node) instance = Some v ->
  matching v node = [] ->
  predict node instance = "Unknown".
Proof.
  intros Hl Hf Hm. rewrite predict_unfold, Hl, Hf, first_child_matching, Hm.
  reflexivity.
Qed.

Lemma predict_descend (node : TreeNode) (instance : StdMap.t string) (v : string)
  (child : TreeNode) (others : list TreeNode) :
  isLeaf node = false -> StdMap.find (feature node) instance = Some v ->
  matching v node = child :: others ->
  predict node instance = predict child instance.
Proof.
  intros Hl Hf Hm. rewrite predict_unfold, Hl, Hf, first_child_matching, Hm.
  reflexivity.
Qed.

Section BuiltTrees.

Context {D : Type} {ops : DoubleOps D}.
Variable self : DecisionTree.

(** At every node of a built tree the edge values of the children are
    pairwise distinct. *)
Lemma buildTree_edges_NoDup (indices : list nat) (used : list string) (n : TreeNode) :
  In n (nodes (buildTree self indices used)) ->
  NoDup (map value (children n)).
Proof.
  revert n.
  apply (buildTree_cases self
           (fun _ _ t => forall n, In n (nodes t) -> NoDup (map value (children n)))).
  - intros u n [<- | []]. constructor.
  - intros first rest u _ n [<- | []]. constructor.
  - intros idx u _ _ _ n [<- | []]. constructor.
  - intros idx u f _ _ _ _ _ _ IH n Hn.
    rewrite nodes_unfold in Hn. destruct Hn as [<- | Hn].
    + simpl. rewrite built_children_values.
      apply ordered_keys_NoDup. apply groupBy_ordered.
    + simpl in Hn. apply in_flat_map in Hn. destruct Hn as (c & Hc & Hn).
      apply built_children_In in Hc. destruct Hc as (g & Hc & _).
      rewrite Hc, nodes_unfold in Hn. destruct Hn as [<- | Hn].
      * rewrite set_value_children. apply (IH g).
        rewrite nodes_unfold. left. reflexivity.
      * apply (IH g). rewrite nodes_unfold. right. exact Hn.
Qed.

(** On every path of a built tree the features are pairwise distinct and
    none of them was used before. *)
Lemma buildTree_paths_fresh (indices : list nat) (used : list string) (p : list string) :
  In p (paths (buildTree self indices used)) ->
  NoDup p /\ forall f, In f p -> set_mem f used = false.
Proof.
  revert p.
  apply (buildTree_cases self
           (fun _ used t => forall p, In p (paths t) ->
                                      NoDup p /\ forall f, In f p -> set_mem f used = false)).
  - intros u p [<- | []]. split; [constructor|intros f []].
  - intros first rest u _ p [<- | []]. split; [constructor|intros f []].
  - intros idx u _ _ _ p [<- | []]. split; [constructor|intros f []].
  - intros idx u f _ _ _ _ _ He IH p Hp.
    assert (Hfu : set_mem f u = false).
    { unfold eligible in He. apply andb_true_iff in He. destruct He as [_ He].
      apply negb_true_iff in He. exact He. }
    simpl in Hp.
    destruct (built_children self idx u f) as [|c0 cs] eqn:Hcs.
    + destruct Hp as [<- | []]. split.
      * constructor; [intros []|constructor].
      * intros x [<- | []]. exact Hfu.
    + rewrite <- Hcs in Hp. apply in_map_iff in Hp. destruct Hp as (q & <- & Hq).
      apply in_flat_map in Hq. destruct Hq as (c & Hc & Hq).
      apply built_children_In in Hc. destruct Hc as (g & Hc & _).
      rewrite Hc, paths_set_value in Hq.
      destruct (IH g q Hq) as [Hnd Hfresh].
      assert (Hmem : forall x, In x q -> x <> f /\ set_mem x u = false).
      { intros x Hx. specialize (Hfresh x Hx). rewrite set_mem_insert in Hfresh.
        apply orb_false_iff in Hfresh. destruct Hfresh as [Hxf Hxu].
        apply String.eqb_neq in Hxf. auto. }
      split.
      * constructor; [|exact Hnd]. intros Hin. destruct (Hmem f Hin) as [Hne _].
        apply Hne. reflexivity.
      * intros x [<- | Hx]; [exact Hfu|]. apply (Hmem x Hx).
Qed.

End BuiltTrees.

(** ** The majority class *)

Lemma common_fold (m : StdMap.t Z) (best : string * Z) :
  StdMap.ordered m ->
  let r := fold_left common_step m best in
  (r = best \/ (In r m /\ (snd best < snd r)%Z))
  /\ (snd best <= snd r)%Z
  /\ (forall p, In p m -> (snd p <= snd r)%Z)
  /\ (forall p, In p m -> snd p = snd r ->
                r = best \/ fst r = fst p \/ str_lt (fst r) (fst p)).
Proof.
  revert best. induction m as [|[k0 c0] m IH]; intros best Hord; simpl.
  - repeat split; auto; try lia; intros p [].
  - assert (Hord' : StdMap.ordered m).
    { unfold StdMap.ordered in *. simpl in Hord. inversion Hord; assumption. }
    assert (Hk0 : forall p, In p m -> str_lt k0 (fst p)).
    { unfold StdMap.ordered in Hord. simpl in Hord.
      inversion Hord as [|? ? _ Hall]; subst. rewrite Forall_forall in Hall.
      intros p Hp. apply Hall. apply in_map. exact Hp. }
    set (b' := common_step best (k0, c0)).
    assert (Hb' : (b' = (k0, c0) /\ (snd best < c0)%Z) \/ (b' = best /\ (c0 <= snd best)%Z)).
    { unfold b', common_step. simpl.
      destruct (Z.gtb_spec c0 (snd best)); [left|right]; split; auto. }
    destruct (IH b' Hord') as (H1 & H2 & H3 & H4). clearbody b'.
    destruct Hb' as [[-> Hgt] | [-> Hle]]; simpl in *.
    + repeat split.
      * right. destruct H1 as [-> | [Hin Hlt]]; simpl; [auto|].
        split; [auto|lia].
      * lia.
      * intros p [<- | Hp]; simpl; [lia|auto].
      * intros p [<- | Hp] Hs; simpl in *.
        -- destruct H1 as [-> | [Hin Hlt]]; [auto|lia].
        -- destruct (H4 p Hp Hs) as [-> | Hr]; [|auto].
           right. right. simpl. apply Hk0. exact Hp.
    + repeat split.
      * destruct H1 as [-> | [Hin Hlt]]; auto.
      * exact H2.
      * intros p [<- | Hp]; simpl; [lia|auto].
      * intros p [<- | Hp] Hs; simpl in *.
        -- destruct H1 as [-> | [Hin Hlt]]; [auto|lia].
        -- auto.
Qed.

Lemma getMostCommonClass_majority (self : DecisionTree) (l : list nat) :
  l <> [] -> (Z.of_nat (List.length l) <= INT_MAX)%Z ->
  let lbl := getMostCommonClass self l in
  0 < class_count self lbl l
  /\ (forall c, class_count self c l <= class_count self lbl l)
  /\ (forall c, class_count self c l = class_count self lbl l ->
                c = lbl \/ str_lt lbl c).
Proof.
  intros Hne Hlen. unfold getMostCommonClass.
  destruct (common_fold (classCounts self l) ("", 0%Z) (classCounts_ordered self l))
    as (H1 & _ & H3 & H4).
  set (r := fold_left common_step (classCounts self l) ("", 0%Z)) in *.
  simpl in H1.
  assert (Hr : In r (classCounts self l)).
  { destruct H1 as [Hr | [Hin _]]; [|exact Hin]. exfalso.
    destruct l as [|i0 l0]; [contradiction|].
    assert (Hpos : 0 < class_count self (classOf self i0) (i0 :: l0)).
    { apply class_count_pos. exists i0. split; [left|]; reflexivity. }
    assert (Hin : In (classOf self i0, Z.of_nat (class_count self (classOf self i0) (i0 :: l0)))
                    (classCounts self (i0 :: l0))).
    { apply classCounts_In; auto. }
    specialize (H3 _ Hin). rewrite Hr in H3. simpl in H3. lia. }
  destruct r as [lbl k] eqn:Er. simpl.
  apply classCounts_In in Hr; [|exact Hlen]. destruct Hr as [Hk Hpos].
  split; [exact Hpos|]. split.
  - intros c. destruct (class_count self c l) as [|n] eqn:Hc; [lia|].
    assert (Hin : In (c, Z.of_nat (class_count self c l)) (classCounts self l)).
    { apply classCounts_In; [exact Hlen|]. split; [reflexivity|lia]. }
    specialize (H3 _ Hin). simpl in H3. lia.
  - intros c Hc.
    assert (Hin : In (c, Z.of_nat (class_count self c l)) (classCounts self l)).
    { apply classCounts_In; [exact Hlen|]. split; [reflexivity|lia]. }
    destruct (H4 _ Hin) as [Hb | [Hf | Hlt]]; simpl in *.
    + rewrite Hc, Hk. reflexivity.
    + injection Hb as -> ->. lia.
    + auto.
    + auto.
Qed.


(** * Exact arithmetic: entropy and information gain over the reals *)

Local Open Scope R_scope.

(** ** Finite sums of real numbers *)

Definition Rsum (l : list R) : R := fold_right Rplus 0 l.

Lemma Rsum_app (l1 l2 : list R) : Rsum (l1 ++ l2) = Rsum l1 + Rsum l2.
Proof. induction l1 as [|x l1 IH]; simpl; [lra|]. rewrite IH. lra. Qed.

Lemma Rsum_map_ext {A : Type} (f g : A -> R) (l : list A) :
  (forall x, In x l -> f x = g x) -> Rsum (map f l) = Rsum (map g l).
Proof.
  induction l as [|x l IH]; simpl; intros H; [reflexivity|].
  rewrite (H x) by (left; reflexivity). rewrite IH; [reflexivity|].
  intros y Hy. apply H. right. exact Hy.
Qed.

Lemma Rsum_map_le {A : Type} (f g : A -> R) (l : list A) :
  (forall x, In x l -> f x <= g x) -> Rsum (map f l) <= Rsum (map g l).
Proof.
  induction l as [|x l IH]; simpl; intros H; [lra|].
  pose proof (H x (or_introl eq_refl)).
  assert (Rsum (map f l) <= Rsum (map g l)).
  { apply IH. intros y Hy. apply H. right. exact Hy. }
  lra.
Qed.

Lemma Rsum_map_nonneg {A : Type} (f : A -> R) (l : list A) :
  (forall x, In x l -> 0 <= f x) -> 0 <= Rsum (map f l).
Proof.
  induction l as [|x l IH]; simpl; intros H; [lra|].
  pose proof (H x (or_introl eq_refl)).
  assert (0 <= Rsum (map f l)).
  { apply IH. intros y Hy. apply H. right. exact Hy. }
  lra.
Qed.

Lemma Rsum_map_zero {A : Type} (f : A -> R) (l : list A) :
  (forall x, In x l -> 0 <= f x) -> Rsum (map f l) = 0 ->
  forall x, In x l -> f x = 0.
Proof.
  induction l as [|y l IH]; simpl; intros H Hs x; [intros []|].
  pose proof (H y (or_introl eq_refl)).
  assert (0 <= Rsum (map f l)).
  { apply Rsum_map_nonneg. intros z Hz. apply H. right. exact Hz. }
  intros [<- | Hx]; [lra|].
  apply IH; auto. lra.
Qed.

Lemma Rsum_map_plus {A : Type} (f g : A -> R) (l : list A) :
  Rsum (map (fun x => f x + g x) l) = Rsum (map f l) + Rsum (map g l).
Proof. induction l as [|x l IH]; simpl; [lra|]. rewrite IH. lra. Qed.

Lemma Rsum_map_scal {A : Type} (c : R) (f : A -> R) (l : list A) :
  Rsum (map (fun x => c * f x) l) = c * Rsum (map f l).
Proof. induction l as [|x l IH]; simpl; [lra|]. rewrite IH. lra. Qed.

Lemma Rsum_map_const {A : Type} (c : R) (l : list A) :
  Rsum (map (fun _ => c) l) = INR (List.length l) * c.
Proof.
  induction l as [|x l IH]; [simpl; lra|].
  change (Rsum (map (fun _ => c) (x :: l))) with (c + Rsum (map (fun _ => c) l)).
  rewrite IH. change (List.length (x :: l)) with (S (List.length l)).
  rewrite S_INR. lra.
Qed.

Lemma Rsum_map_swap {A B : Type} (F : A -> B -> R) (la : list A) (lb : list B) :
  Rsum (map (fun a => Rsum (map (fun b => F a b) lb)) la) =
  Rsum (map (fun b => Rsum (map (fun a => F a b) la)) lb).
Proof.
  induction la as [|a la IH]; simpl.
  - induction lb as [|b lb IHb]; simpl; [reflexivity|]. rewrite <- IHb. lra.
  - rewrite IH. rewrite <- Rsum_map_plus. reflexivity.
Qed.

Lemma Rsum_indicator {A : Type} (p : A -> bool) (l : list A) :
  Rsum (map (fun x => if p x then 1 else 0) l) = INR (List.length (filter p l)).
Proof.
  induction l as [|x l IH]; [reflexivity|].
  simpl. rewrite IH. destruct (p x).
  - change (List.length (x :: filter p l)) with (S (List.length (filter p l))).
    rewrite S_INR. lra.
  - lra.
Qed.

(** ** The logarithm *)

Lemma ln_2_pos : 0 < ln 2.
Proof. pose proof ln_lt_2. lra. Qed.

Lemma ln_le_sub_1 (x : R) : 0 < x -> ln x <= x - 1.
Proof.
  intros Hx. pose proof (exp_ineq1_le (ln x)) as H.
  rewrite exp_ln in H by exact Hx. lra.
Qed.

Lemma ln_ge_1_sub_inv (x : R) : 0 < x -> 1 - / x <= ln x.
Proof.
  intros Hx. pose proof (ln_le_sub_1 (/ x) (Rinv_0_lt_compat _ Hx)) as H.
  rewrite ln_Rinv in H by exact Hx. lra.
Qed.

Lemma ln_le_0 (x : R) : 0 < x -> x <= 1 -> ln x <= 0.
Proof. intros H0 H1. pose proof (ln_le_sub_1 x H0). lra. Qed.

Lemma Rlog2_1 : Rlog2 1 = 0.
Proof. unfold Rlog2. rewrite ln_1. unfold Rdiv. lra. Qed.

Lemma Rlog2_le_0 (x : R) : 0 < x -> x <= 1 -> Rlog2 x <= 0.
Proof.
  intros H0 H1. unfold Rlog2, Rdiv.
  pose proof (ln_le_0 x H0 H1). pose proof (Rinv_0_lt_compat _ ln_2_pos).
  nra.
Qed.

Lemma Rlog2_eq_0 (x : R) : 0 < x -> Rlog2 x = 0 -> x = 1.
Proof.
  intros H0 H. unfold Rlog2, Rdiv in H.
  pose proof (Rinv_0_lt_compat _ ln_2_pos) as Hi.
  assert (Hl : ln x = 0) by nra.
  apply ln_inv; [exact H0|lra|]. rewrite ln_1. exact Hl.
Qed.

Lemma Rgtb_true (x y : R) : Rgtb x y = true <-> x > y.
Proof. unfold Rgtb. destruct (Rgt_dec x y); split; auto; discriminate. Qed.

(** ** Sums over the ordered map *)

Lemma upd_Rsum {V : Type} (w : string * V -> R) (k : string)
  (f : option V -> V) (m : StdMap.t V) :
  StdMap.ordered m ->
  Rsum (map w (StdMap.upd k f m)) =
    Rsum (map w m) + w (k, f (StdMap.find k m))
    - match StdMap.find k m with Some v => w (k, v) | None => 0 end.
Proof.
  induction m as [|[k0 v0] m IH]; simpl; intros Hs.
  - lra.
  - destruct (String.compare k k0) eqn:Hc; simpl.
    + apply str_compare_eq in Hc. subst k0. rewrite String.eqb_refl. lra.
    + assert (Hk0 : String.eqb k k0 = false).
      { apply String.eqb_neq. apply str_lt_neq. exact Hc. }
      rewrite Hk0.
      rewrite (find_not_key k m); [lra|].
      eapply ordered_head_not_key; [exact Hs|right; exact Hc].
    + assert (Hk0 : String.eqb k k0 = false).
      { apply String.eqb_neq. intros ->. rewrite str_compare_refl in Hc. discriminate. }
      rewrite Hk0.
      assert (Hs' : StdMap.ordered m).
      { unfold StdMap.ordered in *. simpl in Hs. inversion Hs; assumption. }
      rewrite (IH Hs'). lra.
Qed.

Section ExactArithmetic.

Variable self : DecisionTree.

(** The weighted sum of the counts is a sum over the rows. *)
Lemma classCounts_weighted_sum (psi : string -> R) (l : list nat) :
  (Z.of_nat (List.length l) <= INT_MAX)%Z ->
  Rsum (map (fun p => IZR (snd p) * psi (fst p)) (classCounts self l)) =
  Rsum (map (fun idx => psi (classOf self idx)) l).
Proof.
  induction l as [|i l IH] using rev_ind; [reflexivity|].
  rewrite length_app. simpl List.length. intros Hlen.
  rewrite classCounts_snoc, upd_Rsum by apply classCounts_ordered.
  rewrite map_app, Rsum_app, IH by lia. simpl.
  rewrite classCounts_find by lia.
  pose proof (class_count_le self (classOf self i) l) as Hle.
  destruct (class_count self (classOf self i) l) as [|n] eqn:Hn; unfold count_incr.
  - rewrite int_incr_small by (unfold INT_MAX; lia). simpl. lra.
  - rewrite int_incr_small by lia. rewrite plus_IZR. simpl snd. simpl fst. lra.
Qed.

(** The nested sum over the groups is a sum over the rows. *)
Lemma groupBy_nested_sum (col : Z) (chi : string -> nat -> R) (l : list nat) :
  Rsum (map (fun p => Rsum (map (chi (fst p)) (snd p))) (groupBy self col l)) =
  Rsum (map (fun idx => chi (cell self idx col) idx) l).
Proof.
  induction l as [|i l IH] using rev_ind; [reflexivity|].
  rewrite groupBy_snoc, upd_Rsum by apply groupBy_ordered.
  rewrite map_app, Rsum_app, IH. simpl.
  destruct (StdMap.find (cell self i col) (groupBy self col l)) as [g|]; simpl.
  - rewrite map_app, Rsum_app. simpl. lra.
  - lra.
Qed.

(** [calculateEntropy] as a sum *)

Definition entropy_term (total : Z) (pair : string * Z) : R :=
  let prob := IZR (snd pair) / IZR total in
  if Rgtb prob 0 then - (prob * Rlog2 prob) else 0.

Lemma entropy_fold (total : Z) (m : StdMap.t Z) (e : R) :
  fold_left (entropy_step (ops := Exact) total) m e =
    e + Rsum (map (entropy_term total) m).
Proof.
  revert e. induction m as [|p m IH]; intros e; simpl; [lra|].
  rewrite IH. unfold entropy_step, entropy_term. simpl.
  destruct (Rgtb (IZR (snd p) / IZR total) 0); lra.
Qed.

(** The information content of the class of row [idx] within [l]. *)
Definition surprisal (l : list nat) (idx : nat) : R :=
  - Rlog2 (INR (class_count self (classOf self idx) l) / INR (List.length l)).

Lemma entropy_term_entry (l : list nat) (c : string) (k : Z) :
  (Z.of_nat (List.length l) <= INT_MAX)%Z ->
  In (c, k) (classCounts self l) ->
  let p := INR (class_count self c l) / INR (List.length l) in
  0 < p <= 1
  /\ entropy_term (int_of_size (List.length l)) (c, k) = - (p * Rlog2 p).
Proof.
  intros Hlen Hin p. apply classCounts_In in Hin; [|exact Hlen].
  destruct Hin as [-> Hpos].
  pose proof (class_count_le self c l) as Hle.
  assert (Hn : 0 < INR (List.length l)) by (apply lt_0_INR; lia).
  assert (Hc : 0 < INR (class_count self c l)) by (apply lt_0_INR; lia).
  assert (Hcn : INR (class_count self c l) <= INR (List.length l)) by (apply le_INR; lia).
  assert (Hp : 0 < p <= 1).
  { unfold p. split.
    - apply Rdiv_lt_0_compat; assumption.
    - pose proof (Rinv_0_lt_compat _ Hn) as Hi.
      assert (He : INR (List.length l) * / INR (List.length l) = 1) by (field; lra).
      unfold Rdiv. nra. }
  split; [exact Hp|].
  unfold entropy_term. simpl snd. rewrite int_of_size_small by exact Hlen.
  rewrite <- !INR_IZR_INZ. fold p.
  destruct (Rgtb p 0) eqn:Hg; [reflexivity|].
  assert (Hgt : Rgtb p 0 = true) by (apply Rgtb_true; lra).
  congruence.
Qed.

Lemma calculateEntropy_sum (l : list nat) :
  l <> [] ->
  calculateEntropy (ops := Exact) self l =
    Rsum (map (entropy_term (int_of_size (List.length l))) (classCounts self l)).
Proof.
  intros Hne. unfold calculateEntropy. destruct l as [|i l]; [contradiction|].
  cbv zeta. rewrite entropy_fold. simpl of_int. lra.
Qed.

Lemma calculateEntropy_mean (l : list nat) :
  l <> [] -> (Z.of_nat (List.length l) <= INT_MAX)%Z ->
  calculateEntropy (ops := Exact) self l =
    / INR (List.length l) * Rsum (map (surprisal l) l).
Proof.
  intros Hne Hlen. rewrite (calculateEntropy_sum l Hne).
  set (psi := fun c => / INR (List.length l) *
                       - Rlog2 (INR (class_count self c l) / INR (List.length l))).
  transitivity (Rsum (map (fun idx => psi (classOf self idx)) l)).
  - rewrite <- (classCounts_weighted_sum psi l Hlen).
    apply Rsum_map_ext. intros [c k] Hin.
    destruct (entropy_term_entry l c k Hlen Hin) as [_ ->].
    apply classCounts_In in Hin; [|exact Hlen]. destruct Hin as [-> _].
    unfold psi. simpl fst. simpl snd. rewrite <- INR_IZR_INZ. unfold Rdiv. ring.
  - rewrite <- Rsum_map_scal. apply Rsum_map_ext. intros idx _. reflexivity.
Qed.

End ExactArithmetic.

(** ** Filters *)

Lemma filter_all {A : Type} (p : A -> bool) (l : list A) :
  forallb p l = true -> filter p l = l.
Proof.
  induction l as [|x l IH]; simpl; [reflexivity|].
  intros H. apply andb_true_iff in H. destruct H as [Hx Hl].
  rewrite Hx, IH by exact Hl. reflexivity.
Qed.

Lemma filter_length_all {A : Type} (p : A -> bool) (l : list A) :
  List.length (filter p l) = List.length l -> forallb p l = true.
Proof.
  induction l as [|x l IH]; simpl; [reflexivity|].
  pose proof (filter_length_le p l) as Hle.
  destruct (p x); simpl; intros H.
  - apply IH. lia.
  - lia.
Qed.

Lemma filter_twice {A : Type} (p q : A -> bool) (l : list A) :
  filter q (filter p l) = filter (fun x => p x && q x) l.
Proof.
  induction l as [|x l IH]; simpl; [reflexivity|].
  destruct (p x); simpl; [destruct (q x)|]; rewrite IH; reflexivity.
Qed.

(** ** Double counting

    For two labellings [a] and [b] of the elements of [l], the sum over
    [l] of (number of elements with the same [a]) * (number with the
    same [b]) / (number with the same [a] and [b]) is at most the square
    of the length. *)

Section DoubleCounting.

Variables (a b : nat -> string) (l : list nat).

Definition same_a (i j : nat) : bool := String.eqb (a j) (a i).
Definition same_b (i j : nat) : bool := String.eqb (b j) (b i).
Definition same_ab (i j : nat) : bool := same_a i j && same_b i j.

Definition cnt (p : nat -> bool) : R := INR (List.length (filter p l)).

Lemma cnt_sum (p : nat -> bool) :
  cnt p = Rsum (map (fun j => if p j then 1 else 0) l).
Proof. unfold cnt. rewrite Rsum_indicator. reflexivity. Qed.

Lemma cell_sum_le_1 (j k : nat) :
  Rsum (map (fun i => (if same_a i j then 1 else 0) * (if same_b i k then 1 else 0)
                      * / cnt (same_ab i)) l) <= 1.
Proof.
  set (cond := fun i => String.eqb (a i) (a j) && String.eqb (b i) (b k)).
  set (M := cnt cond).
  assert (Hterm : forall i, In i l ->
            (if same_a i j then 1 else 0) * (if same_b i k then 1 else 0) * / cnt (same_ab i)
            = / M * (if cond i then 1 else 0)).
  { intros i _. unfold same_a, same_b, cond.
    rewrite (String.eqb_sym (a j) (a i)), (String.eqb_sym (b k) (b i)).
    destruct (String.eqb (a i) (a j)) eqn:Ha; simpl; [|lra].
    destruct (String.eqb (b i) (b k)) eqn:Hb; simpl; [|lra].
    apply String.eqb_eq in Ha. apply String.eqb_eq in Hb.
    assert (HM : cnt (same_ab i) = M).
    { unfold M, cnt. f_equal. f_equal. apply filter_ext. intros x.
      unfold same_ab, same_a, same_b, cond. rewrite Ha, Hb. reflexivity. }
    rewrite HM. lra. }
  rewrite (Rsum_map_ext _ _ l Hterm), Rsum_map_scal, <- cnt_sum. fold M.
  assert (HM0 : 0 <= M) by (unfold M, cnt; apply pos_INR).
  destruct (Req_dec M 0) as [-> | Hne].
  - lra.
  - rewrite Rinv_l by exact Hne. lra.
Qed.

Lemma double_count :
  Rsum (map (fun i => cnt (same_a i) * cnt (same_b i) / cnt (same_ab i)) l)
  <= INR (List.length l) * INR (List.length l).
Proof.
  assert (Hexp : forall i, In i l ->
            cnt (same_a i) * cnt (same_b i) / cnt (same_ab i) =
            Rsum (map (fun j => Rsum (map (fun k =>
              (if same_a i j then 1 else 0) * (if same_b i k then 1 else 0)
              * / cnt (same_ab i)) l)) l)).
  { intros i _. rewrite (cnt_sum (same_a i)), (cnt_sum (same_b i)).
    unfold Rdiv.
    rewrite (Rsum_map_ext
               (fun j => Rsum (map (fun k =>
                  (if same_a i j then 1 else 0) * (if same_b i k then 1 else 0)
                  * / cnt (same_ab i)) l))
               (fun j => (Rsum (map (fun k => if same_b i k then 1 else 0) l)
                          * / cnt (same_ab i)) * (if same_a i j then 1 else 0))).
    - rewrite Rsum_map_scal. ring.
    - intros j _.
      rewrite (Rsum_map_ext
                 (fun k => (if same_a i j then 1 else 0) * (if same_b i k then 1 else 0)
                           * / cnt (same_ab i))
                 (fun k => ((if same_a i j then 1 else 0) * / cnt (same_ab i))
                           * (if same_b i k then 1 else 0))).
      + rewrite Rsum_map_scal. ring.
      + intros k _. ring. }
  rewrite (Rsum_map_ext _ _ l Hexp).
  rewrite (Rsum_map_swap
             (fun i j => Rsum (map (fun k =>
                (if same_a i j then 1 else 0) * (if same_b i k then 1 else 0)
                * / cnt (same_ab i)) l)) l l).
  rewrite (Rsum_map_ext
             (fun j => Rsum (map (fun i => Rsum (map (fun k =>
                (if same_a i j then 1 else 0) * (if same_b i k then 1 else 0)
                * / cnt (same_ab i)) l)) l))
             (fun j => Rsum (map (fun k => Rsum (map (fun i =>
                (if same_a i j then 1 else 0) * (if same_b i k then 1 else 0)
                * / cnt (same_ab i)) l)) l))).
  2:{ intros j _.
      apply (Rsum_map_swap
               (fun i k => (if same_a i j then 1 else 0) * (if same_b i k then 1 else 0)
                           * / cnt (same_ab i)) l l). }
  apply Rle_trans with (Rsum (map (fun _ : nat => INR (List.length l) * 1) l)).
  - apply Rsum_map_le. intros j _.
    rewrite <- Rsum_map_const.
    apply Rsum_map_le. intros k _. apply cell_sum_le_1.
  - rewrite Rsum_map_const. lra.
Qed.

End DoubleCounting.

Section ExactEntropy.

Variable self : DecisionTree.

Lemma plogp_nonneg (p : R) : 0 < p <= 1 -> 0 <= - (p * Rlog2 p).
Proof. intros [H0 H1]. pose proof (Rlog2_le_0 p H0 H1). nra. Qed.

Lemma calculateEntropy_exact_nonneg (l : list nat) :
  (Z.of_nat (List.length l) <= INT_MAX)%Z ->
  0 <= calculateEntropy (ops := Exact) self l.
Proof.
  intros Hlen. destruct l as [|i l]; [simpl; lra|].
  rewrite calculateEntropy_sum by discriminate.
  apply Rsum_map_nonneg. intros [c k] Hin.
  destruct (entropy_term_entry self (i :: l) c k Hlen Hin) as [Hp ->].
  apply plogp_nonneg. exact Hp.
Qed.

Lemma class_count_all (l : list nat) (c : string) :
  (forall idx, In idx l -> classOf self idx = c) ->
  class_count self c l = List.length l.
Proof.
  intros H. unfold class_count, of_class. rewrite filter_all; [reflexivity|].
  apply forallb_forall. intros idx Hin. apply String.eqb_eq. apply H. exact Hin.
Qed.

Lemma calculateEntropy_exact_zero (l : list nat) :
  (Z.of_nat (List.length l) <= INT_MAX)%Z ->
  calculateEntropy (ops := Exact) self l = 0 <-> allSameClass self l = true.
Proof.
  intros Hlen. destruct l as [|i l]; [simpl; tauto|].
  rewrite calculateEntropy_sum by discriminate. split.
  - intros Hsum.
    assert (Hnn : forall p, In p (classCounts self (i :: l)) ->
                            0 <= entropy_term (int_of_size (List.length (i :: l))) p).
    { intros [c k] Hin.
      destruct (entropy_term_entry self (i :: l) c k Hlen Hin) as [Hp ->].
      apply plogp_nonneg. exact Hp. }
    assert (Hpos : (0 < class_count self (classOf self i) (i :: l))%nat).
    { apply class_count_pos. exists i. split; [left|]; reflexivity. }
    assert (Hin : In (classOf self i, Z.of_nat (class_count self (classOf self i) (i :: l)))
                    (classCounts self (i :: l))).
    { apply classCounts_In; auto. }
    pose proof (Rsum_map_zero _ _ Hnn Hsum _ Hin) as Hz.
    destruct (entropy_term_entry self (i :: l) _ _ Hlen Hin) as [Hp He].
    rewrite He in Hz.
    set (p := INR (class_count self (classOf self i) (i :: l)) / INR (List.length (i :: l))) in *.
    assert (Hlog : Rlog2 p = 0) by nra.
    apply Rlog2_eq_0 in Hlog; [|lra].
    assert (Hn : 0 < INR (List.length (i :: l))) by (apply lt_0_INR; simpl; lia).
    assert (Heq : INR (class_count self (classOf self i) (i :: l)) = INR (List.length (i :: l))).
    { unfold p, Rdiv in Hlog.
      apply (Rmult_eq_compat_r (INR (List.length (i :: l)))) in Hlog.
      rewrite Rmult_assoc, Rinv_l, Rmult_1_r, Rmult_1_l in Hlog by lra. exact Hlog. }
    apply INR_eq in Heq. unfold class_count, of_class in Heq.
    apply filter_length_all in Heq. exact Heq.
  - intros Hsame.
    rewrite (Rsum_map_ext _ (fun _ => 0)).
    + rewrite Rsum_map_const. lra.
    + intros [c k] Hin.
      destruct (entropy_term_entry self (i :: l) c k Hlen Hin) as [Hp ->].
      apply classCounts_In in Hin; [|exact Hlen]. destruct Hin as [_ Hpos].
      apply class_count_pos in Hpos. destruct Hpos as (idx & Hidx & Hc).
      rewrite (class_count_all (i :: l) c).
      * assert (Hn : 0 < INR (List.length (i :: l))) by (apply lt_0_INR; simpl; lia).
        unfold Rdiv. rewrite Rinv_r by lra. rewrite Rlog2_1. lra.
      * intros j Hj. rewrite <- Hc.
        apply (proj1 (allSameClass_true self (i :: l)) Hsame); assumption.
Qed.

(** [calculateInformationGain] as a sum *)

Definition weighted_term (total : Z) (group : string * list nat) : R :=
  IZR (Z.of_nat (List.length (snd group))) / IZR total
  * calculateEntropy (ops := Exact) self (snd group).

Lemma weighted_fold (total : Z) (m : StdMap.t (list nat)) (w : R) :
  fold_left (weighted_step (ops := Exact) self total) m w =
    w + Rsum (map (weighted_term total) m).
Proof.
  revert w. induction m as [|g m IH]; intros w; simpl; [lra|].
  rewrite IH. unfold weighted_step, weighted_term. simpl. lra.
Qed.

Lemma with_value_length_le (col : Z) (v : string) (l : list nat) :
  (List.length (with_value self col v l) <= List.length l)%nat.
Proof. unfold with_value. apply filter_length_le. Qed.

(** The gain is the mean, over the rows, of the surprisal of the row's
    class in the subset minus its surprisal in the row's group. *)
Lemma calculateInformationGain_mean (l : list nat) (f : string) :
  l <> [] -> (Z.of_nat (List.length l) <= INT_MAX)%Z ->
  calculateInformationGain (ops := Exact) self l f =
    Rsum (map (fun idx =>
                 / INR (List.length l) *
                 (surprisal self l idx
                  - surprisal self
                      (with_value self (getColumnIndex self f)
                         (cell self idx (getColumnIndex self f)) l) idx)) l).
Proof.
  intros Hne Hlen. unfold calculateInformationGain. cbv zeta.
  set (col := getColumnIndex self f).
  rewrite weighted_fold. simpl of_int. simpl dsub.
  rewrite (calculateEntropy_mean self l Hne Hlen).
  assert (Hn : 0 < INR (List.length l)).
  { apply lt_0_INR. destruct l; [contradiction|simpl; lia]. }
  set (chi := fun (v : string) (idx : nat) =>
                / INR (List.length l) * surprisal self (with_value self col v l) idx).
  rewrite (Rsum_map_ext (weighted_term (int_of_size (List.length l)))
             (fun p => Rsum (map (chi (fst p)) (snd p)))).
  - rewrite groupBy_nested_sum.
    rewrite <- Rsum_map_scal.
    assert (Hneg : Rsum (map (fun idx => -1 * chi (cell self idx col) idx) l)
                   = -1 * Rsum (map (fun idx => chi (cell self idx col) idx) l))
      by apply Rsum_map_scal.
    replace (Rsum (map (fun x => / INR (List.length l) * surprisal self l x) l)
             - (0 + Rsum (map (fun idx => chi (cell self idx col) idx) l)))
      with (Rsum (map (fun x => / INR (List.length l) * surprisal self l x) l)
            + Rsum (map (fun idx => -1 * chi (cell self idx col) idx) l))
      by (rewrite Hneg; ring).
    rewrite <- Rsum_map_plus. apply Rsum_map_ext. intros idx _. unfold chi. ring.
  - intros [v g] Hin. apply groupBy_In in Hin. destruct Hin as [Hg Hgne].
    unfold weighted_term. simpl fst. simpl snd.
    pose proof (with_value_length_le col v l) as Hle. rewrite <- Hg in Hle.
    rewrite int_of_size_small by exact Hlen.
    rewrite (calculateEntropy_mean self g Hgne) by lia.
    rewrite <- !INR_IZR_INZ.
    assert (Hgn : 0 < INR (List.length g)).
    { apply lt_0_INR. destruct g; [contradiction|simpl; lia]. }
    unfold chi. rewrite Rsum_map_scal. rewrite <- Hg. field. lra.
Qed.

Lemma calculateInformationGain_exact_nonneg (l : list nat) (f : string) :
  (Z.of_nat (List.length l) <= INT_MAX)%Z ->
  0 <= calculateInformationGain (ops := Exact) self l f.
Proof.
  intros Hlen. destruct l as [|i0 l0] eqn:El.
  { unfold calculateInformationGain. simpl. lra. }
  rewrite <- El in *. assert (Hne : l <> []) by (rewrite El; discriminate).
  clear El i0 l0.
  rewrite (calculateInformationGain_mean l f Hne Hlen).
  set (col := getColumnIndex self f).
  set (a := fun idx => cell self idx col).
  set (b := classOf self).
  set (n := INR (List.length l)).
  assert (Hn : 0 < n).
  { apply lt_0_INR. destruct l; [contradiction|simpl; lia]. }
  pose proof ln_2_pos as Hln2.
  (* lower bound of each term *)
  apply Rle_trans with
    (Rsum (map (fun idx =>
                  / n * / ln 2 *
                  (1 - / n * (cnt l (same_a a idx) * cnt l (same_b b idx)
                              / cnt l (same_ab a b idx)))) l)).
  - rewrite (Rsum_map_ext _
               (fun idx => / n * / ln 2 * 1
                           + (- (/ n * / ln 2 * / n))
                             * (cnt l (same_a a idx) * cnt l (same_b b idx)
                                / cnt l (same_ab a b idx)))) by (intros; ring).
    rewrite Rsum_map_plus, Rsum_map_const, Rsum_map_scal. fold n.
    pose proof (double_count a b l) as Hd. fold n in Hd.
    set (S := Rsum (map (fun i => cnt l (same_a a i) * cnt l (same_b b i)
                                  / cnt l (same_ab a b i)) l)) in *.
    assert (Hinv : 0 < / n) by (apply Rinv_0_lt_compat; lra).
    assert (Hinv2 : 0 < / ln 2) by (apply Rinv_0_lt_compat; lra).
    assert (H1 : n * / n = 1) by (field; lra).
    assert (Hq : 0 < / n * / ln 2 * / n) by (repeat apply Rmult_lt_0_compat; lra).
    replace (n * (/ n * / ln 2 * 1) + - (/ n * / ln 2 * / n) * S)
      with ((/ n * / ln 2 * / n) * (n * n - S)) by (field; lra).
    apply Rmult_le_pos; lra.
  - apply Rsum_map_le. intros idx Hidx.
    (* the counts at [idx] *)
    assert (Hc : (0 < class_count self (b idx) l)%nat).
    { apply class_count_pos. exists idx. split; [exact Hidx|reflexivity]. }
    set (g := with_value self col (a idx) l).
    assert (Hig : In idx g).
    { unfold g, with_value. apply filter_In. split; [exact Hidx|].
      apply String.eqb_refl. }
    assert (Hg : (0 < List.length g)%nat).
    { destruct g; [destruct Hig|simpl; lia]. }
    assert (Hgc : (0 < class_count self (b idx) g)%nat).
    { apply class_count_pos. exists idx. split; [exact Hig|reflexivity]. }
    assert (EA : cnt l (same_a a idx) = INR (List.length g)) by reflexivity.
    assert (EB : cnt l (same_b b idx) = INR (class_count self (b idx) l)) by reflexivity.
    assert (EAB : cnt l (same_ab a b idx) = INR (class_count self (b idx) g)).
    { unfold cnt, class_count, of_class, g, with_value.
      rewrite filter_twice. reflexivity. }
    rewrite EA, EB, EAB.
    unfold surprisal. fold g. fold n. fold (b idx).
    set (Nc := INR (class_count self (b idx) l)).
    set (Ng := INR (List.length g)).
    set (Ngc := INR (class_count self (b idx) g)).
    assert (HNc : 0 < Nc) by (apply lt_0_INR; exact Hc).
    assert (HNg : 0 < Ng) by (apply lt_0_INR; exact Hg).
    assert (HNgc : 0 < Ngc) by (apply lt_0_INR; exact Hgc).
    unfold Rlog2.
    assert (Hx : 0 < (Ngc / Ng) * / (Nc / n)).
    { apply Rmult_lt_0_compat.
      - apply Rdiv_lt_0_compat; assumption.
      - apply Rinv_0_lt_compat. apply Rdiv_lt_0_compat; assumption. }
    pose proof (ln_ge_1_sub_inv _ Hx) as Hln.
    rewrite ln_mult in Hln;
      [|apply Rdiv_lt_0_compat; assumption
       |apply Rinv_0_lt_compat; apply Rdiv_lt_0_compat; assumption].
    rewrite ln_Rinv in Hln by (apply Rdiv_lt_0_compat; assumption).
    replace (/ (Ngc / Ng * / (Nc / n))) with (/ n * (Ng * Nc / Ngc)) in Hln
      by (field; repeat split; lra).
    assert (Hinv : 0 < / n) by (apply Rinv_0_lt_compat; lra).
    assert (Hinv2 : 0 < / ln 2) by (apply Rinv_0_lt_compat; lra).
    apply Rle_trans with (/ n * / ln 2 * (ln (Ngc / Ng) + - ln (Nc / n))).
    + apply Rmult_le_compat_l; [apply Rlt_le; apply Rmult_lt_0_compat; lra|].
      exact Hln.
    + apply Req_le.
      change (INR (class_count self (b idx) (with_value self col (cell self idx col) l))
              / INR (List.length (with_value self col (cell self idx col) l)))
        with (Ngc / Ng).
      generalize (ln (Ngc / Ng)) (ln (Nc / n)). intros x y.
      clearbody n. field. lra.
Qed.

End ExactEntropy.

Local Close Scope R_scope.

(** ** Feature selection in exact arithmetic *)

Section ExactSelection.

Variable self : DecisionTree.
Variables (indices : list nat) (used : list string).

Let gainR (h : string) : R := calculateInformationGain (ops := Exact) self indices h.

Lemma best_step_exact_fold (hs : list string) (best : string * R) :
  let r := fold_left (best_step (ops := Exact) self indices used) hs best in
  (snd best <= snd r)%R
  /\ (forall h, In h hs -> eligible self used h = true -> (gainR h <= snd r)%R)
  /\ (r = best
      \/ exists pre post,
          hs = (pre ++ fst r :: post)%list
          /\ eligible self used (fst r) = true
          /\ snd r = gainR (fst r)
          /\ (snd best < snd r)%R
          /\ forall h, In h pre -> eligible self used h = true -> (gainR h < snd r)%R).
Proof.
  revert best. induction hs as [|h hs IH]; intros best; simpl.
  - split; [lra|]. split; [intros h []|]. left. reflexivity.
  - set (b1 := best_step (ops := Exact) self indices used best h).
    assert (Hb1 : (b1 = best /\ (eligible self used h = true -> (gainR h <= snd best)%R))
                  \/ (b1 = (h, gainR h) /\ eligible self used h = true
                      /\ (snd best < gainR h)%R)).
    { unfold b1, best_step. destruct (eligible self used h) eqn:He.
      - cbv zeta. fold (gainR h). simpl dgt.
        destruct (Rgtb (gainR h) (snd best)) eqn:Hg.
        + right. apply Rgtb_true in Hg. repeat split; auto.
        + left. split; [reflexivity|]. intros _.
          destruct (Rle_or_lt (gainR h) (snd best)) as [Hle | Hlt]; [exact Hle|].
          assert (Ht : Rgtb (gainR h) (snd best) = true) by (apply Rgtb_true; lra).
          congruence.
      - left. split; [reflexivity|discriminate]. }
    destruct (IH b1) as (H1 & H2 & H3). clearbody b1.
    destruct Hb1 as [[-> Hh] | (-> & He & Hgt)]; simpl in *.
    + split; [exact H1|]. split.
      * intros h' Hin He'. destruct Hin as [<- | Hin]; [specialize (Hh He'); lra|auto].
      * destruct H3 as [Hr | (pre & post & Ehs & Er & Eg & Hlt & Hpre)]; [left; exact Hr|].
        right. exists (h :: pre), post.
        split; [rewrite Ehs at 1; reflexivity|].
        split; [exact Er|]. split; [exact Eg|]. split; [exact Hlt|].
        intros h' Hin He'. destruct Hin as [<- | Hin]; [specialize (Hh He'); lra|auto].
    + split; [lra|]. split.
      * intros h' Hin He'. destruct Hin as [<- | Hin]; [lra|auto].
      * right.
        destruct H3 as [Hr | (pre & post & Ehs & Er & Eg & Hlt & Hpre)].
        -- exists [], hs. rewrite Hr. simpl.
           split; [reflexivity|]. split; [exact He|]. split; [reflexivity|].
           split; [exact Hgt|]. intros h' [].
        -- exists (h :: pre), post.
           split; [rewrite Ehs at 1; reflexivity|].
           split; [exact Er|]. split; [exact Eg|]. split; [lra|].
           intros h' Hin He'. destruct Hin as [<- | Hin]; [lra|auto].
Qed.

(** When a header column is eligible, [findBestFeature] returns an
    eligible column of maximal gain, and every eligible column before it
    in header order has a strictly smaller gain. *)
Lemma findBestFeature_exact_first_max :
  (Z.of_nat (List.length indices) <= INT_MAX)%Z ->
  (exists h, In h (headers self) /\ eligible self used h = true) ->
  let f := findBestFeature (ops := Exact) self indices used in
  exists pre post,
    headers self = (pre ++ f :: post)%list
    /\ eligible self used f = true
    /\ (forall h, In h (headers self) -> eligible self used h = true ->
                  (gainR h <= gainR f)%R)
    /\ (forall h, In h pre -> eligible self used h = true -> (gainR h < gainR f)%R).
Proof.
  intros Hlen (h0 & Hin0 & He0). unfold findBestFeature.
  destruct (best_step_exact_fold (headers self) ("", IZR (-1)))
    as (_ & H2 & H3).
  change (@of_int R Exact (-1)) with (IZR (-1)).
  set (r := fold_left (best_step (ops := Exact) self indices used) (headers self)
              ("", IZR (-1))) in *.
  destruct H3 as [Hr | (pre & post & Ehs & Er & Eg & _ & Hpre)].
  - exfalso. specialize (H2 h0 Hin0 He0). rewrite Hr in H2. simpl in H2.
    pose proof (calculateInformationGain_exact_nonneg self indices h0 Hlen) as Hnn.
    fold (gainR h0) in Hnn. lra.
  - exists pre, post. rewrite <- Eg.
    split; [exact Ehs|]. split; [exact Er|]. split; [exact H2|exact Hpre].
Qed.

End ExactSelection.

(** ** Training and predicting the training rows *)

Lemma predict_set_value (v : string) (n : TreeNode) (instance : StdMap.t string) :
  predict (set_value v n) instance = predict n instance.
Proof. rewrite !predict_unfold. reflexivity. Qed.

Lemma str_empty_true (s : string) : str_empty s = true <-> s = "".
Proof. destruct s; simpl; split; congruence. Qed.

Section RoundTrip.

Context {D : Type} {ops : DoubleOps D}.
Variable self : DecisionTree.

Lemma featureColumns_In (h : string) :
  In h (featureColumns self) <->
  In h (headers self) /\ String.eqb h (targetColumn self) = false.
Proof.
  unfold featureColumns. rewrite filter_In, negb_true_iff. reflexivity.
Qed.

Lemma instance_of_row_find (idx : nat) (h : string) :
  In h (featureColumns self) ->
  StdMap.find h (instance_of_row self idx) =
    Some (cell self idx (getColumnIndex self h)).
Proof.
  unfold instance_of_row. induction (featureColumns self) as [|h0 l IH]; simpl.
  - intros [].
  - intros Hin. destruct (String.eqb h h0) eqn:He.
    + apply String.eqb_eq in He. subst h0. reflexivity.
    + destruct Hin as [-> | Hin]; [rewrite String.eqb_refl in He; discriminate|].
      apply IH. exact Hin.
Qed.

(** [findBestFeature] selects a feature whenever one is eligible. *)
Definition selects : Prop :=
  forall indices used,
    (List.length indices <= List.length (data self))%nat ->
    (exists h, In h (headers self) /\ eligible self used h = true) ->
    str_empty (findBestFeature self indices used) = false.

(** The same for one feature, on the subsets [buildTree] splits: rows
    of the table, not all of one class. *)
Definition selects_feature (f : string) : Prop :=
  forall indices used,
    (forall i, In i indices -> (i < List.length (data self))%nat) ->
    (List.length indices <= List.length (data self))%nat ->
    allSameClass self indices = false ->
    eligible self used f = true ->
    str_empty (findBestFeature self indices used) = false.

Lemma selects_selects_feature (f : string) :
  In f (headers self) -> selects -> selects_feature f.
Proof.
  intros Hin Hs indices used _ Hlen _ He. apply Hs; [exact Hlen|].
  exists f. split; [exact Hin|exact He].
Qed.

Variable f : string.
Hypothesis Hselects : selects_feature f.
Hypothesis Hfeature : In f (featureColumns self).
Hypothesis Hdetermines : determines self f.

Lemma buildTree_predicts_rows (indices : list nat) (used : list string) :
  (forall i, In i indices -> (i < List.length (data self))%nat) ->
  (List.length indices <= List.length (data self))%nat ->
  (set_mem f used = false
   \/ forall i j, In i indices -> In j indices ->
                  cell self i (getColumnIndex self f) = cell self j (getColumnIndex self f)) ->
  forall i, In i indices ->
            predict (buildTree self indices used) (instance_of_row self i) = classOf self i.
Proof.
  apply (buildTree_cases self
           (fun indices used t =>
              (forall i, In i indices -> (i < List.length (data self))%nat) ->
              (List.length indices <= List.length (data self))%nat ->
              (set_mem f used = false
               \/ forall i j, In i indices -> In j indices ->
                              cell self i (getColumnIndex self f)
                              = cell self j (getColumnIndex self f)) ->
              forall i, In i indices ->
                        predict t (instance_of_row self i) = classOf self i)).
  - intros u _ _ _ i [].
  - intros first rest u Hsame _ _ _ i Hi. rewrite predict_unfold. simpl.
    symmetry. apply (proj1 (allSameClass_true self (first :: rest)) Hsame).
    + exact Hi.
    + left. reflexivity.
  - intros idx u Hne Hsame Hnone Hrange Hlen Hinv i Hi. exfalso.
    destruct Hinv as [Hfresh | Hagree].
    + assert (He : eligible self u f = true).
      { unfold eligible. apply featureColumns_In in Hfeature.
        destruct Hfeature as [_ Ht]. rewrite Ht, Hfresh. reflexivity. }
      rewrite (Hselects idx u Hrange Hlen Hsame He) in Hnone. discriminate.
    + assert (Hall : allSameClass self idx = true).
      { apply allSameClass_true. intros a b Ha Hb.
        apply Hdetermines; auto. }
      congruence.
  - intros idx u g Hne Hsame Hg Hfound Hin He IH Hrange Hlen Hinv i Hi.
    set (col := getColumnIndex self g).
    set (v := cell self i col).
    assert (Hgf : In g (featureColumns self)).
    { apply featureColumns_In. split; [exact Hin|].
      unfold eligible in He. apply andb_true_iff in He. destruct He as [He _].
      apply negb_true_iff in He. exact He. }
    set (child := set_value v (buildTree self (with_value self col v idx) (set_insert g u))).
    assert (Hchild : In child (built_children self idx u g)).
    { rewrite built_children_by_value. fold col.
      apply (in_map (fun v0 => set_value v0
                                 (buildTree self (with_value self col v0 idx) (set_insert g u)))).
      apply groupBy_keys. exists i. split; [exact Hi|reflexivity]. }
    assert (Hnd : NoDup (map value (children (decision_node g (built_children self idx u g))))).
    { simpl. rewrite built_children_values. apply ordered_keys_NoDup. apply groupBy_ordered. }
    rewrite (predict_descend (decision_node g (built_children self idx u g))
               (instance_of_row self i) v child []).
    + unfold child. rewrite predict_set_value. apply IH.
      * intros j Hj. apply Hrange. unfold with_value in Hj.
        apply filter_In in Hj. tauto.
      * pose proof (filter_length_le (fun x => String.eqb (cell self x col) v) idx) as Hle.
        unfold with_value. lia.
      * destruct (String.eqb f g) eqn:Hfg.
        -- apply String.eqb_eq in Hfg. right.
           intros a b Ha Hb. unfold with_value in Ha, Hb.
           apply filter_In in Ha. apply filter_In in Hb.
           destruct Ha as [_ Ha]. destruct Hb as [_ Hb].
           apply String.eqb_eq in Ha. apply String.eqb_eq in Hb.
           rewrite Hfg. fold col. rewrite Ha, Hb. reflexivity.
        -- destruct Hinv as [Hfresh | Hagree].
           ++ left. rewrite set_mem_insert, Hfg, Hfresh. reflexivity.
           ++ right. intros a b Ha Hb. unfold with_value in Ha, Hb.
              apply filter_In in Ha. apply filter_In in Hb.
              apply Hagree; tauto.
      * unfold with_value. apply filter_In. split; [exact Hi|]. apply String.eqb_refl.
    + reflexivity.
    + simpl. apply instance_of_row_find. exact Hgf.
    + apply matching_unique; [exact Hnd|exact Hchild|reflexivity].
Qed.

(** Training on a dataset in which feature [f] determines the class
    gives a tree that classifies every training row, reproduced as an
    instance, as the row's own class. *)
Lemma train_predicts_rows :
  data self <> [] ->
  getColumnIndex self (targetColumn self) <> (-1)%Z ->
  exists tree,
    train self = Some tree
    /\ forall i, (i < List.length (data self))%nat ->
                 predictInstance (root tree) (instance_of_row self i) = classOf self i.
Proof.
  intros Hdata Htarget. unfold train.
  apply Z.eqb_neq in Htarget. rewrite Htarget.
  destruct (data self) as [|row rows] eqn:Ed; [contradiction|].
  rewrite <- Ed.
  exists (mkDecisionTree (data self) (headers self) (targetColumn self)
            (Some (buildTree self (seq 0 (List.length (data self))) []))).
  split; [reflexivity|].
  intros i Hi. cbn [root predictInstance].
  apply buildTree_predicts_rows.
  - intros j Hj. apply in_seq in Hj. lia.
  - rewrite length_seq. lia.
  - left. reflexivity.
  - apply in_seq. lia.
Qed.

End RoundTrip.

(** In exact arithmetic a feature is selected whenever one is eligible,
    provided no column is named by the empty string. *)
Lemma selects_exact (self : DecisionTree) :
  (Z.of_nat (List.length (data self)) <= INT_MAX)%Z ->
  ~ In "" (headers self) ->
  selects (ops := Exact) self.
Proof.
  intros Hlen Hnames indices used Hle Hex.
  destruct (findBestFeature_exact_first_max self indices used) as (pre & post & Eh & _);
    [lia|exact Hex|].
  destruct (str_empty (findBestFeature (ops := Exact) self indices used)) eqn:Hs;
    [|reflexivity].
  apply str_empty_true in Hs. exfalso. apply Hnames.
  rewrite Eh, Hs. apply in_or_app. right. left. reflexivity.
Qed.

Lemma train_roundtrip_exact (self : DecisionTree) (f : string) :
  (Z.of_nat (List.length (data self)) <= INT_MAX)%Z ->
  ~ In "" (headers self) ->
  data self <> [] ->
  getColumnIndex self (targetColumn self) <> (-1)%Z ->
  In f (featureColumns self) ->
  determines self f ->
  exists tree,
    train (ops := Exact) self = Some tree
    /\ forall i, (i < List.length (data self))%nat ->
                 predictInstance (root tree) (instance_of_row self i) = classOf self i.
Proof.
  intros Hlen Hnames Hdata Htarget Hf Hdet.
  assert (Hin : In f (headers self)) by (apply featureColumns_In in Hf; tauto).
  apply (train_predicts_rows self f
           (selects_selects_feature self f Hin (selects_exact self Hlen Hnames))
           Hf Hdet Hdata Htarget).
Qed.

(** ** Example datasets *)

(** Two rows, one feature whose values appear in descending order. *)
Definition two_rows : DecisionTree :=
  mkDecisionTree [["b"; "yes"]; ["a"; "no"]] ["f"; "y"] "y" None.

Definition two_rows_tree : TreeNode := buildTree (ops := B64) two_rows [0; 1] [].

(** Two rows of different classes and no feature column. *)
Definition tie_rows : DecisionTree :=
  mkDecisionTree [["b"]; ["a"]] ["y"] "y" None.

(** A header row whose first cell is empty (the line [,y]). *)
Definition unnamed_column : DecisionTree :=
  mkDecisionTree [["0"; "yes"]; ["1"; "no"]] [""; "y"] "y" None.

Example loadCSV_unnamed_column :
  loadCSV [",y"; "0,yes"; "1,no"] "y" = unnamed_column.
Proof. reflexivity. Qed.

Example loadCSV_two_rows :
  loadCSV ["f, y"; "b,yes"; " a ,no"] "y" = two_rows.
Proof. reflexivity. Qed.

(** Nine groups of two rows, one of class A and one of class B. *)
Definition nine_pairs : DecisionTree :=
  mkDecisionTree
    [["g1"; "A"]; ["g1"; "B"]; ["g2"; "A"]; ["g2"; "B"]; ["g3"; "A"]; ["g3"; "B"];
     ["g4"; "A"]; ["g4"; "B"]; ["g5"; "A"]; ["g5"; "B"]; ["g6"; "A"]; ["g6"; "B"];
     ["g7"; "A"]; ["g7"; "B"]; ["g8"; "A"]; ["g8"; "B"]; ["g9"; "A"]; ["g9"; "B"]]
    ["f"; "y"] "y" None.

(** The tree built from [two_rows] in binary64 is the same for every
    [log2] that is exact at [0.5] and [1.0]. *)
Lemma two_rows_gain_binary64 (log2 : float -> float) :
  log2 0.5%float = (-1)%float -> log2 1%float = 0%float ->
  calculateInformationGain (ops := Binary64 log2) two_rows [0; 1] "f" = 1%float.
Proof.
  intros H05 H1. vm_compute. rewrite ?H05, ?H1. vm_compute. rewrite ?H05, ?H1. vm_compute. reflexivity.
Qed.

Lemma two_rows_tree_binary64 (log2 : float -> float) :
  log2 0.5%float = (-1)%float -> log2 1%float = 0%float ->
  buildTree (ops := Binary64 log2) two_rows [0; 1] [] = two_rows_tree.
Proof.
  intros H05 H1.
  assert (Hbest : findBestFeature (ops := Binary64 log2) two_rows [0; 1] [] = "f").
  { unfold findBestFeature. change (headers two_rows) with ["f"; "y"].
    cbn [fold_left]. unfold best_step.
    change (eligible two_rows [] "f") with true.
    change (eligible two_rows [] "y") with false.
    cbv iota zeta. rewrite (two_rows_gain_binary64 log2 H05 H1). reflexivity. }
  rewrite buildTree_body.
  change (allSameClass two_rows [0; 1]) with false. cbv iota zeta.
  rewrite Hbest. cbn [str_empty].
  change (groupBy two_rows (getColumnIndex two_rows "f") [0; 1]) with [("a", [1]); ("b", [0])].
  cbn [map fst snd].
  rewrite !buildTree_body. reflexivity.
Qed.

(** The tree built from [tie_rows] is the same in every arithmetic: no
    column is eligible. *)
Lemma tie_rows_tree {D : Type} {ops : DoubleOps D} :
  buildTree tie_rows [0; 1] [] = leaf_node "a".
Proof.
  rewrite buildTree_body.
  change (allSameClass tie_rows [0; 1]) with false. cbv iota zeta.
  rewrite findBestFeature_none; [reflexivity|].
  intros h [<- | []]. reflexivity.
Qed.

(** * Binary64 arithmetic from its specification

    What the next part proves of the [double] values the program
    computes rests on the specification of the primitive floats
    ([FloatAxioms]): every operation is the rounding, to nearest with
    ties to even, that [SpecFloat] defines on mantissa and exponent. *)

Section Binary64Spec.

Local Open Scope Z_scope.

Lemma fexp_eq (e : Z) : fexp prec emax e = Z.max (e - 53) (-1074).
Proof. reflexivity. Qed.

(** ** Digits *)

Lemma digits2_pos_bounds (p : positive) :
  2 ^ (Zpos (digits2_pos p) - 1) <= Zpos p < 2 ^ Zpos (digits2_pos p).
Proof.
  induction p as [p IH|p IH|]; cbn [digits2_pos].
  - rewrite Pos2Z.inj_succ.
    replace (Z.succ (Zpos (digits2_pos p)) - 1) with (Z.succ (Zpos (digits2_pos p) - 1)) by lia.
    rewrite !Z.pow_succ_r by lia. lia.
  - rewrite Pos2Z.inj_succ.
    replace (Z.succ (Zpos (digits2_pos p)) - 1) with (Z.succ (Zpos (digits2_pos p) - 1)) by lia.
    rewrite !Z.pow_succ_r by lia. lia.
  - simpl. lia.
Qed.

Lemma digits2_pos_unique (p : positive) (n : Z) :
  2 ^ (n - 1) <= Zpos p < 2 ^ n -> Zpos (digits2_pos p) = n.
Proof.
  intros [Hlo Hhi]. pose proof (digits2_pos_bounds p) as [Dlo Dhi].
  assert (Hn : 0 < n).
  { destruct (Z.lt_ge_cases 0 n) as [H|H]; [exact H|]. exfalso.
    destruct (Z.eq_dec n 0) as [->|Hne]; [simpl in Hhi; lia|].
    rewrite (Z.pow_neg_r 2 n) in Hhi by lia. lia. }
  assert (H1 : Zpos (digits2_pos p) - 1 < n).
  { apply (Z.pow_lt_mono_r_iff 2); lia. }
  assert (H2 : n - 1 < Zpos (digits2_pos p)).
  { apply (Z.pow_lt_mono_r_iff 2); lia. }
  lia.
Qed.

Lemma Zdigits2_unique (m n : Z) :
  2 ^ (n - 1) <= m < 2 ^ n -> 0 < n -> Zdigits2 m = n.
Proof.
  intros H Hn. destruct m as [|p|p].
  - exfalso. assert (0 < 2 ^ (n - 1)) by (apply Z.pow_pos_nonneg; lia). lia.
  - apply digits2_pos_unique. exact H.
  - exfalso. assert (0 < 2 ^ (n - 1)) by (apply Z.pow_pos_nonneg; lia). lia.
Qed.

Lemma iter_xO_value (p s : positive) : Zpos (Pos.iter xO p s) = Zpos p * 2 ^ Zpos s.
Proof.
  induction s as [|s IH] using Pos.peano_ind.
  - simpl. lia.
  - rewrite Pos.iter_succ, Pos2Z.inj_succ, Z.pow_succ_r by lia.
    rewrite Pos2Z.inj_xO, IH. lia.
Qed.

(** ** Shifting right *)

Lemma shr_1_m (mrs : shr_record) :
  0 <= shr_m mrs -> shr_m (shr_1 mrs) = shr_m mrs / 2.
Proof.
  destruct mrs as [m r s]. cbn [shr_m]. intros Hm.
  destruct m as [|[p|p|]|p]; cbn [shr_1 shr_m]; try lia.
  - reflexivity.
  - apply Z.div_unique with (r := 1); lia.
  - apply Z.div_unique with (r := 0); lia.
  - reflexivity.
Qed.

Lemma iter_shr_1_m (n : positive) (mrs : shr_record) :
  0 <= shr_m mrs ->
  shr_m (SpecFloat.iter_pos shr_1 n mrs) = shr_m mrs / 2 ^ Zpos n.
Proof.
  revert mrs. induction n as [n IH|n IH|]; intros mrs Hm; cbn [SpecFloat.iter_pos].
  - assert (Hp : 0 < 2 ^ Zpos n) by (apply Z.pow_pos_nonneg; lia).
    assert (H1 : 0 <= shr_m (shr_1 mrs)).
    { rewrite shr_1_m by exact Hm. apply Z.div_pos; lia. }
    assert (H2 : 0 <= shr_m (SpecFloat.iter_pos shr_1 n (shr_1 mrs))).
    { rewrite IH by exact H1. apply Z.div_pos; lia. }
    rewrite IH by exact H2. rewrite IH by exact H1. rewrite shr_1_m by exact Hm.
    rewrite !Z.div_div by lia.
    f_equal.
    assert (E : 2 ^ Zpos n~1 = 2 * 2 ^ Zpos n * 2 ^ Zpos n).
    { rewrite <- (Z.pow_1_r 2) at 2. rewrite <- !Z.pow_add_r by lia. f_equal. lia. }
    rewrite E. ring.
  - assert (Hp : 0 < 2 ^ Zpos n) by (apply Z.pow_pos_nonneg; lia).
    assert (H2 : 0 <= shr_m (SpecFloat.iter_pos shr_1 n mrs)).
    { rewrite IH by exact Hm. apply Z.div_pos; lia. }
    rewrite IH by exact H2. rewrite IH by exact Hm.
    rewrite Z.div_div by lia.
    f_equal.
    assert (E : 2 ^ Zpos n~0 = 2 ^ Zpos n * 2 ^ Zpos n).
    { rewrite <- Z.pow_add_r by lia. f_equal. lia. }
    rewrite E. ring.
  - rewrite shr_1_m by exact Hm. reflexivity.
Qed.

Lemma round_nearest_even_cases (m : Z) (l : location) :
  round_nearest_even m l = m \/ round_nearest_even m l = m + 1.
Proof.
  destruct l as [|[| |]]; simpl; auto. destruct (Z.even m); auto.
Qed.

Lemma shr_m_of_loc (m : Z) (l : location) : shr_m (shr_record_of_loc m l) = m.
Proof. destruct l as [|[| |]]; reflexivity. Qed.

(** ** Rounding a mantissa of at least 53 digits in the normal range *)

Lemma binary_round_aux_normal (s : bool) (mx ex : Z) (lx : location) (D : Z) :
  2 ^ (D - 1) <= mx < 2 ^ D -> 53 <= D -> -1074 <= D + ex - 53 ->
  exists (m' : positive) (e' : Z),
    binary_round_aux prec emax s mx ex lx
    = (if e' <=? 971 then S754_finite s m' e' else S754_infinity s)
    /\ 2 ^ 52 <= Zpos m' < 2 ^ 53
    /\ (e' = ex + D - 53
        \/ (e' = ex + D - 52 /\ mx / 2 ^ (D - 53) = 2 ^ 53 - 1)).
Proof.
  intros Hmx HD Hex.
  assert (Hpow : 0 < 2 ^ (D - 53)) by (apply Z.pow_pos_nonneg; lia).
  assert (Hs1 : exists mrs',
             shr_fexp prec emax mx ex lx = (mrs', ex + (D - 53))
             /\ shr_m mrs' = mx / 2 ^ (D - 53)).
  { unfold shr_fexp. rewrite (Zdigits2_unique mx D) by (try exact Hmx; lia).
    rewrite fexp_eq, Z.max_l by lia.
    replace (D + ex - 53 - ex) with (D - 53) by lia.
    remember (D - 53) as n eqn:En. destruct n as [|n|n]; [| |lia].
    - exists (shr_record_of_loc mx lx). cbn [shr]. split; [f_equal; lia|].
      rewrite shr_m_of_loc. change (2 ^ 0) with 1. rewrite Z.div_1_r. reflexivity.
    - exists (SpecFloat.iter_pos shr_1 n (shr_record_of_loc mx lx)). split; [reflexivity|].
      rewrite iter_shr_1_m; rewrite shr_m_of_loc; [reflexivity|].
      assert (0 < 2 ^ (D - 1)) by (apply Z.pow_pos_nonneg; lia). lia. }
  destruct Hs1 as (mrs' & Hs1 & Hm1).
  set (m1 := mx / 2 ^ (D - 53)) in *.
  assert (Hm1b : 2 ^ 52 <= m1 < 2 ^ 53).
  { assert (E1 : 2 ^ (D - 1) = 2 ^ 52 * 2 ^ (D - 53)).
    { rewrite <- Z.pow_add_r by lia. f_equal. lia. }
    assert (E2 : 2 ^ D = 2 ^ 53 * 2 ^ (D - 53)).
    { rewrite <- Z.pow_add_r by lia. f_equal. lia. }
    unfold m1. split.
    - apply Z.div_le_lower_bound; [exact Hpow|]. lia.
    - apply Z.div_lt_upper_bound; [exact Hpow|]. lia. }
  set (e1 := ex + (D - 53)) in *.
  unfold binary_round_aux. rewrite Hs1. rewrite Hm1.
  set (q := round_nearest_even m1 (loc_of_shr_record mrs')).
  assert (Hq : q = m1 \/ q = m1 + 1) by apply round_nearest_even_cases.
  destruct (Z.eq_dec q (2 ^ 53)) as [Hcarry | Hno].
  - (* the rounded mantissa needs 54 digits *)
    exists (2 ^ 52)%positive, (e1 + 1).
    rewrite Hcarry. unfold shr_fexp.
    change (Zdigits2 (2 ^ 53)) with 54.
    rewrite fexp_eq, Z.max_l by (unfold e1; lia).
    replace (54 + e1 - 53 - e1) with 1 by lia.
    cbn [shr SpecFloat.iter_pos shr_record_of_loc]. 
    split; [reflexivity|]. split; [simpl; lia|].
    right. unfold e1. split; [lia|]. fold m1. lia.
  - assert (Hqb : 2 ^ 52 <= q < 2 ^ 53) by lia.
    destruct q as [|m'|m'] eqn:Eq; [simpl in Hqb; lia| |simpl in Hqb; lia].
    exists m', e1. unfold shr_fexp.
    rewrite (Zdigits2_unique (Zpos m') 53) by (try exact Hqb; lia).
    rewrite fexp_eq, Z.max_l by (unfold e1; lia).
    replace (53 + e1 - 53 - e1) with 0 by lia.
    cbn [shr shr_record_of_loc shr_m].
    split; [reflexivity|]. split; [exact Hqb|].
    left. unfold e1. lia.
Qed.

Lemma binary_round_aux_canonical (s : bool) (m : positive) (e : Z) :
  canonical_mantissa prec emax m e = true -> e <= 971 ->
  binary_round_aux prec emax s (Zpos m) e loc_Exact = S754_finite s m e.
Proof.
  intros Hc He. unfold canonical_mantissa in Hc. apply Z.eqb_eq in Hc.
  unfold binary_round_aux, shr_fexp. cbn [Zdigits2].
  rewrite Hc, Z.sub_diag. cbn [shr shr_record_of_loc shr_m loc_of_shr_record round_nearest_even].
  cbn [Zdigits2]. rewrite Hc, Z.sub_diag. cbn [shr shr_record_of_loc shr_m].
  assert (Hle : (e <=? emax - prec) = true) by (apply Z.leb_le; exact He).
  rewrite Hle. reflexivity.
Qed.

(** ** The conversion from [int] *)

Lemma float_of_int_pos (p : positive) :
  Zpos p < 2 ^ 52 ->
  exists m : positive,
    Prim2SF (float_of_int (Zpos p))
    = S754_finite false m (Zpos (digits2_pos p) - 53)
    /\ Zpos m = Zpos p * 2 ^ (53 - Zpos (digits2_pos p))
    /\ 2 ^ 52 <= Zpos m < 2 ^ 53.
Proof.
  intros Hp. pose proof (digits2_pos_bounds p) as [Dlo Dhi].
  set (d := Zpos (digits2_pos p)) in *.
  assert (Hd : 1 <= d <= 52).
  { split; [unfold d; lia|].
    assert (d - 1 < 52); [|lia]. apply (Z.pow_lt_mono_r_iff 2); lia. }
  unfold float_of_int. change (Zpos p <? 0) with false. cbv iota.
  rewrite of_uint63_spec, of_Z_spec.
  rewrite Z.mod_small by (change wB with (2 ^ 63); split; [lia|];
                          apply Z.lt_trans with (2 ^ 52); [exact Hp|reflexivity]).
  cbn [binary_normalize]. unfold binary_round.
  fold d. rewrite Z.add_0_r, fexp_eq, Z.max_l by lia.
  unfold shl_align. rewrite Z.sub_0_r.
  remember (d - 53) as z eqn:Ez. destruct z as [|z|z]; [lia|lia|].
  assert (Hz : Zpos z = 53 - d) by lia.
  assert (Hval : Zpos (Pos.iter xO p z) = Zpos p * 2 ^ (53 - d)).
  { rewrite iter_xO_value, Hz. reflexivity. }
  assert (Hb : 2 ^ 52 <= Zpos (Pos.iter xO p z) < 2 ^ 53).
  { rewrite Hval.
    assert (E1 : 2 ^ 52 = 2 ^ (d - 1) * 2 ^ (53 - d)).
    { rewrite <- Z.pow_add_r by lia. f_equal. lia. }
    assert (E2 : 2 ^ 53 = 2 ^ d * 2 ^ (53 - d)).
    { rewrite <- Z.pow_add_r by lia. f_equal. lia. }
    assert (0 < 2 ^ (53 - d)) by (apply Z.pow_pos_nonneg; lia).
    rewrite E1, E2. split; nia. }
  exists (Pos.iter xO p z). split; [|split; [exact Hval|exact Hb]].
  apply binary_round_aux_canonical; [|lia].
  unfold canonical_mantissa. apply Z.eqb_eq.
  rewrite (digits2_pos_unique _ 53) by exact Hb.
  rewrite fexp_eq. lia.
Qed.

Lemma float_of_int_0 : float_of_int 0 = 0%float.
Proof. reflexivity. Qed.

(** ** Division of normal numbers *)

Lemma SFdiv_core_normal (m1 m2 : positive) (e1 e2 : Z) :
  2 ^ 52 <= Zpos m1 < 2 ^ 53 -> 2 ^ 52 <= Zpos m2 < 2 ^ 53 ->
  -1074 <= e1 - e2 - 53 ->
  SFdiv_core_binary prec emax (Zpos m1) e1 (Zpos m2) e2
  = ((Zpos m1 * 2 ^ 53) / Zpos m2, e1 - e2 - 53,
     new_location (Zpos m2) ((Zpos m1 * 2 ^ 53) mod Zpos m2)).
Proof.
  intros H1 H2 He. unfold SFdiv_core_binary. cbn [Zdigits2].
  rewrite (digits2_pos_unique m1 53), (digits2_pos_unique m2 53) by assumption.
  rewrite fexp_eq, Z.max_l by lia.
  rewrite Z.min_l by lia.
  replace (e1 - e2 - (53 + e1 - (53 + e2) - 53)) with 53 by lia.
  replace (53 + e1 - (53 + e2) - 53) with (e1 - e2 - 53) by lia.
  cbv zeta iota beta.
  rewrite Z.shiftl_mul_pow2 by lia.
  unfold Z.div, Z.modulo.
  destruct (Z.div_eucl (Zpos m1 * 2 ^ 53) (Zpos m2)) as [q r].
  reflexivity.
Qed.

Lemma new_location_0 (nb : Z) : new_location nb 0 = loc_Exact.
Proof.
  unfold new_location, new_location_even, new_location_odd.
  destruct (Z.even nb); reflexivity.
Qed.

Lemma SFdiv_same (m : positive) (e : Z) :
  2 ^ 52 <= Zpos m < 2 ^ 53 ->
  SFdiv prec emax (S754_finite false m e) (S754_finite false m e) = Prim2SF 1%float.
Proof.
  intros Hm. unfold SFdiv.
  rewrite SFdiv_core_normal by (try assumption; lia).
  rewrite Z.mul_comm, Z.div_mul, Z.mod_mul by lia.
  rewrite new_location_0, Z.sub_diag. reflexivity.
Qed.

Lemma SFdiv_less (m1 m2 : positive) (e1 e2 : Z) :
  2 ^ 52 <= Zpos m1 < 2 ^ 53 - 1 -> 2 ^ 52 <= Zpos m2 < 2 ^ 53 ->
  -104 <= e1 - e2 - 53 ->
  e1 < e2 \/ (e1 = e2 /\ Zpos m1 < Zpos m2) ->
  exists (m' : positive) (e' : Z),
    SFdiv prec emax (S754_finite false m1 e1) (S754_finite false m2 e2)
    = S754_finite false m' e'
    /\ 2 ^ 52 <= Zpos m' < 2 ^ 53
    /\ e1 - e2 - 53 <= e' <= -53.
Proof.
  intros H1 H2 He Hlt. unfold SFdiv.
  rewrite SFdiv_core_normal by (try assumption; lia).
  cbn [xorb].
  set (q := Zpos m1 * 2 ^ 53 / Zpos m2).
  set (l := new_location _ _).
  assert (Hqlo : 2 ^ 52 <= q).
  { unfold q. apply Z.div_le_lower_bound; [lia|]. 
    change (2 ^ 53) with (2 * 2 ^ 52) in *. nia. }
  assert (Hqhi : q <= 2 ^ 54 - 4).
  { unfold q. assert (Zpos m1 * 2 ^ 53 / Zpos m2 < 2 ^ 54 - 3); [|lia].
    apply Z.div_lt_upper_bound; [lia|].
    change (2 ^ 54) with (4 * 2 ^ 52). change (2 ^ 53) with (2 * 2 ^ 52) in *. nia. }
  destruct (Z.lt_ge_cases q (2 ^ 53)) as [Hsmall | Hbig].
  - (* the quotient has 53 digits *)
    destruct (binary_round_aux_normal false q (e1 - e2 - 53) l 53)
      as (m' & e' & Hr & Hm' & He'); [change (2 ^ (53 - 1)) with (2 ^ 52); lia|lia|lia|].
    exists m', e'.
    assert (Hcase : e' = e1 - e2 - 53 \/ (e' = e1 - e2 - 52 /\ e1 < e2)).
    { destruct He' as [He' | [He' Hq]]; [left; lia|right].
      split; [lia|]. destruct Hlt as [Hlt | [Heq Hm]]; [exact Hlt|]. exfalso.
      change (2 ^ (53 - 53)) with 1 in Hq. rewrite Z.div_1_r in Hq.
      assert (q < 2 ^ 53 - 1); [|lia].
      unfold q. apply Z.div_lt_upper_bound; [lia|].
      change (2 ^ 53) with (2 * 2 ^ 52) in *. nia. }
    assert (Hle : (e' <=? 971) = true) by (apply Z.leb_le; lia).
    rewrite Hle in Hr. split; [exact Hr|]. split; [exact Hm'|]. lia.
  - (* the quotient has 54 digits *)
    assert (He12 : e1 < e2).
    { destruct Hlt as [Hlt | [Heq Hm]]; [exact Hlt|]. exfalso.
      assert (q < 2 ^ 53); [|lia].
      unfold q. apply Z.div_lt_upper_bound; [lia|]. nia. }
    destruct (binary_round_aux_normal false q (e1 - e2 - 53) l 54)
      as (m' & e' & Hr & Hm' & He'); [change (2 ^ (54 - 1)) with (2 ^ 53); lia|lia|lia|].
    exists m', e'.
    assert (Hcase : e' = e1 - e2 - 52).
    { destruct He' as [He' | [He' Hq]]; [lia|]. exfalso.
      change (2 ^ (54 - 53)) with 2 in Hq.
      assert (q / 2 <= 2 ^ 53 - 2); [|lia].
      apply Z.div_le_upper_bound; lia. }
    assert (Hle : (e' <=? 971) = true) by (apply Z.leb_le; lia).
    rewrite Hle in Hr. split; [exact Hr|]. split; [exact Hm'|]. lia.
Qed.

(** ** Signs of products and differences *)

Definition sf_pos (x : spec_float) : Prop :=
  match x with
  | S754_finite false _ _ | S754_infinity false => True
  | _ => False
  end.

Definition sf_neg (x : spec_float) : Prop :=
  match x with
  | S754_finite true _ _ | S754_infinity true => True
  | _ => False
  end.

Lemma sf_sign_if (s : bool) (m : positive) (e : Z) (b : bool) :
  (if s then sf_neg else sf_pos) (if b then S754_finite s m e else S754_infinity s).
Proof. destruct s, b; exact I. Qed.

Lemma SFmul_normal (s1 s2 : bool) (m1 m2 : positive) (e1 e2 : Z) :
  2 ^ 52 <= Zpos m1 < 2 ^ 53 -> 2 ^ 52 <= Zpos m2 < 2 ^ 53 ->
  -1074 <= e1 + e2 + 52 ->
  exists (m' : positive) (e' : Z),
    SFmul prec emax (S754_finite s1 m1 e1) (S754_finite s2 m2 e2)
    = (if e' <=? 971 then S754_finite (xorb s1 s2) m' e' else S754_infinity (xorb s1 s2)).
Proof.
  intros H1 H2 He. unfold SFmul. rewrite Pos2Z.inj_mul.
  assert (Hlo : 2 ^ 104 <= Zpos m1 * Zpos m2).
  { change (2 ^ 104) with (2 ^ 52 * 2 ^ 52). nia. }
  assert (Hhi : Zpos m1 * Zpos m2 < 2 ^ 106).
  { change (2 ^ 106) with (2 ^ 53 * 2 ^ 53). nia. }
  destruct (Z.lt_ge_cases (Zpos m1 * Zpos m2) (2 ^ 105)) as [Hs | Hb].
  - destruct (binary_round_aux_normal (xorb s1 s2) (Zpos m1 * Zpos m2) (e1 + e2)
                loc_Exact 105) as (m' & e' & Hr & _);
      [change (2 ^ (105 - 1)) with (2 ^ 104); lia|lia|lia|].
    exists m', e'. exact Hr.
  - destruct (binary_round_aux_normal (xorb s1 s2) (Zpos m1 * Zpos m2) (e1 + e2)
                loc_Exact 106) as (m' & e' & Hr & _);
      [change (2 ^ (106 - 1)) with (2 ^ 105); lia|lia|lia|].
    exists m', e'. exact Hr.
Qed.

Lemma binary_round_positive (s : bool) (p : positive) (ez : Z) :
  -1074 <= ez <= 971 ->
  exists (m' : positive) (e' : Z),
    binary_round prec emax s p ez
    = (if e' <=? 971 then S754_finite s m' e' else S754_infinity s).
Proof.
  intros Hez. unfold binary_round.
  pose proof (digits2_pos_bounds p) as Hd.
  set (d := Zpos (digits2_pos p)) in *.
  assert (Hd1 : 1 <= d) by (unfold d; lia).
  rewrite fexp_eq. unfold shl_align.
  remember (Z.max (d + ez - 53) (-1074) - ez) as z eqn:Ez.
  destruct z as [|z|z].
  - (* no shift *)
    destruct (Z.lt_ge_cases (d + ez - 53) (-1074)) as [Hsub | Hnorm].
    + exists p, ez. rewrite binary_round_aux_canonical; [|
        unfold canonical_mantissa; apply Z.eqb_eq; fold d; rewrite fexp_eq; lia|lia].
      assert (Hle : (ez <=? 971) = true) by (apply Z.leb_le; lia).
      rewrite Hle. reflexivity.
    + destruct (binary_round_aux_normal s (Zpos p) ez loc_Exact d)
        as (m' & e' & Hr & _); [exact Hd|lia|lia|].
      exists m', e'. exact Hr.
  - destruct (binary_round_aux_normal s (Zpos p) ez loc_Exact d)
      as (m' & e' & Hr & _); [exact Hd|lia|lia|].
    exists m', e'. exact Hr.
  - (* shift left to the canonical exponent *)
    set (f := Z.max (d + ez - 53) (-1074)) in *.
    assert (Hz : Zpos z = ez - f) by lia.
    exists (Pos.iter xO p z), f.
    assert (Hval : Zpos (Pos.iter xO p z) = Zpos p * 2 ^ (ez - f)).
    { rewrite iter_xO_value, Hz. reflexivity. }
    rewrite binary_round_aux_canonical.
    + assert (Hle : (f <=? 971) = true) by (apply Z.leb_le; lia).
      rewrite Hle. reflexivity.
    + unfold canonical_mantissa. apply Z.eqb_eq.
      rewrite (digits2_pos_unique _ (d + ez - f)).
      * rewrite fexp_eq. unfold f. lia.
      * rewrite Hval.
        assert (E1 : 2 ^ (d + ez - f - 1) = 2 ^ (d - 1) * 2 ^ (ez - f)).
        { rewrite <- Z.pow_add_r by lia. f_equal. lia. }
        assert (E2 : 2 ^ (d + ez - f) = 2 ^ d * 2 ^ (ez - f)).
        { rewrite <- Z.pow_add_r by lia. f_equal. lia. }
        assert (0 < 2 ^ (ez - f)) by (apply Z.pow_pos_nonneg; lia).
        rewrite E1, E2. split; nia.
    + lia.
Qed.

Lemma valid_finite_exponent (s : bool) (m : positive) (e : Z) :
  SpecFloat.valid_binary prec emax (S754_finite s m e) = true -> -1074 <= e <= 971.
Proof.
  cbn [SpecFloat.valid_binary]. unfold bounded, canonical_mantissa.
  intros H. apply andb_true_iff in H. destruct H as [Hc Hb].
  apply Z.eqb_eq in Hc. apply Z.leb_le in Hb. rewrite fexp_eq in Hc.
  change (emax - prec) with 971 in Hb. lia.
Qed.

Lemma valid_finite_normal (s : bool) (m : positive) (e : Z) :
  SpecFloat.valid_binary prec emax (S754_finite s m e) = true -> -1074 < e ->
  2 ^ 52 <= Zpos m < 2 ^ 53.
Proof.
  cbn [SpecFloat.valid_binary]. unfold bounded, canonical_mantissa.
  intros H He. apply andb_true_iff in H. destruct H as [Hc _].
  apply Z.eqb_eq in Hc. rewrite fexp_eq in Hc.
  pose proof (digits2_pos_bounds m) as Hd.
  assert (H53 : Zpos (digits2_pos m) = 53) by lia.
  rewrite H53 in Hd. exact Hd.
Qed.

Lemma SFsub_grows (x y : spec_float) :
  SpecFloat.valid_binary prec emax x = true -> SpecFloat.valid_binary prec emax y = true ->
  x = S754_zero false \/ sf_pos x -> sf_neg y ->
  sf_pos (SFsub prec emax x y).
Proof.
  intros Vx Vy Hx Hy.
  destruct y as [sy|[|]| |[|] my ey]; try contradiction.
  - (* minus infinity *)
    destruct Hx as [-> | Hx]; [exact I|].
    destruct x as [sx|[|]| |[|] mx ex]; try contradiction; exact I.
  - destruct Hx as [-> | Hx]; [exact I|].
    destruct x as [sx|[|]| |[|] mx ex]; try contradiction; [exact I|].
    apply valid_finite_exponent in Vx, Vy.
    unfold SFsub. cbn [cond_Zopp Z.opp Z.sub Z.add binary_normalize].
    destruct (binary_round_positive false
                (fst (shl_align mx ex (Z.min ex ey)) + fst (shl_align my ey (Z.min ex ey)))
                (Z.min ex ey)) as (m' & e' & Hr); [lia|].
    rewrite Hr. apply (sf_sign_if false).
Qed.

End Binary64Spec.

(** ** The terms of the entropy in binary64 *)

Lemma float_div_same (n : Z) :
  (0 < n < 2 ^ 52)%Z -> (float_of_int n / float_of_int n)%float = 1%float.
Proof.
  intros Hn. destruct n as [|p|p]; try lia.
  destruct (float_of_int_pos p) as (m & Hm & _ & Hb); [lia|].
  apply Prim2SF_inj. rewrite FloatAxioms.div_spec, Hm. apply SFdiv_same. exact Hb.
Qed.

Lemma float_div_less (k n : Z) :
  (0 < k < n)%Z -> (n < 2 ^ 52)%Z ->
  exists (m : positive) (e : Z),
    Prim2SF (float_of_int k / float_of_int n)%float = S754_finite false m e
    /\ (2 ^ 52 <= Zpos m < 2 ^ 53)%Z /\ (-104 <= e <= -53)%Z.
Proof.
  intros Hk Hn. destruct k as [|pk|pk]; try lia. destruct n as [|pn|pn]; try lia.
  destruct (float_of_int_pos pk) as (m1 & E1 & V1 & B1); [lia|].
  destruct (float_of_int_pos pn) as (m2 & E2 & V2 & B2); [lia|].
  pose proof (digits2_pos_bounds pk) as Dk. pose proof (digits2_pos_bounds pn) as Dn.
  set (dk := Zpos (digits2_pos pk)) in *. set (dn := Zpos (digits2_pos pn)) in *.
  assert (Hdk : (1 <= dk)%Z) by (unfold dk; lia).
  assert (Hdn : (dn <= 52)%Z).
  { assert (dn - 1 < 52)%Z; [|lia]. apply (Z.pow_lt_mono_r_iff 2); lia. }
  assert (Hle : (dk <= dn)%Z).
  { assert (dk - 1 < dn)%Z; [|lia]. apply (Z.pow_lt_mono_r_iff 2); lia. }
  assert (Heven : (Zpos m1 < 2 ^ 53 - 1)%Z).
  { assert (E : (2 ^ (53 - dk) = 2 * 2 ^ (52 - dk))%Z).
    { rewrite <- Z.pow_succ_r by lia. f_equal. lia. }
    rewrite E in V1. change (2 ^ 53)%Z with (2 * 2 ^ 52)%Z in *.
    set (x := (2 ^ (52 - dk))%Z) in *. lia. }
  rewrite FloatAxioms.div_spec, E1, E2.
  destruct (SFdiv_less m1 m2 (dk - 53) (dn - 53)) as (m' & e' & Hr & Hm' & He').
  - lia.
  - exact B2.
  - lia.
  - destruct (Z.eq_dec dk dn) as [Heq | Hne]; [right|left; lia].
    split; [lia|]. rewrite V1, V2, Heq.
    assert (0 < 2 ^ (53 - dn))%Z by (apply Z.pow_pos_nonneg; lia). nia.
  - exists m', e'. split; [exact Hr|]. split; [exact Hm'|]. lia.
Qed.

Lemma leb_threshold (L : float) :
  (L <=? -0x1p-53)%float = true ->
  Prim2SF L = S754_infinity true
  \/ exists (m : positive) (e : Z),
      Prim2SF L = S754_finite true m e
      /\ (2 ^ 52 <= Zpos m < 2 ^ 53)%Z /\ (-105 <= e)%Z.
Proof.
  intros H. rewrite FloatAxioms.leb_spec in H.
  change (Prim2SF (-0x1p-53)%float) with (S754_finite true (2 ^ 52) (-105)) in H.
  pose proof (Prim2SF_valid L) as V.
  destruct (Prim2SF L) as [s|[|]| |[|] m e]; try discriminate H.
  - left. reflexivity.
  - right. exists m, e. split; [reflexivity|].
    assert (He : (-105 <= e)%Z).
    { unfold SFleb, SFcompare in H.
      destruct (Z.compare_spec e (-105)) as [Heq | Hlt | Hgt]; [lia| |lia].
      discriminate H. }
    split; [|exact He].
    apply (valid_finite_normal true m e V). lia.
Qed.

Section EntropyBinary64.

Variable log2 : float -> float.
Hypothesis log2_one : log2 1%float = 0%float.
Hypothesis log2_below_one :
  forall x : float,
    (0 <? x)%float = true -> (x <? 1)%float = true ->
    (log2 x <=? -0x1p-53)%float = true.

Let ops : DoubleOps float := Binary64 log2.

(** The state of the running entropy: the literal [0.0], or a positive
    number, or plus infinity. *)
Definition entropy_state (e : float) : Prop :=
  e = 0%float \/ sf_pos (Prim2SF e).

Lemma entropy_step_pure (total : Z) (c : string) :
  (0 < total < 2 ^ 52)%Z ->
  entropy_step (ops := ops) total 0%float (c, total) = 0%float.
Proof.
  intros Ht. unfold entropy_step. cbn [snd of_int ddiv dgt dsub dmul dlog2 ops Binary64].
  rewrite (float_div_same total Ht), log2_one. reflexivity.
Qed.

Lemma entropy_step_mixed (total k : Z) (c : string) (e : float) :
  (0 < k < total)%Z -> (total < 2 ^ 52)%Z ->
  entropy_state e ->
  sf_pos (Prim2SF (entropy_step (ops := ops) total e (c, k))).
Proof.
  intros Hk Ht He. unfold entropy_step.
  cbn [snd of_int ddiv dgt dsub dmul dlog2 ops Binary64].
  destruct (float_div_less k total Hk Ht) as (m & ep & Hp & Hm & Hep).
  set (prob := (float_of_int k / float_of_int total)%float) in *.
  assert (Hpos : (float_of_int 0 <? prob)%float = true).
  { rewrite FloatAxioms.ltb_spec, Hp. reflexivity. }
  assert (Hlt1 : (prob <? 1)%float = true).
  { rewrite FloatAxioms.ltb_spec, Hp.
    change (Prim2SF 1%float) with (S754_finite false (2 ^ 52) (-52)).
    unfold SFltb, SFcompare.
    destruct (Z.compare_spec ep (-52)) as [Heq | Hlt | Hgt]; [lia|reflexivity|lia]. }
  rewrite Hpos.
  assert (Hterm : sf_neg (Prim2SF (prob * log2 prob)%float)).
  { rewrite FloatAxioms.mul_spec, Hp.
    destruct (leb_threshold (log2 prob) (log2_below_one prob Hpos Hlt1))
      as [HL | (mL & eL & HL & HmL & HeL)]; rewrite HL.
    - exact I.
    - destruct (SFmul_normal false true m mL ep eL Hm HmL) as (m' & e' & Hr); [lia|].
      unfold SF64mul. rewrite Hr. apply (sf_sign_if true). }
  rewrite FloatAxioms.sub_spec. apply SFsub_grows.
  - apply Prim2SF_valid.
  - apply Prim2SF_valid.
  - destruct He as [-> | He]; [left; reflexivity|right; exact He].
  - exact Hterm.
Qed.

Lemma entropy_fold_pure (total : Z) (counts : list (string * Z)) :
  (0 < total < 2 ^ 52)%Z ->
  (forall c k, In (c, k) counts -> k = total) ->
  fold_left (entropy_step (ops := ops) total) counts 0%float = 0%float.
Proof.
  intros Ht. induction counts as [|[c k] counts IH]; intros Hall; [reflexivity|].
  cbn [fold_left]. rewrite (Hall c k (or_introl eq_refl)).
  rewrite entropy_step_pure by exact Ht.
  apply IH. intros c' k' Hin. apply (Hall c' k'). right. exact Hin.
Qed.

Lemma entropy_fold_mixed (total : Z) (counts : list (string * Z)) (e : float) :
  (total < 2 ^ 52)%Z ->
  (forall c k, In (c, k) counts -> (0 < k < total)%Z) ->
  entropy_state e ->
  entropy_state (fold_left (entropy_step (ops := ops) total) counts e)
  /\ (counts <> [] ->
      sf_pos (Prim2SF (fold_left (entropy_step (ops := ops) total) counts e))).
Proof.
  intros Ht. revert e. induction counts as [|[c k] counts IH]; intros e Hall He.
  - split; [exact He|]. intros H. exfalso. apply H. reflexivity.
  - cbn [fold_left].
    pose proof (entropy_step_mixed total k c e (Hall c k (or_introl eq_refl)) Ht He) as Hs.
    destruct (IH (entropy_step (ops := ops) total e (c, k))) as [IH1 IH2].
    + intros c' k' Hin. apply (Hall c' k'). right. exact Hin.
    + right. exact Hs.
    + split; [exact IH1|]. intros _.
      destruct counts as [|p counts']; [exact Hs|]. apply IH2. discriminate.
Qed.

Lemma sf_pos_compare (e : float) :
  sf_pos (Prim2SF e) ->
  (0 <=? e)%float = true /\ (e =? 0)%float = false /\ e <> 0%float.
Proof.
  intros H. rewrite FloatAxioms.leb_spec, FloatAxioms.eqb_spec.
  assert (Hne : e <> 0%float).
  { intros ->. exact H. }
  change (Prim2SF 0%float) with (S754_zero false).
  destruct (Prim2SF e) as [s|[|]| |[|] m x]; try contradiction; auto.
Qed.

Lemma calculateEntropy_binary64_unfold (self : DecisionTree) (indices : list nat) :
  indices <> [] -> (Z.of_nat (List.length indices) <= INT_MAX)%Z ->
  (0 < Z.of_nat (List.length indices) < 2 ^ 52)%Z
  /\ calculateEntropy (ops := ops) self indices
     = fold_left (entropy_step (ops := ops) (Z.of_nat (List.length indices)))
         (classCounts self indices) 0%float.
Proof.
  intros Hne Hlen. split.
  - split; [destruct indices; [contradiction|simpl; lia]|].
    unfold INT_MAX in Hlen.
    apply Z.le_lt_trans with 2147483647%Z; [exact Hlen|reflexivity].
  - unfold calculateEntropy. destruct indices as [|i l]; [contradiction|].
    cbv zeta. rewrite int_of_size_small by exact Hlen. reflexivity.
Qed.

Lemma calculateEntropy_binary64_pure (self : DecisionTree) (indices : list nat) :
  (Z.of_nat (List.length indices) <= INT_MAX)%Z ->
  allSameClass self indices = true ->
  calculateEntropy (ops := ops) self indices = 0%float.
Proof.
  intros Hlen Hsame. destruct indices as [|i l] eqn:El; [reflexivity|].
  rewrite <- El in *. assert (Hne : indices <> []) by (rewrite El; discriminate).
  destruct (calculateEntropy_binary64_unfold self indices Hne Hlen) as [Hn ->].
  apply entropy_fold_pure; [exact Hn|].
  intros c k Hin. apply classCounts_In in Hin; [|exact Hlen].
  destruct Hin as [-> Hpos]. f_equal.
  apply class_count_pos in Hpos. destruct Hpos as (idx & Hidx & Hc).
  apply class_count_all. intros j Hj. rewrite <- Hc.
  apply (proj1 (allSameClass_true self indices) Hsame); assumption.
Qed.

Lemma calculateEntropy_binary64_mixed (self : DecisionTree) (indices : list nat) :
  (Z.of_nat (List.length indices) <= INT_MAX)%Z ->
  allSameClass self indices = false ->
  sf_pos (Prim2SF (calculateEntropy (ops := ops) self indices)).
Proof.
  intros Hlen Hmixed. destruct indices as [|i l] eqn:El; [discriminate|].
  rewrite <- El in *. assert (Hne : indices <> []) by (rewrite El; discriminate).
  destruct (calculateEntropy_binary64_unfold self indices Hne Hlen) as [Hn ->].
  apply (entropy_fold_mixed (Z.of_nat (List.length indices))
           (classCounts self indices) 0%float).
  - lia.
  - intros c k Hin. apply classCounts_In in Hin; [|exact Hlen].
    destruct Hin as [-> Hpos].
    pose proof (class_count_le self c indices) as Hle.
    assert (Hneq : class_count self c indices <> List.length indices).
    { intros Heq. unfold class_count, of_class in Heq.
      apply filter_length_all in Heq.
      assert (Hs : allSameClass self indices = true); [|congruence].
      apply allSameClass_true. intros a b Ha Hb.
      rewrite forallb_forall in Heq.
      pose proof (Heq a Ha) as Ea. pose proof (Heq b Hb) as Eb.
      apply String.eqb_eq in Ea, Eb. congruence. }
    lia.
  - left. reflexivity.
  - destruct (classCounts self indices) as [|p counts] eqn:Ec; [|discriminate].
    exfalso.
    assert (Hin : In (classOf self i,
                      Z.of_nat (class_count self (classOf self i) indices))
                    (classCounts self indices)).
    { apply classCounts_In; [exact Hlen|]. split; [reflexivity|].
      apply class_count_pos. exists i. split; [rewrite El; left|]; reflexivity. }
    rewrite Ec in Hin. exact Hin.
Qed.

End EntropyBinary64.

(** A stand-in for [log2] on all of binary64: exact at the powers of
    two, and [-1.0] at the other arguments below [1.0]. *)
Definition log2_coarse (x : float) : float :=
  let y := log2_pow2 x in
  if (x <? 1)%float
  then (if (y <=? -0x1p-53)%float then y else (-1)%float)
  else y.

Lemma log2_coarse_one : log2_coarse 1%float = 0%float.
Proof. reflexivity. Qed.

Lemma log2_coarse_below_one (x : float) :
  (0 <? x)%float = true -> (x <? 1)%float = true ->
  (log2_coarse x <=? -0x1p-53)%float = true.
Proof.
  intros _ H1. unfold log2_coarse. rewrite H1.
  destruct (log2_pow2 x <=? -0x1p-53)%float eqn:Hy; [exact Hy|reflexivity].
Qed.

(** ** The information gain in binary64 *)

Lemma float_sub_zero (x : float) : (x - 0)%float = x.
Proof.
  apply Prim2SF_inj. rewrite FloatAxioms.sub_spec.
  change (Prim2SF 0%float) with (S754_zero false).
  destruct (Prim2SF x) as [[|]|[|]| |s m e]; reflexivity.
Qed.

Lemma float_mul_zero (w : float) (m : positive) (e : Z) :
  Prim2SF w = S754_finite false m e -> (w * 0)%float = 0%float.
Proof.
  intros Hw. apply Prim2SF_inj. rewrite FloatAxioms.mul_spec, Hw. reflexivity.
Qed.

Lemma float_weight (k n : Z) :
  (0 < k <= n)%Z -> (n < 2 ^ 52)%Z ->
  exists (m : positive) (e : Z),
    Prim2SF (float_of_int k / float_of_int n)%float = S754_finite false m e.
Proof.
  intros Hk Hn. destruct (Z.eq_dec k n) as [-> | Hne].
  - rewrite float_div_same by lia. exists (2 ^ 52)%positive, (-52)%Z. reflexivity.
  - destruct (float_div_less k n) as (m & e & Hr & _); [lia|exact Hn|].
    exists m, e. exact Hr.
Qed.

Section GainBinary64.

Variable log2 : float -> float.
Hypothesis log2_one : log2 1%float = 0%float.

Let ops : DoubleOps float := Binary64 log2.

Variable self : DecisionTree.

Lemma weighted_fold_pure (total : Z) (groups : StdMap.t (list nat)) :
  (0 < total < 2 ^ 52)%Z -> (total <= INT_MAX)%Z ->
  (forall v g, In (v, g) groups ->
               g <> [] /\ (Z.of_nat (List.length g) <= total)%Z
               /\ allSameClass self g = true) ->
  fold_left (weighted_step (ops := ops) self total) groups 0%float = 0%float.
Proof.
  intros Ht Hmax. induction groups as [|[v g] groups IH]; intros Hall; [reflexivity|].
  cbn [fold_left]. destruct (Hall v g (or_introl eq_refl)) as (Hne & Hle & Hpure).
  assert (Hstep : weighted_step (ops := ops) self total 0%float (v, g) = 0%float).
  { unfold weighted_step, ops. cbn [snd].
    rewrite (calculateEntropy_binary64_pure log2 log2_one self g) by (try exact Hpure; lia).
    cbn [of_int ddiv dadd dmul Binary64].
    destruct (float_weight (Z.of_nat (List.length g)) total) as (m & e & Hw).
    - split; [destruct g; [contradiction|simpl; lia]|exact Hle].
    - lia.
    - rewrite (float_mul_zero _ m e Hw). reflexivity. }
  rewrite Hstep. apply IH. intros v' g' Hin. apply (Hall v' g'). right. exact Hin.
Qed.

Lemma calculateInformationGain_binary64_determined (indices : list nat) (f : string) :
  (Z.of_nat (List.length indices) <= INT_MAX)%Z ->
  (forall i j, In i indices -> In j indices ->
     cell self i (getColumnIndex self f) = cell self j (getColumnIndex self f) ->
     classOf self i = classOf self j) ->
  calculateInformationGain (ops := ops) self indices f
  = calculateEntropy (ops := ops) self indices.
Proof.
  intros Hlen Hdet. unfold calculateInformationGain. cbv zeta.
  destruct indices as [|i0 l0] eqn:El; [reflexivity|].
  rewrite <- El in *. assert (Hne : indices <> []) by (rewrite El; discriminate).
  rewrite int_of_size_small by exact Hlen.
  rewrite weighted_fold_pure.
  - cbn [dsub ops Binary64]. apply float_sub_zero.
  - split; [rewrite El; simpl; lia|]. unfold INT_MAX in Hlen.
    apply Z.le_lt_trans with 2147483647%Z; [exact Hlen|reflexivity].
  - exact Hlen.
  - intros v g Hin. apply groupBy_In in Hin. destruct Hin as [Hg Hgne].
    split; [exact Hgne|]. split.
    + pose proof (with_value_length_le self (getColumnIndex self f) v indices) as Hle.
      rewrite <- Hg in Hle. lia.
    + apply allSameClass_true. intros a b Ha Hb.
      rewrite Hg in Ha, Hb. unfold with_value in Ha, Hb.
      apply filter_In in Ha, Hb. destruct Ha as [Ha Hva]. destruct Hb as [Hb Hvb].
      apply String.eqb_eq in Hva, Hvb.
      apply Hdet; [exact Ha|exact Hb|]. rewrite Hva, Hvb. reflexivity.
Qed.

End GainBinary64.

(** ** A feature that beats the initial gain is selected *)

Section Found.

Context {D : Type} {ops : DoubleOps D}.
Variable self : DecisionTree.
Variables (indices : list nat) (used : list string).

Lemma best_step_found (f : string) (hs : list string) (best : string * D) :
  incl hs (headers self) ->
  best = ("", of_int (-1))
  \/ (In (fst best) (headers self) /\ eligible self used (fst best) = true) ->
  (In f hs /\ eligible self used f = true
   /\ dgt (calculateInformationGain self indices f) (of_int (-1)) = true)
  \/ (In (fst best) (headers self) /\ eligible self used (fst best) = true) ->
  In (fst (fold_left (best_step self indices used) hs best)) (headers self)
  /\ eligible self used (fst (fold_left (best_step self indices used) hs best)) = true.
Proof.
  revert best. induction hs as [|h hs IH]; intros best Hincl Hinv Hgoal.
  - destruct Hgoal as [[[] _] | H]. exact H.
  - cbn [fold_left].
    assert (Hh : In h (headers self)) by (apply Hincl; left; reflexivity).
    assert (Hincl' : incl hs (headers self)).
    { intros x Hx. apply Hincl. right. exact Hx. }
    unfold best_step at 2 4.
    destruct (eligible self used h) eqn:He.
    + cbv zeta.
      destruct (dgt (calculateInformationGain self indices h) (snd best)) eqn:Hgt.
      * apply IH; [exact Hincl'|right; cbn [fst]; auto|right; cbn [fst]; auto].
      * apply IH; [exact Hincl'|exact Hinv|].
        destruct Hgoal as [([-> | Hin] & Hef & Hg) | H]; [|left; auto|right; exact H].
        right. destruct Hinv as [-> | H]; [|exact H].
        cbn [snd] in Hgt. congruence.
    + apply IH; [exact Hincl'|exact Hinv|].
      destruct Hgoal as [([-> | Hin] & Hef & Hg) | H]; [congruence|left; auto|right; exact H].
Qed.

Lemma findBestFeature_found (f : string) :
  In f (headers self) -> eligible self used f = true ->
  dgt (calculateInformationGain self indices f) (of_int (-1)) = true ->
  In (findBestFeature self indices used) (headers self)
  /\ eligible self used (findBestFeature self indices used) = true.
Proof.
  intros Hin He Hg. unfold findBestFeature.
  apply (best_step_found f); [apply incl_refl|left; reflexivity|left; auto].
Qed.

End Found.

Lemma sf_pos_above_minus_one (x : float) :
  sf_pos (Prim2SF x) -> (float_of_int (-1) <? x)%float = true.
Proof.
  intros H. rewrite FloatAxioms.ltb_spec.
  change (Prim2SF (float_of_int (-1))) with (S754_finite true (2 ^ 52) (-52)).
  destruct (Prim2SF x) as [s|[|]| |[|] m e]; try contradiction; reflexivity.
Qed.

Lemma selects_feature_binary64 (log2 : float -> float) (self : DecisionTree) (f : string) :
  log2 1%float = 0%float ->
  (forall x : float,
      (0 <? x)%float = true -> (x <? 1)%float = true ->
      (log2 x <=? -0x1p-53)%float = true) ->
  (Z.of_nat (List.length (data self)) <= INT_MAX)%Z ->
  ~ In "" (headers self) ->
  In f (headers self) ->
  determines self f ->
  selects_feature (ops := Binary64 log2) self f.
Proof.
  intros Hone Hbelow Hrows Hnames Hin Hdet indices used Hrange Hlen Hsame He.
  assert (Hbound : (Z.of_nat (List.length indices) <= INT_MAX)%Z) by lia.
  assert (Hgain : calculateInformationGain (ops := Binary64 log2) self indices f
                  = calculateEntropy (ops := Binary64 log2) self indices).
  { apply calculateInformationGain_binary64_determined; [exact Hone|exact Hbound|].
    intros i j Hi Hj Hv. apply Hdet; auto. }
  destruct (findBestFeature_found (ops := Binary64 log2) self indices used f Hin He)
    as [Hbest _].
  - rewrite Hgain. cbn [dgt of_int Binary64]. apply sf_pos_above_minus_one.
    apply calculateEntropy_binary64_mixed; assumption.
  - destruct (findBestFeature (ops := Binary64 log2) self indices used) eqn:Eb;
      [contradiction|reflexivity].
Qed.

(** ** Multiplication by one, subtraction of a number from itself *)

Lemma shr_1_even (z : Z) :
  (0 <= z)%Z ->
  shr_1 {| shr_m := 2 * z; shr_r := false; shr_s := false |}
  = {| shr_m := z; shr_r := false; shr_s := false |}.
Proof. intros Hz. destruct z as [|p|p]; [reflexivity|reflexivity|lia]. Qed.

Lemma iter_shr_1_exact (n : positive) (z : Z) :
  (0 <= z)%Z ->
  SpecFloat.iter_pos shr_1 n {| shr_m := z * 2 ^ Zpos n; shr_r := false; shr_s := false |}
  = {| shr_m := z; shr_r := false; shr_s := false |}.
Proof.
  revert z. induction n as [n IH|n IH|]; intros z Hz; cbn [SpecFloat.iter_pos].
  - assert (Hp : (0 < 2 ^ Zpos n)%Z) by (apply Z.pow_pos_nonneg; lia).
    replace (z * 2 ^ Zpos n~1)%Z with (2 * (z * 2 ^ Zpos n * 2 ^ Zpos n))%Z.
    + rewrite shr_1_even by nia. rewrite IH by nia. apply IH. exact Hz.
    + replace (Zpos n~1) with (1 + Zpos n + Zpos n)%Z by lia.
      rewrite !Z.pow_add_r by lia. change (2 ^ 1)%Z with 2%Z. ring.
  - assert (Hp : (0 < 2 ^ Zpos n)%Z) by (apply Z.pow_pos_nonneg; lia).
    replace (z * 2 ^ Zpos n~0)%Z with (z * 2 ^ Zpos n * 2 ^ Zpos n)%Z.
    + rewrite IH by nia. apply IH. exact Hz.
    + replace (Zpos n~0) with (Zpos n + Zpos n)%Z by lia.
      rewrite Z.pow_add_r by lia. ring.
  - change (2 ^ 1)%Z with 2%Z. rewrite Z.mul_comm. apply shr_1_even. exact Hz.
Qed.

Lemma SFmul_one_l (x : spec_float) :
  SpecFloat.valid_binary prec emax x = true ->
  match x with S754_finite _ _ _ | S754_zero _ => True | _ => False end ->
  SFmul prec emax (S754_finite false (2 ^ 52) (-52)) x = x.
Proof.
  intros V Hx. destruct x as [s| | |s m e]; try contradiction; [reflexivity|].
  pose proof (valid_finite_exponent s m e V) as He.
  cbn [SpecFloat.valid_binary] in V. unfold bounded, canonical_mantissa in V.
  apply andb_true_iff in V. destruct V as [Hc _]. apply Z.eqb_eq in Hc.
  rewrite fexp_eq in Hc.
  pose proof (digits2_pos_bounds m) as Hd.
  set (d := Zpos (digits2_pos m)) in *.
  assert (Hd1 : (1 <= d)%Z) by (unfold d; lia).
  unfold SFmul. cbn [xorb].
  assert (Hval : Zpos (2 ^ 52 * m) = (Zpos m * 2 ^ 52)%Z) by lia.
  rewrite Hval.
  assert (Hdig : Zdigits2 (Zpos m * 2 ^ 52) = (d + 52)%Z).
  { apply Zdigits2_unique; [|lia].
    replace (d + 52 - 1)%Z with (d - 1 + 52)%Z by lia.
    rewrite !Z.pow_add_r by lia.
    assert (0 < 2 ^ 52)%Z by reflexivity. split; nia. }
  unfold binary_round_aux, shr_fexp. rewrite Hdig, fexp_eq.
  replace (Z.max (d + 52 + (-52 + e) - 53) (-1074) - (-52 + e))%Z with 52%Z by lia.
  cbn [shr shr_record_of_loc].
  rewrite (iter_shr_1_exact 52 (Zpos m)) by lia.
  cbn [shr_m loc_of_shr_record round_nearest_even Zdigits2]. fold d.
  rewrite fexp_eq.
  replace (Z.max (d + (-52 + e + 52) - 53) (-1074) - (-52 + e + 52))%Z with 0%Z by lia.
  cbn [shr shr_record_of_loc shr_m].
  replace (-52 + e + 52)%Z with e by lia.
  assert (Hle : (e <=? emax - prec)%Z = true) by (apply Z.leb_le; change (emax - prec)%Z with 971%Z; lia).
  rewrite Hle. reflexivity.
Qed.

Lemma SFsub_same (m : positive) (e : Z) :
  SFsub prec emax (S754_finite false m e) (S754_finite false m e) = S754_zero false.
Proof.
  unfold SFsub. cbn [cond_Zopp]. rewrite Z.sub_diag. reflexivity.
Qed.

Lemma float_gain_constant (H : float) :
  H = 0%float \/ (exists m e, Prim2SF H = S754_finite false m e) ->
  (H - (0 + 1 * H))%float = 0%float.
Proof.
  intros [-> | (m & e & HH)]; [reflexivity|].
  assert (Hmul : (1 * H)%float = H).
  { apply Prim2SF_inj. rewrite FloatAxioms.mul_spec.
    change (Prim2SF 1%float) with (S754_finite false (2 ^ 52) (-52)).
    apply SFmul_one_l; [apply Prim2SF_valid|rewrite HH; exact I]. }
  rewrite Hmul.
  assert (Hadd : (0 + H)%float = H).
  { apply Prim2SF_inj. rewrite FloatAxioms.add_spec, HH. reflexivity. }
  rewrite Hadd. apply Prim2SF_inj. rewrite FloatAxioms.sub_spec, HH.
  apply SFsub_same.
Qed.

Lemma groupBy_constant (self : DecisionTree) (col : Z) (first : nat) (rest : list nat) :
  (forall i j, In i (first :: rest) -> In j (first :: rest) ->
               cell self i col = cell self j col) ->
  groupBy self col (first :: rest) = [(cell self first col, first :: rest)].
Proof.
  intros Hconst. set (l := first :: rest) in *. set (v := cell self first col).
  assert (Hall : forall p, In p (groupBy self col l) -> p = (v, l)).
  { intros [v' g] Hin. apply groupBy_In in Hin. destruct Hin as [Hg Hne].
    assert (Hv : v' = v).
    { destruct g as [|i g']; [contradiction|].
      assert (Hi : In i (with_value self col v' l)) by (rewrite <- Hg; left; reflexivity).
      unfold with_value in Hi. apply filter_In in Hi. destruct Hi as [Hi He].
      apply String.eqb_eq in He. rewrite <- He. apply Hconst; [exact Hi|left; reflexivity]. }
    subst v'. f_equal. rewrite Hg. unfold with_value. apply filter_all.
    apply forallb_forall. intros j Hj. apply String.eqb_eq.
    apply Hconst; [exact Hj|left; reflexivity]. }
  assert (Hmem : In (v, l) (groupBy self col l)).
  { apply groupBy_In. split; [|discriminate].
    unfold with_value. symmetry. apply filter_all.
    apply forallb_forall. intros j Hj. apply String.eqb_eq.
    apply Hconst; [exact Hj|left; reflexivity]. }
  pose proof (ordered_keys_NoDup _ (groupBy_ordered self col l)) as Hnd.
  destruct (groupBy self col l) as [|p [|q m]].
  - destruct Hmem.
  - rewrite (Hall p (or_introl eq_refl)). reflexivity.
  - exfalso. rewrite (Hall p (or_introl eq_refl)) in Hnd.
    rewrite (Hall q (or_intror (or_introl eq_refl))) in Hnd.
    cbn [StdMap.keys map fst] in Hnd. inversion Hnd as [|? ? Hnot _]; subst.
    apply Hnot. left. reflexivity.
Qed.

(** ** An even split between two classes *)

Lemma float_div_half (h : Z) :
  (0 < h)%Z -> (2 * h < 2 ^ 52)%Z ->
  (float_of_int h / float_of_int (2 * h))%float = 0.5%float.
Proof.
  intros Hh Hb. destruct h as [|p|p]; try lia.
  change (2 * Zpos p)%Z with (Zpos p~0).
  destruct (float_of_int_pos p) as (m1 & E1 & V1 & B1); [lia|].
  destruct (float_of_int_pos p~0) as (m2 & E2 & V2 & B2); [exact Hb|].
  cbn [digits2_pos] in E2, V2. rewrite Pos2Z.inj_succ in E2, V2.
  set (d := Zpos (digits2_pos p)) in *.
  pose proof (digits2_pos_bounds p) as Hd. fold d in Hd.
  assert (Hd1 : (1 <= d)%Z) by (unfold d; lia).
  assert (Hd2 : (d <= 51)%Z).
  { assert (d - 1 < 51)%Z; [|lia]. apply (Z.pow_lt_mono_r_iff 2); [lia|lia|].
    change (2 ^ 52)%Z with (2 * 2 ^ 51)%Z in Hb. lia. }
  assert (Hm : m2 = m1).
  { apply Pos2Z.inj. rewrite V1, V2.
    replace (53 - d)%Z with (Z.succ (53 - Z.succ d)) by lia.
    rewrite Z.pow_succ_r by lia. lia. }
  subst m2. apply Prim2SF_inj. rewrite FloatAxioms.div_spec, E1, E2.
  unfold SF64div, SFdiv.
  rewrite SFdiv_core_normal by (try assumption; lia).
  rewrite Z.mul_comm, Z.div_mul, Z.mod_mul by lia.
  rewrite new_location_0.
  replace (d - 53 - (Z.succ d - 53) - 53)%Z with (-54)%Z by lia.
  reflexivity.
Qed.

Section EvenSplit.

Variable self : DecisionTree.

Lemma classCounts_even (l : list nat) :
  (Z.of_nat (List.length l) <= INT_MAX)%Z ->
  l <> [] ->
  (forall idx, In idx l -> (2 * class_count self (classOf self idx) l = List.length l)%nat) ->
  exists c1 c2 h,
    classCounts self l = [(c1, h); (c2, h)]
    /\ (0 < h)%Z /\ Z.of_nat (List.length l) = (2 * h)%Z.
Proof.
  intros Hlen Hne Heven.
  set (n := List.length l) in *.
  assert (Hn : (0 < n)%nat) by (unfold n; destruct l; [contradiction|simpl; lia]).
  set (h := Z.of_nat (n / 2)).
  assert (Hentries : forall p, In p (classCounts self l) -> snd p = h /\ (2 * h = Z.of_nat n)%Z).
  { intros [c k] Hin. apply classCounts_In in Hin; [|exact Hlen].
    destruct Hin as [-> Hpos]. apply class_count_pos in Hpos.
    destruct Hpos as (idx & Hidx & Hc). pose proof (Heven idx Hidx) as He.
    rewrite Hc in He. fold n in He. cbn [snd]. unfold h. rewrite <- He.
    rewrite Nat.mul_comm, Nat.div_mul by lia. lia. }
  assert (Hfirst : exists p, In p (classCounts self l)).
  { destruct l as [|i l']; [contradiction|].
    exists (classOf self i, Z.of_nat (class_count self (classOf self i) (i :: l'))).
    apply classCounts_In; [exact Hlen|]. split; [reflexivity|].
    apply class_count_pos. exists i. split; [left|]; reflexivity. }
  destruct Hfirst as (p0 & Hp0). destruct (Hentries p0 Hp0) as [_ Hh].
  assert (Hh0 : (0 < h)%Z) by lia.
  pose proof (classCounts_weighted_sum self (fun _ => 1%R) l Hlen) as Hsum.
  cbv beta in Hsum. rewrite Rsum_map_const in Hsum. fold n in Hsum.
  rewrite (Rsum_map_ext _ (fun _ => IZR h)) in Hsum.
  2:{ intros p Hp. destruct (Hentries p Hp) as [-> _]. lra. }
  rewrite Rsum_map_const in Hsum.
  assert (Hcount : List.length (classCounts self l) = 2%nat).
  { assert (HR : (INR (List.length (classCounts self l)) * IZR h = 2 * IZR h)%R).
    { rewrite Hsum. rewrite Rmult_1_r. rewrite INR_IZR_INZ, <- Hh, mult_IZR. reflexivity. }
    assert (Hpos : (0 < IZR h)%R) by (apply IZR_lt; exact Hh0).
    assert (H2 : INR (List.length (classCounts self l)) = INR 2).
    { simpl INR. apply (Rmult_eq_reg_r (IZR h)); [|lra]. lra. }
    apply INR_eq in H2. exact H2. }
  destruct (classCounts self l) as [|[c1 k1] [|[c2 k2] [|r rest]]]; try discriminate Hcount.
  exists c1, c2, h.
  destruct (Hentries (c1, k1) (or_introl eq_refl)) as [E1 _].
  destruct (Hentries (c2, k2) (or_intror (or_introl eq_refl))) as [E2 _].
  cbn [snd] in E1, E2. subst k1 k2. split; [reflexivity|]. split; [exact Hh0|lia].
Qed.

End EvenSplit.

(** ** The order of binary64 *)

Ltac sf_compare :=
  unfold SFltb, SFeqb, SFcompare; intros;
  repeat match goal with
         | H : context [Z.compare ?a ?b] |- _ =>
             destruct (Z.compare_spec a b); try discriminate
         | |- context [Z.compare ?a ?b] =>
             destruct (Z.compare_spec a b); try discriminate
         | H : context [Pos.compare_cont Eq ?a ?b] |- _ =>
             change (Pos.compare_cont Eq a b) with (Pos.compare a b) in H;
             destruct (Pos.compare_spec a b); try discriminate
         | |- context [Pos.compare_cont Eq ?a ?b] =>
             change (Pos.compare_cont Eq a b) with (Pos.compare a b);
             destruct (Pos.compare_spec a b); try discriminate
         end;
  cbn [CompOpp] in *; try discriminate; try reflexivity; try lia.

Lemma SFltb_irrefl (x : spec_float) : SFltb x x = false.
Proof. destruct x as [[|]|[|]| |[|] m e]; sf_compare. Qed.

Lemma SFltb_trans (x y z : spec_float) :
  SFltb x y = true -> SFltb y z = true -> SFltb x z = true.
Proof.
  destruct x as [[|]|[|]| |[|] m1 e1], y as [[|]|[|]| |[|] m2 e2],
    z as [[|]|[|]| |[|] m3 e3]; sf_compare.
Qed.

Lemma SFltb_le_lt (b x g : spec_float) :
  SFltb b g = true -> SFltb b x = false -> SFltb x g = true \/ x = S754_nan.
Proof.
  destruct x as [[|]|[|]| |[|] m1 e1]; try (intros; right; reflexivity);
    destruct b as [[|]|[|]| |[|] m2 e2], g as [[|]|[|]| |[|] m3 e3];
    intros H1 H2; left; revert H1 H2; sf_compare.
Qed.

Lemma float_gt_irrefl (x : float) : (x <? x)%float = false.
Proof. rewrite FloatAxioms.ltb_spec. apply SFltb_irrefl. Qed.

Lemma float_gt_trans (x y z : float) :
  (y <? x)%float = true -> (z <? y)%float = true -> (z <? x)%float = true.
Proof.
  rewrite !FloatAxioms.ltb_spec. intros H1 H2. exact (SFltb_trans _ _ _ H2 H1).
Qed.

Lemma float_le_lt (b x g : float) :
  (b <? g)%float = true -> (b <? x)%float = false ->
  (x <? g)%float = true \/ (x =? x)%float = false.
Proof.
  rewrite !FloatAxioms.ltb_spec, FloatAxioms.eqb_spec. intros H1 H2.
  destruct (SFltb_le_lt _ _ _ H1 H2) as [H | H]; [left; exact H|right].
  rewrite H. reflexivity.
Qed.

(** ** The feature [findBestFeature] returns, for an ordered [double] *)

Section FirstMaximum.

Context {D : Type} {ops : DoubleOps D}.
Variable undefined : D -> Prop.
Hypothesis dgt_irrefl : forall x, dgt x x = false.
Hypothesis dgt_trans :
  forall x y z, dgt x y = true -> dgt y z = true -> dgt x z = true.
Hypothesis dgt_le_lt :
  forall b x g, dgt g b = true -> dgt x b = false -> dgt g x = true \/ undefined x.

Variable self : DecisionTree.
Variables (indices : list nat) (used : list string).

Let gain (h : string) : D := calculateInformationGain self indices h.

Lemma best_step_first_maximum (hs : list string) (best : string * D) :
  let r := fold_left (best_step self indices used) hs best in
  (snd r = snd best \/ dgt (snd r) (snd best) = true)
  /\ (forall h, In h hs -> eligible self used h = true -> dgt (gain h) (snd r) = false)
  /\ (r = best
      \/ exists pre post,
          hs = pre ++ fst r :: post
          /\ eligible self used (fst r) = true
          /\ snd r = gain (fst r)
          /\ dgt (snd r) (snd best) = true
          /\ forall h, In h pre -> eligible self used h = true ->
                       dgt (snd r) (gain h) = true \/ undefined (gain h)).
Proof.
  revert best. induction hs as [|h hs IH]; intros best; cbn zeta.
  - split; [left; reflexivity|]. split; [intros h []|left; reflexivity].
  - cbn [fold_left].
    set (b1 := best_step self indices used best h).
    assert (Hb1 : (b1 = best
                   /\ (eligible self used h = true -> dgt (gain h) (snd best) = false))
                  \/ (b1 = (h, gain h) /\ eligible self used h = true
                      /\ dgt (gain h) (snd best) = true)).
    { unfold b1, best_step. destruct (eligible self used h) eqn:He.
      - cbv zeta. fold (gain h). destruct (dgt (gain h) (snd best)) eqn:Hg.
        + right. auto.
        + left. auto.
      - left. split; [reflexivity|discriminate]. }
    destruct (IH b1) as (Hmono & Hmax & Hshape). clearbody b1.
    set (r := fold_left (best_step self indices used) hs b1) in *. clearbody r.
    assert (Hmono' : snd r = snd best \/ dgt (snd r) (snd best) = true).
    { destruct Hb1 as [[-> _] | (-> & _ & Hg)]; [exact Hmono|]. cbn [snd] in Hmono.
      right. destruct Hmono as [-> | Hm]; [exact Hg|].
      exact (dgt_trans _ _ _ Hm Hg). }
    split; [exact Hmono'|]. split.
    + intros h' [<- | Hin] He; [|apply Hmax; assumption].
      destruct (dgt (gain h) (snd r)) eqn:Hc; [exfalso|reflexivity].
      destruct Hb1 as [[-> Hnot] | (-> & _ & Hg)].
      * specialize (Hnot He). destruct Hmono as [Hm | Hm].
        -- rewrite Hm in Hc. congruence.
        -- pose proof (dgt_trans _ _ _ Hc Hm). congruence.
      * cbn [snd] in Hmono. destruct Hmono as [Hm | Hm].
        -- rewrite Hm, dgt_irrefl in Hc. discriminate.
        -- pose proof (dgt_trans _ _ _ Hc Hm) as Hx. rewrite dgt_irrefl in Hx. discriminate.
    + destruct Hshape as [Hr | (pre & post & Ehs & He & Hv & Hgt & Hpre)].
      * destruct Hb1 as [[-> _] | (Eb & He & Hg)]; [left; exact Hr|].
        right. exists [], hs. rewrite Hr, Eb. cbn [fst snd app].
        split; [reflexivity|]. split; [exact He|]. split; [reflexivity|].
        split; [exact Hg|]. intros h' [].
      * right. exists (h :: pre), post. split; [cbn [app]; rewrite <- Ehs; reflexivity|].
        split; [exact He|]. split; [exact Hv|].
        assert (Hgt' : dgt (snd r) (snd best) = true).
        { destruct Hb1 as [[-> _] | (-> & _ & Hg)]; [exact Hgt|].
          cbn [snd] in Hgt. exact (dgt_trans _ _ _ Hgt Hg). }
        split; [exact Hgt'|].
        intros h' [<- | Hin] Heh; [|apply Hpre; assumption].
        destruct Hb1 as [[-> Hnot] | (-> & _ & Hg)].
        -- apply (dgt_le_lt (snd best)); [exact Hgt|apply Hnot; exact Heh].
        -- left. exact Hgt.
Qed.

Lemma findBestFeature_first_max :
  (exists h, In h (headers self) /\ eligible self used h = true
             /\ dgt (gain h) (of_int (-1)) = true) ->
  exists pre post,
    headers self = pre ++ findBestFeature self indices used :: post
    /\ eligible self used (findBestFeature self indices used) = true
    /\ dgt (gain (findBestFeature self indices used)) (of_int (-1)) = true
    /\ (forall h, In h (headers self) -> eligible self used h = true ->
                  dgt (gain h) (gain (findBestFeature self indices used)) = false)
    /\ (forall h, In h pre -> eligible self used h = true ->
                  dgt (gain (findBestFeature self indices used)) (gain h) = true
                  \/ undefined (gain h)).
Proof.
  intros (h0 & Hin0 & He0 & Hg0). unfold findBestFeature.
  destruct (best_step_first_maximum (headers self) ("", of_int (-1)))
    as (_ & Hmax & Hshape).
  set (r := fold_left (best_step self indices used) (headers self) ("", of_int (-1))) in *.
  destruct Hshape as [Hr | (pre & post & Eh & He & Hv & Hgt & Hpre)].
  - exfalso. pose proof (Hmax h0 Hin0 He0) as Hc. rewrite Hr in Hc. cbn [snd] in Hc.
    congruence.
  - exists pre, post. cbn [snd] in Hgt. rewrite <- Hv.
    split; [exact Eh|]. split; [exact He|]. split; [exact Hgt|].
    split; [exact Hmax|exact Hpre].
Qed.

End FirstMaximum.

(** * The claims *)

(** C1 (as the code has it).  At an inner node of a built tree, [predict]
    returns the label "Unknown" (capital U) when the instance lacks the
    node's feature, returns "Unknown" when the instance's value for the
    feature equals no child's edge value (exact, case-sensitive string
    equality), and otherwise continues in the child whose edge value is
    the instance's value, which is the only such child. *)
Theorem predict_inner_node {D : Type} {ops : DoubleOps D} (self : DecisionTree)
  (indices : list nat) (used : list string) (node : TreeNode)
  (instance : StdMap.t string) :
  In node (nodes (buildTree self indices used)) ->
  isLeaf node = false ->
  (StdMap.find (feature node) instance = None ->
   predict node instance = "Unknown")
  /\ (forall v, StdMap.find (feature node) instance = Some v ->
                matching v node = [] ->
                predict node instance = "Unknown")
  /\ (forall v child, StdMap.find (feature node) instance = Some v ->
                      In child (children node) -> value child = v ->
                      matching v node = [child]
                      /\ predict node instance = predict child instance).
Proof.
  intros Hnode Hleaf. split; [|split].
  - intros Hf. apply predict_absent; assumption.
  - intros v Hf Hm. eapply predict_unseen; eassumption.
  - intros v child Hf Hin Hv.
    pose proof (buildTree_edges_NoDup self indices used node Hnode) as Hnd.
    pose proof (matching_unique v node child Hnd Hin Hv) as Hm.
    split; [exact Hm|]. eapply predict_descend; eassumption.
Qed.

(** The theorem at the root of the tree built from [two_rows]. *)
Lemma predict_inner_node_witness :
  In two_rows_tree (nodes (buildTree (ops := B64) two_rows [0; 1] []))
  /\ isLeaf two_rows_tree = false
  /\ predict two_rows_tree [] = "Unknown"
  /\ predict two_rows_tree [("f", "c")] = "Unknown"
  /\ predict two_rows_tree [("f", "a")] = predict (leaf_node "no") [("f", "a")].
Proof.
  assert (Hin : In two_rows_tree (nodes (buildTree (ops := B64) two_rows [0; 1] []))).
  { rewrite nodes_unfold. left. reflexivity. }
  assert (Hleaf : isLeaf two_rows_tree = false) by (vm_compute; reflexivity).
  split; [exact Hin|]. split; [exact Hleaf|].
  split; [|split].
  - apply (proj1 (predict_inner_node two_rows [0; 1] [] two_rows_tree [] Hin Hleaf)).
    reflexivity.
  - apply (proj1 (proj2 (predict_inner_node two_rows [0; 1] [] two_rows_tree
                           [("f", "c")] Hin Hleaf)) "c");
      vm_compute; reflexivity.
  - destruct (proj2 (proj2 (predict_inner_node two_rows [0; 1] [] two_rows_tree
                              [("f", "a")] Hin Hleaf))
                "a" (set_value "a" (leaf_node "no"))) as [_ Hp];
      [vm_compute; reflexivity | vm_compute; left; reflexivity | reflexivity |].
    rewrite Hp. apply predict_set_value.
Defined.

(** C1, as stated, fails: the label returned for a missing feature is
    "Unknown", which is not the string "unknown". *)
Lemma predict_label_not_lowercase :
  isLeaf two_rows_tree = false
  /\ StdMap.find (feature two_rows_tree) [] = (None : option string)
  /\ predict two_rows_tree [] = "Unknown"
  /\ predict two_rows_tree [] <> "unknown".
Proof.
  repeat split; try (vm_compute; reflexivity).
  vm_compute. discriminate.
Qed.

(** C2 (as the code has it).  For a non-empty, non-pure subset on which
    [findBestFeature] selects a feature (a non-empty name), [buildTree]
    returns an inner node on that feature whose children are, one per
    distinct value of the feature over the subset, the trees built from
    the rows holding that value with the feature added to the used ones;
    the (edge value, child) pairs are stored in ascending byte-wise
    lexicographic order of the edge values (the iteration order of
    [std::map]), not in first-encountered order. *)
Theorem buildTree_children_ascending {D : Type} {ops : DoubleOps D}
  (self : DecisionTree) (indices : list nat) (used : list string) :
  indices <> [] ->
  allSameClass self indices = false ->
  str_empty (findBestFeature self indices used) = false ->
  let f := findBestFeature self indices used in
  let col := getColumnIndex self f in
  let node := buildTree self indices used in
  isLeaf node = false
  /\ feature node = f
  /\ StronglySorted str_lt (map value (children node))
  /\ (forall v, In v (map value (children node)) <->
                exists idx, In idx indices /\ cell self idx col = v)
  /\ children node =
       map (fun v =>
              set_value v
                (buildTree self (with_value self col v indices) (set_insert f used)))
         (map value (children node)).
Proof.
  intros Hne Hsame Hfound f col node.
  unfold node. rewrite (buildTree_split self indices used Hne Hsame Hfound).
  fold f. simpl. rewrite built_children_values. fold col.
  split; [reflexivity|]. split; [reflexivity|]. split; [|split].
  - apply groupBy_ordered.
  - intros v. apply groupBy_keys.
  - apply built_children_by_value.
Qed.

(** The theorem at [two_rows]. *)
Lemma buildTree_children_ascending_witness :
  [0; 1] <> ([] : list nat)
  /\ allSameClass two_rows [0; 1] = false
  /\ str_empty (findBestFeature (ops := B64) two_rows [0; 1] []) = false
  /\ isLeaf two_rows_tree = false
  /\ StronglySorted str_lt (map value (children two_rows_tree)).
Proof.
  assert (H1 : [0; 1] <> ([] : list nat)) by discriminate.
  assert (H2 : allSameClass two_rows [0; 1] = false) by (vm_compute; reflexivity).
  assert (H3 : str_empty (findBestFeature (ops := B64) two_rows [0; 1] []) = false)
    by (vm_compute; reflexivity).
  pose proof (buildTree_children_ascending (ops := B64) two_rows [0; 1] [] H1 H2 H3) as H.
  cbv zeta in H. destruct H as (Hleaf & _ & Hsorted & _).
  repeat split; assumption.
Defined.

(** C2, as stated, fails: the rows hold "b" then "a" in the feature
    column, so the first-encountered order of the values is b, a, while
    the children are stored in the order a, b. *)
Lemma children_not_in_encounter_order :
  allSameClass two_rows [0; 1] = false
  /\ eligible two_rows [] "f" = true
  /\ feature two_rows_tree = "f"
  /\ map value (children two_rows_tree) = ["a"; "b"]
  /\ firstEncounteredValues two_rows (getColumnIndex two_rows "f") [0; 1] = ["b"; "a"]
  /\ map value (children two_rows_tree)
     <> firstEncounteredValues two_rows (getColumnIndex two_rows "f") [0; 1].
Proof.
  repeat split; try (vm_compute; reflexivity).
  vm_compute. discriminate.
Qed.

(** C3 (as the code has it).  For a non-empty, non-pure subset with no
    eligible feature left, [buildTree] returns a leaf whose label is a
    class of maximal frequency in the subset; among equally frequent
    classes the label is the smallest in byte-wise lexicographic order
    (the counts are scanned in the key order of [std::map]), not the
    class encountered first. *)
Theorem buildTree_majority_leaf {D : Type} {ops : DoubleOps D}
  (self : DecisionTree) (indices : list nat) (used : list string) :
  indices <> [] ->
  (Z.of_nat (List.length indices) <= INT_MAX)%Z ->
  allSameClass self indices = false ->
  (forall h, In h (headers self) -> eligible self used h = false) ->
  exists lbl,
    buildTree self indices used = leaf_node lbl
    /\ 0 < class_count self lbl indices
    /\ (forall c, class_count self c indices <= class_count self lbl indices)
    /\ (forall c, class_count self c indices = class_count self lbl indices ->
                  c = lbl \/ str_lt lbl c).
Proof.
  intros Hne Hlen Hsame Hnone.
  exists (getMostCommonClass self indices). split.
  - rewrite buildTree_body. destruct indices as [|first rest]; [contradiction|].
    rewrite Hsame. cbv zeta.
    rewrite (findBestFeature_none self (first :: rest) used Hnone). reflexivity.
  - apply getMostCommonClass_majority; assumption.
Qed.

(** The theorem at [tie_rows]. *)
Lemma buildTree_majority_leaf_witness :
  [0; 1] <> ([] : list nat)
  /\ (Z.of_nat (List.length [0; 1]) <= INT_MAX)%Z
  /\ allSameClass tie_rows [0; 1] = false
  /\ (forall h, In h (headers tie_rows) -> eligible tie_rows [] h = false)
  /\ exists lbl,
      buildTree (ops := B64) tie_rows [0; 1] [] = leaf_node lbl
      /\ 0 < class_count tie_rows lbl [0; 1]
      /\ (forall c, class_count tie_rows c [0; 1] <= class_count tie_rows lbl [0; 1])
      /\ (forall c, class_count tie_rows c [0; 1] = class_count tie_rows lbl [0; 1] ->
                    c = lbl \/ str_lt lbl c).
Proof.
  assert (H1 : [0; 1] <> ([] : list nat)) by discriminate.
  assert (H2 : (Z.of_nat (List.length [0; 1]) <= INT_MAX)%Z) by (vm_compute; discriminate).
  assert (H3 : allSameClass tie_rows [0; 1] = false) by (vm_compute; reflexivity).
  assert (H4 : forall h, In h (headers tie_rows) -> eligible tie_rows [] h = false).
  { intros h [<- | []]. vm_compute. reflexivity. }
  repeat (split; [assumption|]).
  exact (buildTree_majority_leaf (ops := B64) tie_rows [0; 1] [] H1 H2 H3 H4).
Defined.

(** C3, as stated, fails: the classes "b" and "a" occur once each and
    "b" is encountered first, yet the leaf is labelled "a". *)
Lemma majority_tie_not_first_encountered :
  allSameClass tie_rows [0; 1] = false
  /\ unused tie_rows [] = 0
  /\ class_count tie_rows "a" [0; 1] = class_count tie_rows "b" [0; 1]
  /\ firstEncounteredMajority tie_rows [0; 1] = "b"
  /\ buildTree (ops := B64) tie_rows [0; 1] [] = leaf_node "a"
  /\ prediction (buildTree (ops := B64) tie_rows [0; 1] [])
     <> firstEncounteredMajority tie_rows [0; 1].
Proof.
  repeat split; try (vm_compute; reflexivity).
  vm_compute. discriminate.
Qed.

(** C8.  [buildTree] is defined by well-founded recursion on the number
    of header columns still eligible ([unused]), so it returns a tree
    for every subset and every set of used features: each recursive
    call is made with one more used feature, which strictly lowers that
    number.  The call stops with a leaf when the subset is empty or
    pure or no eligible feature remains, and the depth of the tree is at
    most the number of eligible columns, hence at most the number of
    feature columns. *)
Theorem buildTree_terminates_depth_bounded {D : Type} {ops : DoubleOps D}
  (self : DecisionTree) (indices : list nat) (used : list string) :
  (exists t, buildTree self indices used = t
             /\ depth t <= unused self used
             /\ unused self used <= List.length (featureColumns self))
  /\ (str_empty (findBestFeature self indices used) = false ->
      unused self (set_insert (findBestFeature self indices used) used)
      < unused self used)
  /\ (indices = [] \/ allSameClass self indices = true \/ unused self used = 0 ->
      isLeaf (buildTree self indices used) = true).
Proof.
  split; [|split].
  - exists (buildTree self indices used).
    split; [reflexivity|]. split.
    + apply buildTree_depth.
    + apply unused_le_featureColumns.
  - intros Hfound.
    destruct (findBestFeature_eligible self indices used) as [He | [Hin He]].
    + rewrite He in Hfound. discriminate.
    + apply unused_insert; assumption.
  - intros H. rewrite buildTree_body.
    destruct indices as [|first rest]; [reflexivity|].
    destruct H as [H | [H | H]]; [discriminate| |].
    + rewrite H. reflexivity.
    + destruct (allSameClass self (first :: rest)); [reflexivity|].
      cbv zeta. rewrite (findBestFeature_none self (first :: rest) used).
      * reflexivity.
      * apply unused_zero. exact H.
Qed.

(** C9.  In a built tree no feature occurs twice on a path from the root
    to a leaf, and no feature on a path was already used when the tree
    was built.  The used-features set is passed by value: every child of
    an inner node is the tree built from its own rows with the set
    received by the parent extended by the parent's feature, whatever
    its siblings are. *)
Theorem buildTree_paths_distinct {D : Type} {ops : DoubleOps D}
  (self : DecisionTree) (indices : list nat) (used : list string) :
  let node := buildTree self indices used in
  Forall (@NoDup string) (paths node)
  /\ Forall (Forall (fun f => set_mem f used = false)) (paths node)
  /\ Forall (fun child =>
               child =
                 set_value (value child)
                   (buildTree self
                      (with_value self (getColumnIndex self (feature node))
                         (value child) indices)
                      (set_insert (feature node) used)))
       (children node).
Proof.
  cbv zeta. split; [|split].
  - apply Forall_forall. intros p Hp.
    apply (buildTree_paths_fresh self indices used p Hp).
  - apply Forall_forall. intros p Hp. apply Forall_forall. intros f Hf.
    apply (proj2 (buildTree_paths_fresh self indices used p Hp) f Hf).
  - rewrite buildTree_body.
    destruct indices as [|first rest]; [constructor|].
    destruct (allSameClass self (first :: rest)); [constructor|].
    cbv zeta.
    destruct (str_empty (findBestFeature self (first :: rest) used)); [constructor|].
    simpl children. simpl feature.
    apply Forall_forall. intros child Hin.
    apply built_children_In in Hin. destruct Hin as (g & Hc & Hg & _).
    rewrite <- Hg. exact Hc.
Qed.

(** C10.  At every inner node of a built tree the edge values stored on
    the children are pairwise distinct, so for any value at most one
    child matches at prediction time. *)
Theorem buildTree_edges_distinct {D : Type} {ops : DoubleOps D}
  (self : DecisionTree) (indices : list nat) (used : list string) :
  Forall (fun node =>
            NoDup (map value (children node))
            /\ forall v, List.length (matching v node) <= 1)
    (nodes (buildTree self indices used)).
Proof.
  apply Forall_forall. intros node Hnode.
  pose proof (buildTree_edges_NoDup self indices used node Hnode) as Hnd.
  split; [exact Hnd|]. intros v. apply matching_le_one. exact Hnd.
Qed.

(** In binary64 the gain of the feature of [nine_pairs] is [-2^-52],
    whatever [log2] is away from [0.5], provided [log2(0.5) = -1]: the
    parent entropy is exactly 1, every group has entropy exactly 1, and
    the nine weights [2/18] add up to [1 + 2^-52]. *)
Lemma nine_pairs_gain_binary64 (log2 : float -> float) :
  log2 0.5%float = (-1)%float ->
  calculateInformationGain (ops := Binary64 log2) nine_pairs (seq 0 18) "f"
  = (-0x1p-52)%float.
Proof.
  intros H. vm_compute. rewrite !H. vm_compute. reflexivity.
Qed.

(** C6, as stated, fails on [double]: on [nine_pairs] the value
    [calculateInformationGain] computes is [-2^-52], below [0.0]. *)
Lemma gain_negative_in_binary64 :
  calculateInformationGain (ops := B64) nine_pairs (seq 0 18) "f" = (-0x1p-52)%float
  /\ PrimFloat.ltb (calculateInformationGain (ops := B64) nine_pairs (seq 0 18) "f") 0
     = true.
Proof.
  unfold B64.
  rewrite (nine_pairs_gain_binary64 log2_pow2) by (vm_compute; reflexivity).
  split; [reflexivity|vm_compute; reflexivity].
Qed.

(** C6 (as the code has it).  For every subset (of at most [INT_MAX]
    rows) and every feature, the information gain, that is the entropy
    of the subset minus the size-weighted sum of the entropies of the
    groups of the partition by the feature's value, is at least 0 when
    the formula of [calculateInformationGain] is evaluated in exact real
    arithmetic. *)
Theorem calculateInformationGain_nonneg_exact (self : DecisionTree)
  (indices : list nat) (feature : string) :
  (Z.of_nat (List.length indices) <= INT_MAX)%Z ->
  (0 <= calculateInformationGain (ops := Exact) self indices feature)%R.
Proof. apply calculateInformationGain_exact_nonneg. Qed.

(** The theorem at [nine_pairs]: in exact arithmetic its gain is not
    negative. *)
Lemma calculateInformationGain_nonneg_exact_witness :
  (Z.of_nat (List.length (seq 0 18)) <= INT_MAX)%Z
  /\ (0 <= calculateInformationGain (ops := Exact) nine_pairs (seq 0 18) "f")%R.
Proof.
  assert (H : (Z.of_nat (List.length (seq 0 18)) <= INT_MAX)%Z)
    by (vm_compute; discriminate).
  split; [exact H|].
  exact (calculateInformationGain_nonneg_exact nine_pairs (seq 0 18) "f" H).
Defined.

(** C7.  In binary64, for every [log2] that is [0.0] at [1.0] and at
    most [-2^-53] at the arguments between [0.0] and [1.0] (the largest
    double below [1.0] has the logarithm [-1.6e-16]), the entropy
    [calculateEntropy] computes for a subset of at most [INT_MAX] rows is
    at least [0.0]; it is the literal [0.0] for the empty subset; and it
    compares equal to [0.0] exactly when the subset is empty or all its
    rows have the same class. *)
Theorem calculateEntropy_nonneg_zero_iff_pure (log2 : float -> float)
  (self : DecisionTree) (indices : list nat) :
  log2 1%float = 0%float ->
  (forall x : float,
      (0 <? x)%float = true -> (x <? 1)%float = true ->
      (log2 x <=? -0x1p-53)%float = true) ->
  (Z.of_nat (List.length indices) <= INT_MAX)%Z ->
  (0 <=? calculateEntropy (ops := Binary64 log2) self indices)%float = true
  /\ calculateEntropy (ops := Binary64 log2) self [] = 0%float
  /\ ((calculateEntropy (ops := Binary64 log2) self indices =? 0)%float = true <->
      indices = [] \/
      (forall i j, In i indices -> In j indices -> classOf self i = classOf self j)).
Proof.
  intros Hone Hbelow Hlen.
  pose proof (calculateEntropy_binary64_pure log2 Hone self indices Hlen) as Hpure.
  pose proof (calculateEntropy_binary64_mixed log2 Hbelow self indices Hlen) as Hmixed.
  assert (Hiff : allSameClass self indices = true <->
                 indices = [] \/
                 (forall i j, In i indices -> In j indices ->
                              classOf self i = classOf self j)).
  { rewrite allSameClass_true. split; [auto|].
    intros [-> | H]; [intros i j []|exact H]. }
  destruct (allSameClass self indices) eqn:Hs.
  - rewrite (Hpure eq_refl). split; [reflexivity|]. split; [reflexivity|].
    split; [intros _; apply Hiff; reflexivity|reflexivity].
  - destruct (sf_pos_compare _ (Hmixed eq_refl)) as (Hle & Hne & _).
    split; [exact Hle|]. split; [reflexivity|].
    rewrite Hne. split; [discriminate|].
    intros H. apply Hiff in H. discriminate.
Qed.

(** The theorem at [two_rows], with the stand-in [log2_coarse]: two
    rows of different classes have a positive entropy. *)
Lemma calculateEntropy_nonneg_zero_iff_pure_witness :
  log2_coarse 1%float = 0%float
  /\ (forall x : float,
        (0 <? x)%float = true -> (x <? 1)%float = true ->
        (log2_coarse x <=? -0x1p-53)%float = true)
  /\ (Z.of_nat (List.length [0%nat; 1%nat]) <= INT_MAX)%Z
  /\ (0 <=? calculateEntropy (ops := Binary64 log2_coarse) two_rows [0%nat; 1%nat])%float = true
  /\ (calculateEntropy (ops := Binary64 log2_coarse) two_rows [0%nat; 1%nat] =? 0)%float = false.
Proof.
  assert (H : (Z.of_nat (List.length [0%nat; 1%nat]) <= INT_MAX)%Z) by (vm_compute; discriminate).
  destruct (calculateEntropy_nonneg_zero_iff_pure log2_coarse two_rows [0%nat; 1%nat]
              log2_coarse_one log2_coarse_below_one H) as (Hnn & _ & Hz).
  split; [exact log2_coarse_one|]. split; [exact log2_coarse_below_one|].
  split; [exact H|]. split; [exact Hnn|].
  destruct (calculateEntropy (ops := Binary64 log2_coarse) two_rows [0%nat; 1%nat] =? 0)%float eqn:He;
    [|reflexivity].
  exfalso. destruct (proj1 Hz eq_refl) as [Hnil | Hsame]; [discriminate|].
  specialize (Hsame 0%nat 1%nat (or_introl eq_refl) (or_intror (or_introl eq_refl))).
  vm_compute in Hsame. discriminate.
Defined.

(** On [unnamed_column] the only eligible column is the one named by the
    empty string, so the name [findBestFeature] returns is empty whether
    or not the loop assigns it, in every arithmetic. *)
Lemma unnamed_column_best {D : Type} {ops : DoubleOps D} :
  findBestFeature unnamed_column [0; 1] [] = "".
Proof.
  unfold findBestFeature.
  change (headers unnamed_column) with [""; "y"].
  cbn [fold_left].
  unfold best_step at 2.
  change (eligible unnamed_column [] "") with true. cbv iota zeta.
  match goal with
  | |- context [dgt ?a ?b] => destruct (dgt a b)
  end; reflexivity.
Qed.

(** C4, at a header row with an empty cell.  The first column is named
    by the empty string; it is a header column, it is not the target and
    it is not used, so it is eligible, and it is the only such column.
    [findBestFeature] returns the empty string, the value it also
    returns when no column is eligible, and [buildTree] answers with a
    leaf as if no feature were left.  This holds in every arithmetic. *)
Lemma findBestFeature_empty_name {D : Type} {ops : DoubleOps D} :
  loadCSV [",y"; "0,yes"; "1,no"] "y" = unnamed_column
  /\ In "" (headers unnamed_column)
  /\ eligible unnamed_column [] "" = true
  /\ unused unnamed_column [] = 1
  /\ allSameClass unnamed_column [0; 1] = false
  /\ findBestFeature unnamed_column [0; 1] [] = ""
  /\ isLeaf (buildTree unnamed_column [0; 1] []) = true.
Proof.
  split; [reflexivity|]. split; [left; reflexivity|].
  split; [reflexivity|]. split; [reflexivity|]. split; [reflexivity|].
  split; [apply unnamed_column_best|].
  rewrite buildTree_body.
  change (allSameClass unnamed_column [0; 1]) with false.
  cbv iota zeta. rewrite unnamed_column_best. reflexivity.
Qed.

(** C5, at the same dataset.  The first column determines the class
    (its values differ from row to row), training succeeds, and the tree
    is a single leaf labelled "no": the instance that reproduces row 0
    is classified "no" although the class of row 0 is "yes".  This holds
    in every arithmetic. *)
Lemma train_empty_name_mispredicts {D : Type} {ops : DoubleOps D} :
  determines unnamed_column ""
  /\ In "" (featureColumns unnamed_column)
  /\ (exists tree,
        train unnamed_column = Some tree
        /\ root tree = Some (leaf_node "no")
        /\ predictInstance (root tree) (instance_of_row unnamed_column 0) = "no")
  /\ classOf unnamed_column 0 = "yes".
Proof.
  split; [|split; [|split]].
  - intros i j Hi Hj. simpl in Hi, Hj.
    assert (Ei : i = 0%nat \/ i = 1%nat) by lia.
    assert (Ej : j = 0%nat \/ j = 1%nat) by lia.
    destruct Ei as [-> | ->], Ej as [-> | ->]; vm_compute; congruence.
  - left. reflexivity.
  - assert (Etree : buildTree unnamed_column [0; 1] [] = leaf_node "no").
    { rewrite buildTree_body.
      change (allSameClass unnamed_column [0; 1]) with false.
      cbv iota zeta. rewrite unnamed_column_best. reflexivity. }
    exists (mkDecisionTree (data unnamed_column) (headers unnamed_column)
              (targetColumn unnamed_column) (Some (leaf_node "no"))).
    split; [|split; reflexivity].
    unfold train. simpl data. simpl List.length.
    change (getColumnIndex unnamed_column (targetColumn unnamed_column) =? -1)%Z
      with false.
    cbv iota. change (seq 0 2) with [0; 1]. rewrite Etree. reflexivity.
  - reflexivity.
Qed.

(** * Further properties of the code *)

(** ** Column lookup and [train] *)

Lemma index_of_Some (x : string) (l : list string) (i : nat) :
  index_of x l = Some i ->
  nth_error l i = Some x
  /\ forall j, j < i -> nth_error l j <> Some x.
Proof.
  revert i. induction l as [|y l IH]; simpl; intros i; [discriminate|].
  destruct (String.eqb y x) eqn:He.
  - intros [= <-]. apply String.eqb_eq in He. subst y.
    split; [reflexivity|intros j Hj; lia].
  - destruct (index_of x l) as [k|]; [|discriminate].
    intros [= <-]. destruct (IH k eq_refl) as [Hn Hfirst].
    split; [exact Hn|].
    intros [|j] Hj; simpl.
    + intros [= ->]. rewrite String.eqb_refl in He. discriminate.
    + apply Hfirst. lia.
Qed.

Lemma index_of_None (x : string) (l : list string) :
  index_of x l = None <-> ~ In x l.
Proof.
  induction l as [|y l IH]; simpl.
  - split; [intros _ []|reflexivity].
  - destruct (String.eqb y x) eqn:He.
    + apply String.eqb_eq in He. subst y. split; [discriminate|].
      intros H. exfalso. apply H. left. reflexivity.
    + apply String.eqb_neq in He.
      destruct (index_of x l) as [k|].
      * split; [discriminate|]. intros H. exfalso.
        assert (Hn : ~ In x l) by (intros Hin; apply H; right; exact Hin).
        apply IH in Hn. discriminate.
      * split; [|reflexivity]. intros _ [Hy | Hin]; [contradiction|].
        apply (proj1 IH eq_refl). exact Hin.
Qed.

Lemma getColumnIndex_spec (self : DecisionTree) (columnName : string) :
  (Z.of_nat (List.length (headers self)) <= INT_MAX)%Z ->
  (getColumnIndex self columnName = (-1)%Z <-> ~ In columnName (headers self))
  /\ (In columnName (headers self) ->
      exists i,
        getColumnIndex self columnName = Z.of_nat i
        /\ nth_error (headers self) i = Some columnName
        /\ forall j, j < i -> nth_error (headers self) j <> Some columnName).
Proof.
  intros Hlen. unfold getColumnIndex.
  destruct (index_of columnName (headers self)) as [i|] eqn:Hi.
  - destruct (index_of_Some _ _ _ Hi) as [Hn Hfirst].
    assert (Hlt : i < List.length (headers self)).
    { apply nth_error_Some. rewrite Hn. discriminate. }
    rewrite wrap32_small by (unfold INT_MAX in *; lia).
    split.
    + split; [lia|]. intros Hnot. exfalso. apply Hnot.
      eapply nth_error_In. exact Hn.
    + intros _. exists i. auto.
  - apply index_of_None in Hi. split; [tauto|]. intros Hin. contradiction.
Qed.

Lemma train_spec {D : Type} {ops : DoubleOps D} (loaded : DecisionTree) :
  (Z.of_nat (List.length (headers loaded)) <= INT_MAX)%Z ->
  (train loaded = None <->
   data loaded = [] \/ ~ In (targetColumn loaded) (headers loaded))
  /\ (forall trained,
        train loaded = Some trained ->
        data trained = data loaded
        /\ headers trained = headers loaded
        /\ targetColumn trained = targetColumn loaded
        /\ root trained =
             Some (buildTree loaded (seq 0 (List.length (data loaded))) [])).
Proof.
  intros Hlen.
  destruct (getColumnIndex_spec loaded (targetColumn loaded) Hlen) as [Habsent _].
  unfold train. destruct (data loaded) as [|row rows] eqn:Ed.
  - split; [|discriminate]. split; auto.
  - destruct (getColumnIndex loaded (targetColumn loaded) =? -1)%Z eqn:Ht.
    + apply Z.eqb_eq in Ht. split; [|discriminate].
      split; [|reflexivity]. intros _. right. apply Habsent. exact Ht.
    + apply Z.eqb_neq in Ht. split.
      * split; [discriminate|]. intros [Hd | Hn]; [discriminate|].
        exfalso. apply Ht. apply Habsent. exact Hn.
      * intros trained [= <-]. simpl. auto.
Qed.

(** X1.  [getColumnIndex]: with at most [INT_MAX] header columns it
    returns -1 exactly for a name that is no header, and for a header
    the position of the header's first occurrence. *)
Theorem getColumnIndex_first_position (self : DecisionTree) (columnName : string) :
  (Z.of_nat (List.length (headers self)) <= INT_MAX)%Z ->
  (getColumnIndex self columnName = (-1)%Z <-> ~ In columnName (headers self))
  /\ (In columnName (headers self) ->
      exists i,
        getColumnIndex self columnName = Z.of_nat i
        /\ nth_error (headers self) i = Some columnName
        /\ forall j, j < i -> nth_error (headers self) j <> Some columnName).
Proof. apply getColumnIndex_spec. Qed.

Lemma getColumnIndex_first_position_witness :
  (Z.of_nat (List.length (headers two_rows)) <= INT_MAX)%Z
  /\ getColumnIndex two_rows "y" = 1%Z
  /\ getColumnIndex two_rows "z" = (-1)%Z.
Proof.
  assert (H : (Z.of_nat (List.length (headers two_rows)) <= INT_MAX)%Z)
    by (vm_compute; discriminate).
  split; [exact H|]. split; [reflexivity|].
  apply (proj1 (getColumnIndex_first_position two_rows "z" H)).
  intros [Hf | [Hy | []]]; discriminate.
Defined.

(** ** Subsets of rows *)

(** X3.  [allSameClass] answers true exactly when any two rows of the
    subset have the same class; so it does for the empty subset. *)
Theorem allSameClass_iff_pairwise (self : DecisionTree) (indices : list nat) :
  (allSameClass self indices = true <->
   forall i j, In i indices -> In j indices -> classOf self i = classOf self j)
  /\ allSameClass self [] = true.
Proof. split; [apply allSameClass_true|reflexivity]. Qed.

Lemma upd_push_back_concat (k : string) (i : nat) (m : StdMap.t (list nat)) :
  Permutation (List.concat (map snd (StdMap.upd k (push_back i) m)))
    (i :: List.concat (map snd m)).
Proof.
  induction m as [|[k0 l0] m IH]; simpl.
  - apply Permutation_refl.
  - destruct (String.compare k k0); simpl.
    + rewrite <- app_assoc. simpl. apply Permutation_sym. apply Permutation_middle.
    + apply Permutation_refl.
    + eapply Permutation_trans.
      * apply Permutation_app_head. exact IH.
      * apply Permutation_sym. apply Permutation_middle.
Qed.

Lemma groupBy_concat (self : DecisionTree) (col : Z) (indices : list nat) :
  Permutation (List.concat (map snd (groupBy self col indices))) indices.
Proof.
  induction indices as [|i l IH] using rev_ind; [apply Permutation_refl|].
  rewrite groupBy_snoc.
  eapply Permutation_trans; [apply upd_push_back_concat|].
  eapply Permutation_trans; [apply perm_skip; exact IH|].
  apply Permutation_cons_append.
Qed.

Lemma groupBy_total_length (self : DecisionTree) (col : Z) (indices : list nat) :
  List.length (List.concat (map snd (groupBy self col indices))) = List.length indices.
Proof. apply Permutation_length. apply groupBy_concat. Qed.

(** X4.  The grouping loop of [buildTree] and
    [calculateInformationGain] partitions the subset: the groups
    together hold the rows of the subset, each as often as the subset
    does; the values are strictly ascending; and each group is not
    empty and holds, in the order of the subset, the rows with the
    group's value in the column. *)
Theorem groupBy_partition (self : DecisionTree) (col : Z) (indices : list nat) :
  Permutation (List.concat (map snd (groupBy self col indices))) indices
  /\ StronglySorted str_lt (map fst (groupBy self col indices))
  /\ Forall (fun group =>
               snd group <> []
               /\ snd group = with_value self col (fst group) indices)
       (groupBy self col indices).
Proof.
  split; [|split].
  - apply groupBy_concat.
  - apply groupBy_ordered.
  - apply Forall_forall. intros [v g] Hin. apply groupBy_In in Hin.
    simpl. tauto.
Qed.

(** ** Feature selection *)

(** X5.  In any arithmetic, [findBestFeature] returns the empty string
    or a header that is neither the target column nor a used feature;
    it returns the empty string when every header is the target or
    used. *)
Theorem findBestFeature_never_target_or_used {D : Type} {ops : DoubleOps D}
  (self : DecisionTree) (indices : list nat) (usedFeatures : list string) :
  (findBestFeature self indices usedFeatures = ""
   \/ (In (findBestFeature self indices usedFeatures) (headers self)
       /\ findBestFeature self indices usedFeatures <> targetColumn self
       /\ set_mem (findBestFeature self indices usedFeatures) usedFeatures = false))
  /\ ((forall h, In h (headers self) ->
                 h = targetColumn self \/ set_mem h usedFeatures = true) ->
      findBestFeature self indices usedFeatures = "").
Proof.
  split.
  - destruct (findBestFeature_eligible self indices usedFeatures) as [He | [Hin He]];
      [left; exact He|right].
    unfold eligible in He. apply andb_true_iff in He. destruct He as [Ht Hu].
    apply negb_true_iff in Ht, Hu. apply String.eqb_neq in Ht. auto.
  - intros Hall. apply findBestFeature_none. intros h Hh. unfold eligible.
    destruct (Hall h Hh) as [-> | Hu].
    + rewrite String.eqb_refl. reflexivity.
    + rewrite Hu. apply andb_false_r.
Qed.

(** X6.  In binary64, whatever [log2] is: when some eligible header
    has a computed gain above [-1.0], [findBestFeature] returns an
    eligible header whose gain is above [-1.0] and is exceeded by the
    gain of no eligible header; every eligible header before it has a
    smaller gain or a gain that is not a number. *)
Theorem findBestFeature_first_maximum (log2 : float -> float)
  (self : DecisionTree) (indices : list nat) (used : list string) :
  (exists h, In h (headers self) /\ eligible self used h = true
             /\ (-1 <? calculateInformationGain (ops := Binary64 log2) self indices h)%float
                = true) ->
  exists pre post,
    headers self = pre ++ findBestFeature (ops := Binary64 log2) self indices used :: post
    /\ eligible self used (findBestFeature (ops := Binary64 log2) self indices used) = true
    /\ (-1 <? calculateInformationGain (ops := Binary64 log2) self indices
                (findBestFeature (ops := Binary64 log2) self indices used))%float = true
    /\ (forall h, In h (headers self) -> eligible self used h = true ->
          (calculateInformationGain (ops := Binary64 log2) self indices
             (findBestFeature (ops := Binary64 log2) self indices used)
           <? calculateInformationGain (ops := Binary64 log2) self indices h)%float = false)
    /\ (forall h, In h pre -> eligible self used h = true ->
          (calculateInformationGain (ops := Binary64 log2) self indices h
           <? calculateInformationGain (ops := Binary64 log2) self indices
                (findBestFeature (ops := Binary64 log2) self indices used))%float = true
          \/ (calculateInformationGain (ops := Binary64 log2) self indices h
              =? calculateInformationGain (ops := Binary64 log2) self indices h)%float
             = false).
Proof.
  intros Hex.
  apply (findBestFeature_first_max (ops := Binary64 log2)
           (fun x => (x =? x)%float = false)).
  - intros x. apply float_gt_irrefl.
  - intros x y z. apply float_gt_trans.
  - intros b x g. apply float_le_lt.
  - exact Hex.
Qed.

Lemma findBestFeature_first_maximum_witness :
  (exists h, In h (headers two_rows) /\ eligible two_rows [] h = true
             /\ (-1 <? calculateInformationGain (ops := B64) two_rows [0%nat; 1%nat] h)%float
                = true)
  /\ exists pre post,
      headers two_rows = pre ++ findBestFeature (ops := B64) two_rows [0%nat; 1%nat] [] :: post
      /\ eligible two_rows [] (findBestFeature (ops := B64) two_rows [0%nat; 1%nat] []) = true.
Proof.
  assert (H : exists h, In h (headers two_rows) /\ eligible two_rows [] h = true
                        /\ (-1 <? calculateInformationGain (ops := B64) two_rows
                                    [0%nat; 1%nat] h)%float = true).
  { exists "f". split; [left; reflexivity|]. split; [reflexivity|]. vm_compute. reflexivity. }
  split; [exact H|].
  destruct (findBestFeature_first_maximum log2_pow2 two_rows [0%nat; 1%nat] [] H)
    as (pre & post & Eh & He & _).
  exists pre, post. split; [exact Eh|exact He].
Defined.

(** ** Entropy and gain in binary64 *)

(** X7.  In binary64, for every [log2] that is [-1.0] at [0.5]: when
    every class that occurs in a non-empty subset of at most [INT_MAX]
    rows covers half of the rows, the entropy [calculateEntropy] computes
    is exactly [1.0]. *)
Theorem calculateEntropy_even_split (log2 : float -> float)
  (self : DecisionTree) (indices : list nat) :
  log2 0.5%float = (-1)%float ->
  indices <> [] ->
  (Z.of_nat (List.length indices) <= INT_MAX)%Z ->
  (forall idx, In idx indices ->
     (2 * class_count self (classOf self idx) indices = List.length indices)%nat) ->
  calculateEntropy (ops := Binary64 log2) self indices = 1%float.
Proof.
  intros Hhalf Hne Hlen Heven.
  destruct (classCounts_even self indices Hlen Hne Heven) as (c1 & c2 & h & Hc & Hh & Hn).
  destruct (calculateEntropy_binary64_unfold log2 self indices Hne Hlen) as [Hb ->].
  rewrite Hc, Hn. cbn [fold_left]. unfold entropy_step. cbn [snd].
  cbn [of_int ddiv dgt dsub dmul dlog2 Binary64].
  rewrite (float_div_half h) by lia. rewrite Hhalf. reflexivity.
Qed.

Lemma calculateEntropy_even_split_witness :
  log2_pow2 0.5%float = (-1)%float
  /\ [0%nat; 1%nat] <> []
  /\ (Z.of_nat (List.length [0%nat; 1%nat]) <= INT_MAX)%Z
  /\ calculateEntropy (ops := Binary64 log2_pow2) two_rows [0%nat; 1%nat] = 1%float.
Proof.
  assert (H1 : log2_pow2 0.5%float = (-1)%float) by reflexivity.
  assert (H2 : [0%nat; 1%nat] <> []) by discriminate.
  assert (H3 : (Z.of_nat (List.length [0%nat; 1%nat]) <= INT_MAX)%Z)
    by (vm_compute; discriminate).
  repeat (split; [assumption|]).
  apply (calculateEntropy_even_split log2_pow2 two_rows [0%nat; 1%nat] H1 H2 H3).
  intros idx [<- | [<- | []]]; reflexivity.
Defined.

(** X8.  In binary64, for every [log2] that is [0.0] at [1.0]: on a
    subset of at most [INT_MAX] rows in which the rows that agree on the
    feature agree on the class, the gain [calculateInformationGain]
    computes is exactly the entropy [calculateEntropy] computes for the
    subset. *)
Theorem calculateInformationGain_determined (log2 : float -> float)
  (self : DecisionTree) (indices : list nat) (feature : string) :
  log2 1%float = 0%float ->
  (Z.of_nat (List.length indices) <= INT_MAX)%Z ->
  (forall i j, In i indices -> In j indices ->
     cell self i (getColumnIndex self feature)
     = cell self j (getColumnIndex self feature) ->
     classOf self i = classOf self j) ->
  calculateInformationGain (ops := Binary64 log2) self indices feature
  = calculateEntropy (ops := Binary64 log2) self indices.
Proof.
  intros Hone Hlen Hdet.
  exact (calculateInformationGain_binary64_determined log2 Hone self indices feature
           Hlen Hdet).
Qed.

Lemma calculateInformationGain_determined_witness :
  log2_pow2 1%float = 0%float
  /\ (Z.of_nat (List.length [0; 1]) <= INT_MAX)%Z
  /\ calculateInformationGain (ops := Binary64 log2_pow2) two_rows [0; 1] "f"
     = calculateEntropy (ops := Binary64 log2_pow2) two_rows [0; 1].
Proof.
  assert (H1 : log2_pow2 1%float = 0%float) by reflexivity.
  assert (H2 : (Z.of_nat (List.length [0; 1]) <= INT_MAX)%Z) by (vm_compute; discriminate).
  split; [exact H1|]. split; [exact H2|].
  apply (calculateInformationGain_determined log2_pow2 two_rows [0; 1] "f" H1 H2).
  intros i j [<- | [<- | []]] [<- | [<- | []]] Hv;
    solve [reflexivity | vm_compute in Hv; discriminate Hv].
Defined.

(** X9.  In binary64, for every [log2] that is [0.0] at [1.0] and at
    most [-2^-53] between [0.0] and [1.0]: on a subset of at most
    [INT_MAX] rows whose computed entropy is finite, a feature with the
    same value in every row of the subset has the computed gain [0.0]
    exactly. *)
Theorem calculateInformationGain_constant_column (log2 : float -> float)
  (self : DecisionTree) (indices : list nat) (feature : string) :
  log2 1%float = 0%float ->
  (forall x : float,
      (0 <? x)%float = true -> (x <? 1)%float = true ->
      (log2 x <=? -0x1p-53)%float = true) ->
  (Z.of_nat (List.length indices) <= INT_MAX)%Z ->
  (forall i j, In i indices -> In j indices ->
     cell self i (getColumnIndex self feature)
     = cell self j (getColumnIndex self feature)) ->
  (calculateEntropy (ops := Binary64 log2) self indices <? infinity)%float = true ->
  calculateInformationGain (ops := Binary64 log2) self indices feature = 0%float.
Proof.
  intros Hone Hbelow Hlen Hconst Hfin.
  destruct indices as [|first rest]; [reflexivity|].
  unfold calculateInformationGain. cbv zeta.
  rewrite (groupBy_constant self _ first rest Hconst).
  set (indices := first :: rest) in *.
  assert (Hn : (0 < Z.of_nat (List.length indices) < 2 ^ 52)%Z).
  { split; [unfold indices; simpl; lia|]. unfold INT_MAX in Hlen.
    apply Z.le_lt_trans with 2147483647%Z; [exact Hlen|reflexivity]. }
  rewrite int_of_size_small by exact Hlen.
  cbn [fold_left]. unfold weighted_step. cbn [snd].
  set (H := calculateEntropy (ops := Binary64 log2) self indices) in *.
  cbn [of_int ddiv dadd dmul dsub Binary64].
  rewrite (float_div_same _ Hn).
  apply float_gain_constant.
  destruct (allSameClass self indices) eqn:Hs.
  - left. apply calculateEntropy_binary64_pure; assumption.
  - right.
    pose proof (calculateEntropy_binary64_mixed log2 Hbelow self indices Hlen Hs) as Hpos.
    fold H in Hpos. rewrite FloatAxioms.ltb_spec in Hfin.
    change (Prim2SF infinity) with (S754_infinity false) in Hfin.
    destruct (Prim2SF H) as [s|[|]| |[|] m e]; try contradiction; try discriminate Hfin.
    exists m, e. reflexivity.
Qed.

Lemma calculateInformationGain_constant_column_witness :
  log2_coarse 1%float = 0%float
  /\ (forall x : float,
        (0 <? x)%float = true -> (x <? 1)%float = true ->
        (log2_coarse x <=? -0x1p-53)%float = true)
  /\ (Z.of_nat (List.length [0%nat; 1%nat]) <= INT_MAX)%Z
  /\ calculateInformationGain (ops := Binary64 log2_coarse)
       same_value_rows [0%nat; 1%nat] "f" = 0%float.
Proof.
  assert (H : (Z.of_nat (List.length [0%nat; 1%nat]) <= INT_MAX)%Z)
    by (vm_compute; discriminate).
  split; [exact log2_coarse_one|]. split; [exact log2_coarse_below_one|].
  split; [exact H|].
  apply (calculateInformationGain_constant_column log2_coarse same_value_rows _ "f"
           log2_coarse_one log2_coarse_below_one H).
  - intros i j [<- | [<- | []]] [<- | [<- | []]]; vm_compute; reflexivity.
  - vm_compute. reflexivity.
Defined.

(** ** The nodes of built trees *)

Lemma leaves_set_value (v : string) (t : TreeNode) :
  List.length (leaves (set_value v t)) = List.length (leaves t).
Proof.
  unfold leaves. rewrite (nodes_unfold (set_value v t)), (nodes_unfold t).
  rewrite set_value_children. destruct t as [f v0 p l cs]. simpl.
  destruct l; reflexivity.
Qed.

Section BuiltNodes.

Context {D : Type} {ops : DoubleOps D}.
Variable self : DecisionTree.

(** A property of nodes that does not look at the edge value holds at
    every node of a built tree when it holds at the nodes [buildTree]
    creates. *)
Lemma buildTree_nodes_ind (Q : list nat -> TreeNode -> Prop) :
  (forall idx v t, Q idx t -> Q idx (set_value v t)) ->
  (forall idx idx' t,
      incl idx' idx -> List.length idx' <= List.length idx -> idx' <> [] ->
      Q idx' t -> Q idx t) ->
  Q [] (leaf_node "Unknown") ->
  (forall first rest,
      allSameClass self (first :: rest) = true ->
      Q (first :: rest) (leaf_node (classOf self first))) ->
  (forall indices used,
      indices <> [] -> allSameClass self indices = false ->
      str_empty (findBestFeature self indices used) = true ->
      Q indices (leaf_node (getMostCommonClass self indices))) ->
  (forall indices used f,
      indices <> [] -> allSameClass self indices = false ->
      f = findBestFeature self indices used ->
      str_empty f = false ->
      In f (headers self) -> eligible self used f = true ->
      Q indices (decision_node f (built_children self indices used f))) ->
  forall indices used n,
    In n (nodes (buildTree self indices used)) -> Q indices n.
Proof.
  intros Hvalue Hmono Hempty Hpure Hnone Hsplit.
  apply (buildTree_cases self (fun idx _ t => forall n, In n (nodes t) -> Q idx n)).
  - intros u n [<- | []]. apply Hempty.
  - intros first rest u Hs n [<- | []]. apply Hpure. exact Hs.
  - intros idx u Hne Hs Hf n [<- | []]. eapply Hnone; eassumption.
  - intros idx u f Hne Hs Hf Hfound Hin He IH n Hn.
    rewrite nodes_unfold in Hn. destruct Hn as [<- | Hn].
    + eapply Hsplit; eassumption.
    + simpl in Hn. apply in_flat_map in Hn. destruct Hn as (c & Hc & Hn).
      apply built_children_In in Hc. destruct Hc as (g & Hc & Hg & Hgne).
      assert (Hincl : incl g idx).
      { intros x Hx. rewrite Hg in Hx. unfold with_value in Hx.
        apply filter_In in Hx. tauto. }
      assert (Hlen : List.length g <= List.length idx).
      { rewrite Hg. unfold with_value. apply filter_length_le. }
      apply (Hmono idx g n Hincl Hlen Hgne).
      rewrite Hc, nodes_unfold in Hn. destruct Hn as [<- | Hn].
      * apply Hvalue. apply (IH g). rewrite nodes_unfold. left. reflexivity.
      * apply (IH g). rewrite nodes_unfold. right. exact Hn.
Qed.

Lemma built_children_nonempty (indices : list nat) (used : list string) (f : string) :
  indices <> [] -> built_children self indices used f <> [].
Proof.
  intros Hne Hnil. destruct indices as [|i l]; [contradiction|].
  assert (Hk : In (cell self i (getColumnIndex self f))
                 (StdMap.keys (groupBy self (getColumnIndex self f) (i :: l)))).
  { apply groupBy_keys. exists i. split; [left|]; reflexivity. }
  rewrite <- built_children_values with (used := used) in Hk.
  rewrite Hnil in Hk. exact Hk.
Qed.

Lemma buildTree_nodes_well_shaped (indices : list nat) (used : list string) :
  Forall (well_shaped self) (nodes (buildTree self indices used)).
Proof.
  apply Forall_forall. intros n Hn.
  refine (buildTree_nodes_ind (fun _ n => well_shaped self n)
            _ _ _ _ _ _ indices used n Hn).
  - intros idx v t. destruct t as [f v0 p l cs]. exact (fun H => H).
  - intros idx idx' t _ _ _ H. exact H.
  - split; reflexivity.
  - intros first rest _. split; reflexivity.
  - intros idx u _ _ _. split; reflexivity.
  - intros idx u f Hne _ _ Hfound Hin He. unfold well_shaped. simpl.
    split; [apply built_children_nonempty; exact Hne|].
    split; [|split; [|reflexivity]].
    + unfold featureColumns. apply filter_In. split; [exact Hin|].
      unfold eligible in He. apply andb_true_iff in He. tauto.
    + intros ->. discriminate.
Qed.

Lemma leaves_children_le (used : list string) (m : StdMap.t (list nat)) :
  (forall g, List.length (leaves (buildTree self g used)) <= Nat.max 1 (List.length g)) ->
  (forall p, In p m -> snd p <> []) ->
  List.length
    (filter isLeaf
       (flat_map nodes
          (map (fun group => set_value (fst group) (buildTree self (snd group) used)) m)))
  <= List.length (List.concat (map snd m)).
Proof.
  intros IH. induction m as [|[v g] m IHm]; intros Hne; [simpl; lia|].
  cbn [map flat_map fst snd List.concat].
  rewrite filter_app, !length_app.
  assert (Hg : g <> []) by (apply (Hne (v, g)); left; reflexivity).
  pose proof (leaves_set_value v (buildTree self g used)) as Hv.
  unfold leaves in Hv. rewrite Hv.
  specialize (IH g). unfold leaves in IH.
  assert (Hm : List.length
                 (filter isLeaf
                    (flat_map nodes
                       (map (fun group => set_value (fst group)
                                            (buildTree self (snd group) used)) m)))
               <= List.length (List.concat (map snd m))).
  { apply IHm. intros p Hp. apply Hne. right. exact Hp. }
  destruct g as [|i g]; [contradiction|]. simpl in *. lia.
Qed.

(** X12.  A built tree has at most as many leaves as the subset has
    rows (one leaf for the empty subset). *)
Theorem buildTree_leaves_le_rows (indices : list nat) (used : list string) :
  List.length (leaves (buildTree self indices used)) <= Nat.max 1 (List.length indices).
Proof.
  apply (buildTree_cases self
           (fun idx _ t => List.length (leaves t) <= Nat.max 1 (List.length idx))).
  - intros u. unfold leaves. simpl. lia.
  - intros first rest u _. unfold leaves. simpl List.length at 1. lia.
  - intros idx u Hne _ _. unfold leaves. simpl List.length at 1. lia.
  - intros idx u f Hne _ _ _ _ _ IH.
    unfold leaves. rewrite nodes_unfold. simpl.
    unfold built_children.
    eapply Nat.le_trans.
    + apply leaves_children_le; [exact IH|].
      intros [v g] Hin. apply groupBy_In in Hin. simpl. tauto.
    + rewrite groupBy_total_length. destruct (List.length idx); lia.
Qed.

End BuiltNodes.

(** X10.  At every node of a built tree, a leaf has no children and no
    feature, and an inner node has at least one child, an empty
    prediction, and as feature a header other than the target column
    whose name is not empty. *)
Theorem buildTree_well_shaped {D : Type} {ops : DoubleOps D}
  (self : DecisionTree) (indices : list nat) (used : list string) :
  Forall (well_shaped self) (nodes (buildTree self indices used)).
Proof. apply buildTree_nodes_well_shaped. Qed.

Lemma buildTree_leaf_label_cases {D : Type} {ops : DoubleOps D}
  (self : DecisionTree) (indices : list nat) (used : list string) :
  (Z.of_nat (List.length indices) <= INT_MAX)%Z ->
  Forall (fun n =>
            isLeaf n = true ->
            (indices = [] /\ prediction n = "Unknown")
            \/ exists idx, In idx indices /\ prediction n = classOf self idx)
    (nodes (buildTree self indices used)).
Proof.
  intros Hlen. apply Forall_forall. intros n Hn. revert Hlen.
  refine (buildTree_nodes_ind self
            (fun idx n =>
               (Z.of_nat (List.length idx) <= INT_MAX)%Z ->
               isLeaf n = true ->
               (idx = [] /\ prediction n = "Unknown")
               \/ exists i, In i idx /\ prediction n = classOf self i)
            _ _ _ _ _ _ indices used n Hn).
  - intros idx v t. destruct t as [f v0 p l cs]. exact (fun H => H).
  - intros idx idx' t Hincl Hle Hne H Hl Hleaf.
    assert (Hl' : (Z.of_nat (List.length idx') <= INT_MAX)%Z) by lia.
    destruct (H Hl' Hleaf) as [[He _] | (i & Hi & Hp)]; [contradiction|].
    right. exists i. split; [apply Hincl; exact Hi|exact Hp].
  - intros _ _. left. split; reflexivity.
  - intros first rest _ _ _. right. exists first. split; [left|]; reflexivity.
  - intros idx u Hne _ _ Hl _. right.
    destruct (getMostCommonClass_majority self idx Hne Hl) as (Hpos & _).
    apply class_count_pos in Hpos. destruct Hpos as (i & Hi & Hc).
    exists i. split; [exact Hi|]. simpl. symmetry. exact Hc.
  - intros idx u f _ _ _ _ _ _ _ Hleaf. discriminate.
Qed.

(** X11.  The tree built from the empty subset is the single leaf
    "Unknown"; in the tree built from a non-empty subset of at most
    [INT_MAX] rows every leaf carries the class of a row of the subset
    (so a leaf of such a tree reads "Unknown" only when a row has that
    class). *)
Theorem buildTree_leaf_labels {D : Type} {ops : DoubleOps D}
  (self : DecisionTree) (indices : list nat) (used : list string) :
  (Z.of_nat (List.length indices) <= INT_MAX)%Z ->
  buildTree self [] used = leaf_node "Unknown"
  /\ (indices <> [] ->
      Forall (fun n =>
                isLeaf n = true ->
                exists idx, In idx indices /\ prediction n = classOf self idx)
        (nodes (buildTree self indices used)))
  /\ (indices <> [] ->
      (forall idx, In idx indices -> classOf self idx <> "Unknown") ->
      Forall (fun n => prediction n <> "Unknown") (nodes (buildTree self indices used))).
Proof.
  intros Hlen. split; [rewrite buildTree_body; reflexivity|].
  pose proof (buildTree_leaf_label_cases self indices used Hlen) as Hcases.
  rewrite Forall_forall in Hcases.
  assert (Hleaves : indices <> [] ->
            forall n, In n (nodes (buildTree self indices used)) -> isLeaf n = true ->
                      exists idx, In idx indices /\ prediction n = classOf self idx).
  { intros Hne n Hn Hleaf.
    destruct (Hcases n Hn Hleaf) as [[He _] | H]; [contradiction|exact H]. }
  split.
  - intros Hne. apply Forall_forall. intros n Hn Hleaf. exact (Hleaves Hne n Hn Hleaf).
  - intros Hne Hclasses. apply Forall_forall. intros n Hn Hp.
    pose proof (buildTree_nodes_well_shaped self indices used) as Hshape.
    rewrite Forall_forall in Hshape. specialize (Hshape n Hn). unfold well_shaped in Hshape.
    destruct (isLeaf n) eqn:Hleaf.
    + destruct (Hleaves Hne n Hn Hleaf) as (idx & Hidx & Hc).
      apply (Hclasses idx Hidx). rewrite <- Hc. exact Hp.
    + destruct Hshape as (_ & _ & _ & He). rewrite He in Hp. discriminate.
Qed.

Lemma buildTree_leaf_labels_witness :
  (Z.of_nat (List.length [0; 1]) <= INT_MAX)%Z
  /\ Forall (fun n => prediction n <> "Unknown")
       (nodes (buildTree (ops := B64) two_rows [0; 1] [])).
Proof.
  assert (H : (Z.of_nat (List.length [0; 1]) <= INT_MAX)%Z) by (vm_compute; discriminate).
  split; [exact H|].
  apply (proj2 (proj2 (buildTree_leaf_labels (ops := B64) two_rows [0; 1] [] H))).
  - discriminate.
  - intros idx [<- | [<- | []]]; vm_compute; discriminate.
Defined.

(** ** The outcome of [train] *)

(** X2.  [train] on a table whose rows have a cell for every header
    column, with at most [INT_MAX] header columns and rows: it fails
    exactly when there is no data row or the target column is no header;
    otherwise it keeps the data, the headers and the target, and stores
    the tree built from all the rows, in row order, with no feature
    used: a tree no deeper than the number of feature columns, each leaf
    of which carries the class of a training row. *)
Theorem train_outcome {D : Type} {ops : DoubleOps D} (loaded : DecisionTree) :
  (Z.of_nat (List.length (headers loaded)) <= INT_MAX)%Z ->
  (Z.of_nat (List.length (data loaded)) <= INT_MAX)%Z ->
  rows_cover_headers loaded ->
  (train loaded = None <->
   data loaded = [] \/ ~ In (targetColumn loaded) (headers loaded))
  /\ (forall trained,
        train loaded = Some trained ->
        data trained = data loaded
        /\ headers trained = headers loaded
        /\ targetColumn trained = targetColumn loaded
        /\ exists tree,
             root trained = Some tree
             /\ tree = buildTree loaded (seq 0 (List.length (data loaded))) []
             /\ depth tree <= List.length (featureColumns loaded)
             /\ Forall (fun n =>
                          isLeaf n = true ->
                          exists i, i < List.length (data loaded)
                                    /\ prediction n = classOf loaded i)
                  (nodes tree)).
Proof.
  intros Hlen Hrows _.
  destruct (train_spec loaded Hlen) as [Hnone Hsome].
  split; [exact Hnone|].
  intros trained Htrained.
  destruct (Hsome trained Htrained) as (Hd & Hh & Ht & Hroot).
  split; [exact Hd|]. split; [exact Hh|]. split; [exact Ht|].
  exists (buildTree loaded (seq 0 (List.length (data loaded))) []).
  split; [exact Hroot|]. split; [reflexivity|]. split.
  - eapply Nat.le_trans; [apply buildTree_depth|apply unused_le_featureColumns].
  - assert (Hdata : data loaded <> []).
    { intros He. assert (Hn : train loaded = None) by (apply Hnone; left; exact He).
      congruence. }
    pose proof (buildTree_leaf_label_cases loaded
                  (seq 0 (List.length (data loaded))) []) as Hcases.
    rewrite length_seq in Hcases. specialize (Hcases Hrows).
    rewrite Forall_forall in Hcases. apply Forall_forall. intros n Hn Hleaf.
    destruct (Hcases n Hn Hleaf) as [[He _] | (i & Hi & Hp)].
    + exfalso. destruct (data loaded); [contradiction|discriminate He].
    + exists i. split; [apply in_seq in Hi; lia|exact Hp].
Qed.

Lemma train_outcome_witness :
  (Z.of_nat (List.length (headers two_rows)) <= INT_MAX)%Z
  /\ (Z.of_nat (List.length (data two_rows)) <= INT_MAX)%Z
  /\ rows_cover_headers two_rows
  /\ train (ops := B64) two_rows <> None
  /\ train (ops := B64) (mkDecisionTree (data two_rows) (headers two_rows) "z" None) = None.
Proof.
  assert (H : (Z.of_nat (List.length (headers two_rows)) <= INT_MAX)%Z)
    by (vm_compute; discriminate).
  assert (Hr : (Z.of_nat (List.length (data two_rows)) <= INT_MAX)%Z)
    by (vm_compute; discriminate).
  assert (Hw : rows_cover_headers two_rows) by (repeat constructor).
  split; [exact H|]. split; [exact Hr|]. split; [exact Hw|]. split.
  - intros Hnone.
    apply (proj1 (proj1 (train_outcome (ops := B64) two_rows H Hr Hw))) in Hnone.
    destruct Hnone as [Hd | Hn]; [discriminate|].
    apply Hn. right. left. reflexivity.
  - apply (proj2 (proj1 (train_outcome (ops := B64)
                           (mkDecisionTree (data two_rows) (headers two_rows) "z" None)
                           H Hr Hw))).
    right. intros [Hf | [Hy | []]]; discriminate.
Defined.

(** ** [predict] on any tree *)

Lemma first_child_In (v : string) (cs : list TreeNode) (c : TreeNode) :
  first_child v cs = Some c -> In c cs /\ value c = v.
Proof.
  induction cs as [|c0 cs IH]; simpl; [discriminate|].
  destruct (String.eqb (value c0) v) eqn:He.
  - intros [= <-]. apply String.eqb_eq in He. auto.
  - intros H. destruct (IH H). auto.
Qed.

Lemma Forall_nodes_child (P : TreeNode -> Prop) (n c : TreeNode) :
  Forall P (nodes n) -> In c (children n) -> Forall P (nodes c).
Proof.
  rewrite (nodes_unfold n). intros H Hc. inversion H as [|? ? _ Hrest]; subst.
  rewrite Forall_forall in *. intros x Hx. apply Hrest.
  apply in_flat_map. exists c. auto.
Qed.

Lemma depth_child_lt (n c : TreeNode) :
  isLeaf n = false -> In c (children n) -> depth c < depth n.
Proof.
  intros Hl Hc. destruct n as [f v p l cs]. simpl in *. subst l.
  induction cs as [|c0 cs IH]; [destruct Hc|].
  simpl. destruct Hc as [-> | Hc]; [lia|]. specialize (IH Hc). lia.
Qed.

(** X13.  Whatever the tree and the instance, [predict] returns
    "Unknown" or the label of a leaf of the tree. *)
Theorem predict_unknown_or_leaf (node : TreeNode) (instance : StdMap.t string) :
  predict node instance = "Unknown"
  \/ exists leaf,
      In leaf (nodes node) /\ isLeaf leaf = true
      /\ predict node instance = prediction leaf.
Proof.
  remember (depth node) as d eqn:Hd. revert node Hd.
  induction d as [d IH] using lt_wf_ind. intros node Hd.
  rewrite predict_unfold.
  destruct (isLeaf node) eqn:Hl.
  - right. exists node. split; [rewrite nodes_unfold; left; reflexivity|auto].
  - destruct (StdMap.find (feature node) instance) as [v|]; [|left; reflexivity].
    destruct (first_child v (children node)) as [c|] eqn:Hc; [|left; reflexivity].
    apply first_child_In in Hc. destruct Hc as [Hc _].
    destruct (IH (depth c)) with (node := c) as [Hu | (leaf & Hin & Hleaf & Hp)].
    + subst d. apply depth_child_lt; assumption.
    + reflexivity.
    + left. exact Hu.
    + right. exists leaf. split; [|auto].
      rewrite nodes_unfold. right. apply in_flat_map. exists c. auto.
Qed.

(** X14.  [predict] reads the instance at the features of the tree
    only: two instances that give [find] the same answer for the
    feature of every inner node get the same prediction. *)
Theorem predict_depends_on_tree_features (node : TreeNode)
  (instance1 instance2 : StdMap.t string) :
  (forall f, In f (features_of node) ->
             StdMap.find f instance1 = StdMap.find f instance2) ->
  predict node instance1 = predict node instance2.
Proof.
  remember (depth node) as d eqn:Hd. revert node Hd.
  induction d as [d IH] using lt_wf_ind. intros node Hd Hagree.
  rewrite !predict_unfold.
  destruct (isLeaf node) eqn:Hl; [reflexivity|].
  assert (Hroot : In (feature node) (features_of node)).
  { unfold features_of. apply in_map. apply filter_In.
    split; [rewrite nodes_unfold; left; reflexivity|]. rewrite Hl. reflexivity. }
  rewrite <- (Hagree _ Hroot).
  destruct (StdMap.find (feature node) instance1) as [v|]; [|reflexivity].
  destruct (first_child v (children node)) as [c|] eqn:Hc; [|reflexivity].
  apply first_child_In in Hc. destruct Hc as [Hc _].
  apply (IH (depth c)); [subst d; apply depth_child_lt; assumption|reflexivity|].
  intros f Hf. apply Hagree. unfold features_of in *.
  apply in_map_iff in Hf. destruct Hf as (n & Hn & Hin).
  apply in_map_iff. exists n. split; [exact Hn|].
  apply filter_In in Hin. apply filter_In. split; [|tauto].
  rewrite nodes_unfold. right. apply in_flat_map. exists c. tauto.
Qed.

Lemma predict_depends_on_tree_features_witness :
  (forall f, In f (features_of two_rows_tree) ->
             StdMap.find f [("f", "a")] = StdMap.find f [("f", "a"); ("g", "z")])
  /\ predict two_rows_tree [("f", "a")] = predict two_rows_tree [("f", "a"); ("g", "z")].
Proof.
  assert (H : forall f, In f (features_of two_rows_tree) ->
                        StdMap.find f [("f", "a")] = StdMap.find f [("f", "a"); ("g", "z")]).
  { intros f Hf. vm_compute in Hf. destruct Hf as [<- | []]. reflexivity. }
  split; [exact H|].
  exact (predict_depends_on_tree_features two_rows_tree _ _ H).
Defined.

(** X15.  When [buildTree] splits a subset on a feature and the
    instance gives that feature a value that no row of the subset
    holds, [predict] answers "Unknown". *)
Theorem predict_unseen_value {D : Type} {ops : DoubleOps D}
  (self : DecisionTree) (indices : list nat) (used : list string)
  (instance : StdMap.t string) (v : string) :
  indices <> [] ->
  allSameClass self indices = false ->
  str_empty (findBestFeature self indices used) = false ->
  StdMap.find (findBestFeature self indices used) instance = Some v ->
  (forall idx, In idx indices ->
               cell self idx (getColumnIndex self (findBestFeature self indices used)) <> v) ->
  predict (buildTree self indices used) instance = "Unknown".
Proof.
  intros Hne Hsame Hfound Hfind Hunseen.
  rewrite (buildTree_split self indices used Hne Hsame Hfound).
  apply predict_unseen with (v := v); [reflexivity|exact Hfind|].
  unfold matching. simpl children.
  destruct (filter _ _) as [|c l] eqn:Hf; [reflexivity|]. exfalso.
  assert (Hc : In c (filter (fun c0 => String.eqb (value c0) v)
                       (built_children self indices used
                          (findBestFeature self indices used)))).
  { rewrite Hf. left. reflexivity. }
  apply filter_In in Hc. destruct Hc as [Hc Hv]. apply String.eqb_eq in Hv.
  assert (Hk : In v (map value (built_children self indices used
                                  (findBestFeature self indices used)))).
  { rewrite <- Hv. apply in_map. exact Hc. }
  rewrite built_children_values in Hk. apply groupBy_keys in Hk.
  destruct Hk as (idx & Hidx & He). exact (Hunseen idx Hidx He).
Qed.

Lemma predict_unseen_value_witness :
  [0; 1] <> ([] : list nat)
  /\ allSameClass two_rows [0; 1] = false
  /\ str_empty (findBestFeature (ops := B64) two_rows [0; 1] []) = false
  /\ predict (buildTree (ops := B64) two_rows [0; 1] []) [("f", "c")] = "Unknown".
Proof.
  assert (H1 : [0; 1] <> ([] : list nat)) by discriminate.
  assert (H2 : allSameClass two_rows [0; 1] = false) by (vm_compute; reflexivity).
  assert (H3 : str_empty (findBestFeature (ops := B64) two_rows [0; 1] []) = false)
    by (vm_compute; reflexivity).
  repeat (split; [assumption|]).
  apply (predict_unseen_value (ops := B64) two_rows [0; 1] [] [("f", "c")] "c" H1 H2 H3).
  - vm_compute. reflexivity.
  - intros idx [<- | [<- | []]]; vm_compute; discriminate.
Defined.

(** X16.  In binary64, for every [log2] that is [0.0] at [1.0] and at
    most [-2^-53] between [0.0] and [1.0]: [train] followed by
    [predictInstance] gives every training row its own class, when the
    table has at most [INT_MAX] rows and at least one, every row has a
    cell for every header column, no header is the empty string, the
    target is a header, and some feature column determines the class. *)
Theorem train_classifies_training_rows (log2 : float -> float)
  (self : DecisionTree) (f : string) :
  log2 1%float = 0%float ->
  (forall x : float,
      (0 <? x)%float = true -> (x <? 1)%float = true ->
      (log2 x <=? -0x1p-53)%float = true) ->
  (Z.of_nat (List.length (data self)) <= INT_MAX)%Z ->
  rows_cover_headers self ->
  ~ In "" (headers self) ->
  data self <> [] ->
  getColumnIndex self (targetColumn self) <> (-1)%Z ->
  In f (featureColumns self) ->
  determines self f ->
  exists tree,
    train (ops := Binary64 log2) self = Some tree
    /\ forall i, (i < List.length (data self))%nat ->
                 predictInstance (root tree) (instance_of_row self i) = classOf self i.
Proof.
  intros Hone Hbelow Hrows _ Hnames Hdata Htarget Hf Hdet.
  assert (Hin : In f (headers self)) by (apply featureColumns_In in Hf; tauto).
  apply (train_predicts_rows self f
           (selects_feature_binary64 log2 self f Hone Hbelow Hrows Hnames Hin Hdet)
           Hf Hdet Hdata Htarget).
Qed.

Lemma train_classifies_training_rows_witness :
  log2_coarse 1%float = 0%float
  /\ (forall x : float,
        (0 <? x)%float = true -> (x <? 1)%float = true ->
        (log2_coarse x <=? -0x1p-53)%float = true)
  /\ (Z.of_nat (List.length (data two_rows)) <= INT_MAX)%Z
  /\ rows_cover_headers two_rows
  /\ ~ In "" (headers two_rows)
  /\ data two_rows <> []
  /\ getColumnIndex two_rows (targetColumn two_rows) <> (-1)%Z
  /\ In "f" (featureColumns two_rows)
  /\ determines two_rows "f"
  /\ exists tree,
      train (ops := Binary64 log2_coarse) two_rows = Some tree
      /\ forall i, (i < List.length (data two_rows))%nat ->
                   predictInstance (root tree) (instance_of_row two_rows i)
                   = classOf two_rows i.
Proof.
  assert (H1 : (Z.of_nat (List.length (data two_rows)) <= INT_MAX)%Z)
    by (vm_compute; discriminate).
  assert (Hw : rows_cover_headers two_rows) by (repeat constructor).
  assert (H2 : ~ In "" (headers two_rows)) by (intros [H | [H | []]]; discriminate).
  assert (H3 : data two_rows <> []) by discriminate.
  assert (H4 : getColumnIndex two_rows (targetColumn two_rows) <> (-1)%Z)
    by (vm_compute; discriminate).
  assert (H5 : In "f" (featureColumns two_rows)) by (left; reflexivity).
  assert (H6 : determines two_rows "f").
  { intros [|[|i]] [|[|j]] Hi Hj Hv;
      solve [reflexivity
            | vm_compute in Hv; discriminate Hv
            | simpl in Hi; lia
            | simpl in Hj; lia]. }
  split; [exact log2_coarse_one|]. split; [exact log2_coarse_below_one|].
  repeat (split; [assumption|]).
  exact (train_classifies_training_rows log2_coarse two_rows "f"
           log2_coarse_one log2_coarse_below_one H1 Hw H2 H3 H4 H5 H6).
Defined.

(** ** The cells of a line *)

Lemma contains_append (c : ascii) (a b : string) :
  contains c (a ++ b)%string = contains c a || contains c b.
Proof.
  induction a as [|x a IH]; simpl; [reflexivity|].
  rewrite IH. apply orb_assoc.
Qed.

Lemma split_cells_no_comma (acc rest : string) :
  contains ","%char acc = false ->
  Forall (fun cell => contains ","%char cell = false) (split_cells acc rest).
Proof.
  revert acc. induction rest as [|c rest IH]; intros acc Hacc; simpl.
  - destruct acc; constructor; [exact Hacc|constructor].
  - destruct (Ascii.eqb c ","%char) eqn:Hc.
    + constructor; [exact Hacc|]. apply IH. reflexivity.
    + apply IH. rewrite contains_append, Hacc. simpl. rewrite Hc. reflexivity.
Qed.

Lemma erase_leading_contains (c : ascii) (s : string) :
  contains c s = false -> contains c (erase_leading s) = false.
Proof.
  induction s as [|x s IH]; simpl; [reflexivity|].
  intros H. apply orb_false_iff in H. destruct H as [Hx Hs].
  destruct (is_blank x); [apply IH; exact Hs|].
  simpl. rewrite Hx, Hs. reflexivity.
Qed.

Lemma erase_leading_starts (s : string) : starts_blank (erase_leading s) = false.
Proof.
  induction s as [|x s IH]; simpl; [reflexivity|].
  destruct (is_blank x) eqn:Hx; [exact IH|]. simpl. exact Hx.
Qed.

Lemma erase_trailing_contains (c : ascii) (s : string) :
  contains c s = false -> contains c (erase_trailing s) = false.
Proof.
  induction s as [|x s IH]; simpl; [reflexivity|].
  intros H. apply orb_false_iff in H. destruct H as [Hx Hs].
  specialize (IH Hs).
  destruct (erase_trailing s) as [|y k].
  - destruct (is_blank x); simpl; [reflexivity|]. rewrite Hx. reflexivity.
  - simpl in *. rewrite Hx. exact IH.
Qed.

Lemma erase_trailing_starts (s : string) :
  starts_blank s = false -> starts_blank (erase_trailing s) = false.
Proof.
  destruct s as [|x s]; simpl; [reflexivity|]. intros Hx.
  destruct (erase_trailing s); [rewrite Hx|]; simpl; exact Hx.
Qed.

Lemma erase_trailing_ends (s : string) : ends_blank (erase_trailing s) = false.
Proof.
  induction s as [|x s IH]; simpl; [reflexivity|].
  destruct (erase_trailing s) as [|y k] eqn:Hk.
  - destruct (is_blank x) eqn:Hx; simpl; [reflexivity|exact Hx].
  - simpl in *. exact IH.
Qed.

Lemma trim_clean (s : string) :
  starts_blank s = false -> ends_blank s = false -> trim s = s.
Proof.
  intros Hs He. unfold trim.
  assert (Hl : erase_leading s = s).
  { destruct s as [|x s]; simpl in *; [reflexivity|]. rewrite Hs. reflexivity. }
  rewrite Hl. clear Hs Hl.
  induction s as [|x s IH]; simpl; [reflexivity|].
  destruct s as [|y s].
  - simpl in *. rewrite He. reflexivity.
  - rewrite IH by exact He. reflexivity.
Qed.

Lemma parse_line_cells (line : string) :
  Forall (fun cell => clean_cell cell = true) (parse_line line).
Proof.
  unfold parse_line. apply Forall_forall. intros cell Hin.
  apply in_map_iff in Hin. destruct Hin as (raw & <- & Hraw).
  pose proof (split_cells_no_comma "" line eq_refl) as Hno.
  rewrite Forall_forall in Hno. specialize (Hno raw Hraw).
  unfold clean_cell.
  rewrite (erase_trailing_contains _ _ (erase_leading_contains _ _ Hno)).
  rewrite (erase_trailing_starts _ (erase_leading_starts raw)).
  rewrite erase_trailing_ends. reflexivity.
Qed.

Lemma append_empty_r (s : string) : (s ++ "")%string = s.
Proof. induction s as [|a s IH]; simpl; [reflexivity|rewrite IH; reflexivity]. Qed.

Lemma append_assoc (a b c : string) : ((a ++ b) ++ c)%string = (a ++ (b ++ c))%string.
Proof. induction a as [|x a IH]; simpl; [reflexivity|rewrite IH; reflexivity]. Qed.

Lemma split_cells_append (acc cell rest : string) :
  contains ","%char cell = false ->
  split_cells acc (cell ++ rest)%string = split_cells (acc ++ cell)%string rest.
Proof.
  revert acc. induction cell as [|x cell IH]; intros acc Hc; simpl.
  - rewrite append_empty_r. reflexivity.
  - simpl in Hc. apply orb_false_iff in Hc. destruct Hc as [Hx Hcell].
    rewrite Hx. rewrite IH by exact Hcell.
    rewrite append_assoc. reflexivity.
Qed.

Lemma split_cells_joined (cells : list string) :
  Forall (fun cell => contains ","%char cell = false) cells ->
  last cells "x" <> "" ->
  split_cells "" (String.concat "," cells) = cells /\
  (cells <> [] -> split_cells "" (String.concat "," (cells ++ [""])) = cells).
Proof.
  induction cells as [|x cells IH]; intros Hno Hlast.
  - split; [reflexivity|]. intros H. exfalso. apply H. reflexivity.
  - inversion Hno as [|? ? Hx Hrest]; subst.
    destruct cells as [|y cells].
    + cbn [last] in Hlast. split.
      * cbn [String.concat].
        rewrite <- (append_empty_r x) at 1.
        rewrite split_cells_append by exact Hx. simpl.
        destruct x; [exfalso; apply Hlast; reflexivity|reflexivity].
      * intros _. cbn [app String.concat].
        rewrite split_cells_append by exact Hx. simpl. reflexivity.
    + assert (Hlast' : last (y :: cells) "x" <> "") by exact Hlast.
      destruct (IH Hrest Hlast') as [IH1 IH2].
      split.
      * change (String.concat "," (x :: y :: cells))
          with (x ++ String ","%char (String.concat "," (y :: cells)))%string.
        rewrite split_cells_append by exact Hx.
        cbn [split_cells]. rewrite Ascii.eqb_refl. cbn [append].
        rewrite IH1. reflexivity.
      * intros _.
        change (String.concat "," ((x :: y :: cells) ++ [""]))
          with (x ++ String ","%char (String.concat "," ((y :: cells) ++ [""])))%string.
        rewrite split_cells_append by exact Hx.
        cbn [split_cells]. rewrite Ascii.eqb_refl. cbn [append].
        rewrite IH2 by discriminate. reflexivity.
Qed.

Lemma map_trim_clean (cells : list string) :
  Forall (fun cell => clean_cell cell = true) cells ->
  map (fun cell => erase_trailing (erase_leading cell)) cells = cells.
Proof.
  induction 1 as [|x cells Hx _ IH]; simpl; [reflexivity|].
  unfold clean_cell in Hx.
  apply andb_true_iff in Hx. destruct Hx as [Hx He].
  apply andb_true_iff in Hx. destruct Hx as [_ Hs].
  apply negb_true_iff in Hs, He.
  fold (trim x). rewrite (trim_clean x Hs He), IH. reflexivity.
Qed.

Lemma clean_no_comma (cells : list string) :
  Forall (fun cell => clean_cell cell = true) cells ->
  Forall (fun cell => contains ","%char cell = false) cells.
Proof.
  apply Forall_impl. intros x Hx. unfold clean_cell in Hx.
  apply andb_true_iff in Hx. destruct Hx as [Hx _].
  apply andb_true_iff in Hx. destruct Hx as [Hx _].
  apply negb_true_iff in Hx. exact Hx.
Qed.

(** X17.  Every cell [loadCSV] stores is free of commas and has no
    blank or tab at either end. *)
Theorem parse_line_clean_cells (line : string) :
  Forall (fun cell => clean_cell cell = true) (parse_line line).
Proof. exact (parse_line_cells line). Qed.

(** X18.  Cutting a line gives back the cells it was joined from, when
    the cells hold no comma and no blank or tab at an end and the last
    one is not empty; an empty last cell is lost. *)
Theorem parse_line_joined (cells : list string) :
  Forall (fun cell => clean_cell cell = true) cells ->
  last cells "x" <> "" ->
  parse_line (String.concat "," cells) = cells /\
  (cells <> [] -> parse_line (String.concat "," (cells ++ [""])) = cells).
Proof.
  intros Hclean Hlast.
  destruct (split_cells_joined cells (clean_no_comma cells Hclean) Hlast) as [H1 H2].
  unfold parse_line. split.
  - rewrite H1. apply map_trim_clean. exact Hclean.
  - intros Hne. rewrite (H2 Hne). apply map_trim_clean. exact Hclean.
Qed.

Lemma parse_line_joined_witness :
  parse_line (String.concat "," ["Outlook"; ""; "Play Tennis"]) = ["Outlook"; ""; "Play Tennis"] /\
  (["Outlook"; ""; "Play Tennis"] <> [] ->
   parse_line (String.concat "," (["Outlook"; ""; "Play Tennis"] ++ [""])) = ["Outlook"; ""; "Play Tennis"]).
Proof.
  apply (parse_line_joined ["Outlook"; ""; "Play Tennis"]).
  - repeat constructor.
  - simpl. discriminate.
Defined.

(** ** The prediction prompt *)

Lemma find_app {V : Type} (k : string) (a b : StdMap.t V) :
  StdMap.find k (a ++ b) =
    match StdMap.find k a with Some v => Some v | None => StdMap.find k b end.
Proof.
  induction a as [|[k0 v0] a IH]; simpl; [reflexivity|].
  destruct (String.eqb k k0); [reflexivity|exact IH].
Qed.

Lemma upd_not_nil {V : Type} (k : string) (f : option V -> V) (m : StdMap.t V) :
  StdMap.upd k f m <> [].
Proof.
  destruct m as [|[k0 v0] m]; simpl; [discriminate|].
  destruct (String.compare k k0); discriminate.
Qed.

Lemma store_pairs_fold (cells : list string) (m : StdMap.t string) :
  StdMap.ordered m ->
  let pairs := flat_map (fun pair => match split_pair "" pair with
                                     | Some (feature, value) => [(trim feature, trim value)]
                                     | None => []
                                     end) cells in
  StdMap.ordered (fold_left store_pair cells m) /\
  (forall k, StdMap.find k (fold_left store_pair cells m) =
             match StdMap.find k (rev pairs) with
             | Some v => Some v
             | None => StdMap.find k m
             end) /\
  (fold_left store_pair cells m = [] <-> pairs = [] /\ m = []).
Proof.
  revert m. induction cells as [|c cells IH]; intros m Hm; cbn zeta.
  - simpl. split; [exact Hm|]. split; [reflexivity|]. tauto.
  - cbn [fold_left flat_map].
    unfold store_pair at 2 4 6.
    destruct (split_pair "" c) as [[feature value]|] eqn:Hc.
    + destruct (IH (StdMap.upd (trim feature) (fun _ => trim value) m)
                  (upd_ordered _ _ _ Hm)) as (Ho & Hf & He).
      split; [exact Ho|]. split.
      * intros k. rewrite Hf. cbn [app rev]. rewrite find_app.
        destruct (StdMap.find k (rev _)); [reflexivity|].
        rewrite find_upd by exact Hm. simpl.
        destruct (String.eqb k (trim feature)); reflexivity.
      * rewrite He. split.
        -- intros [_ H]. exfalso. exact (upd_not_nil _ _ _ H).
        -- intros [H _]. discriminate H.
    + destruct (IH m Hm) as (Ho & Hf & He).
      split; [exact Ho|]. split; [exact Hf|exact He].
Qed.

Lemma split_pair_none (before pair : string) :
  split_pair before pair = None <-> contains "="%char pair = false.
Proof.
  revert before. induction pair as [|c pair IH]; intros before; simpl.
  - tauto.
  - destruct (Ascii.eqb c "="%char); simpl.
    + split; discriminate.
    + apply IH.
Qed.

Lemma split_cells_contains (c : ascii) (acc rest : string) :
  Ascii.eqb ","%char c = false ->
  existsb (contains c) (split_cells acc rest) = contains c acc || contains c rest.
Proof.
  intros Hc. revert acc.
  induction rest as [|x rest IH]; intros acc; cbn [split_cells contains].
  - destruct acc; cbn [existsb contains]; [reflexivity|].
    rewrite !orb_false_r. reflexivity.
  - destruct (Ascii.eqb x ","%char) eqn:Hx.
    + apply Ascii.eqb_eq in Hx. subst x. cbn [existsb]. rewrite IH.
      cbn [contains]. rewrite Hc. reflexivity.
    + rewrite IH, contains_append. cbn [contains].
      rewrite orb_false_r, orb_assoc. reflexivity.
Qed.

Lemma typed_pairs_nil (input : string) :
  typed_pairs input = [] <-> contains "="%char input = false.
Proof.
  unfold typed_pairs.
  rewrite <- (orb_false_l (contains "="%char input)).
  change false with (contains "="%char "") at 1.
  rewrite <- (split_cells_contains "="%char "" input eq_refl).
  generalize (split_cells "" input). intros cells.
  induction cells as [|c cells IH]; simpl; [tauto|].
  destruct (split_pair "" c) as [[feature value]|] eqn:Hc.
  - assert (Hin : contains "="%char c = true).
    { destruct (contains "="%char c) eqn:E; [reflexivity|].
      apply (split_pair_none "") in E. congruence. }
    rewrite Hin. simpl. split; discriminate.
  - apply split_pair_none in Hc. rewrite Hc. simpl. exact IH.
Qed.

(** X19.  The instance read at the prompt: its keys are strictly
    ascending, a feature typed more than once keeps the value typed
    last, and it is empty exactly when the input holds no [=]. *)
Theorem parseInstance_last_pair_wins (input : string) :
  StdMap.ordered (parseInstance input) /\
  (forall feature,
     StdMap.find feature (parseInstance input) =
     StdMap.find feature (rev (typed_pairs input))) /\
  (parseInstance input = [] <-> contains "="%char input = false).
Proof.
  assert (Hnil : StdMap.ordered (@nil (string * string))) by constructor.
  destruct (store_pairs_fold (split_cells "" input) [] Hnil) as (Ho & Hf & He).
  split; [exact Ho|]. split.
  - intros k. unfold parseInstance, typed_pairs. rewrite Hf.
    destruct (StdMap.find k (rev _)); reflexivity.
  - rewrite <- typed_pairs_nil. unfold parseInstance, typed_pairs.
    rewrite He. tauto.
Qed.

(** X20.  One round of the prompt: [quit] ends the loop; an input
    with no [=] gets the notice of an invalid format; any other input
    gets the prediction for the instance read. *)
Theorem reply_cases (self : DecisionTree) (input : string) :
  reply self input =
    if String.eqb input "quit" then None
    else if contains "="%char input
         then Some ("Prediction: " ++ predictInstance (root self) (parseInstance input))%string
         else Some "Invalid input format. Use: feature1=value1,feature2=value2".
Proof.
  unfold reply. destruct (String.eqb input "quit"); [reflexivity|].
  assert (Hnil : StdMap.ordered (@nil (string * string))) by constructor.
  destruct (store_pairs_fold (split_cells "" input) [] Hnil) as (_ & _ & He).
  cbn zeta in He. fold (typed_pairs input) in He. fold (parseInstance input) in He.
  destruct (contains "="%char input) eqn:Hc.
  - destruct (parseInstance input) eqn:Hp; [|reflexivity].
    exfalso. assert (H : typed_pairs input = []) by (apply He; reflexivity).
    apply typed_pairs_nil in H. congruence.
  - apply typed_pairs_nil in Hc.
    assert (H : parseInstance input = []) by (apply He; split; [exact Hc|reflexivity]).
    rewrite H. reflexivity.
Qed.

(** ** The printout *)

Lemma printTree_unfold (node : TreeNode) (d : nat) (parentValue : string) :
  printTree node d parentValue =
    if isLeaf node then [(spaces (d * 2) ++ "-> " ++ prediction node)%string]
    else
      (if Nat.ltb 0 d
       then [(spaces (d * 2) ++ "if " ++ feature node ++ " == " ++ parentValue ++ ":")%string]
       else [("Root: " ++ feature node)%string])
      ++ flat_map (fun child =>
                     (if negb (str_empty (feature node))
                      then [(spaces (d * 2) ++ "  " ++ feature node ++ " == " ++ value child ++ ":")%string]
                      else [])
                     ++ printTree child (d + 1) (value child)) (children node).
Proof.
  destruct node as [f v p l cs]. cbn [printTree isLeaf children feature prediction].
  destruct l; [reflexivity|]. f_equal.
  induction cs as [|c cs IH]; [reflexivity|].
  cbn [flat_map]. rewrite <- IH. rewrite <- app_assoc. reflexivity.
Qed.

Lemma printTree_length (self : DecisionTree) (node : TreeNode) :
  Forall (well_shaped self) (nodes node) ->
  forall (d : nat) (parentValue : string),
    List.length (printTree node d parentValue) + 1 = 2 * List.length (nodes node).
Proof.
  remember (depth node) as k eqn:Hk. revert node Hk.
  induction k as [k IH] using lt_wf_ind. intros node Hk Hall d parentValue.
  rewrite printTree_unfold, (nodes_unfold node).
  assert (Hroot : well_shaped self node).
  { rewrite Forall_forall in Hall. apply Hall. rewrite nodes_unfold. left. reflexivity. }
  unfold well_shaped in Hroot.
  destruct (isLeaf node) eqn:Hl.
  - destruct Hroot as [Hc _]. rewrite Hc. reflexivity.
  - destruct Hroot as (_ & _ & Hf & _).
    assert (Hne : str_empty (feature node) = false)
      by (destruct (feature node); [contradiction|reflexivity]).
    rewrite Hne. cbn [negb].
    assert (Hcs : forall cs, incl cs (children node) ->
              List.length
                (flat_map (fun child =>
                             [(spaces (d * 2) ++ "  " ++ feature node ++ " == "
                                 ++ value child ++ ":")%string]
                             ++ printTree child (d + 1) (value child)) cs)
              = 2 * List.length (flat_map nodes cs)).
    { induction cs as [|c cs IHcs]; intros Hincl; [reflexivity|].
      cbn [flat_map]. rewrite !length_app. cbn [List.length].
      rewrite IHcs by (intros x Hx; apply Hincl; right; exact Hx).
      assert (Hc : In c (children node)) by (apply Hincl; left; reflexivity).
      pose proof (IH (depth c) ltac:(subst k; apply depth_child_lt; assumption)
                    c eq_refl (Forall_nodes_child _ _ _ Hall Hc) (d + 1) (value c)) as E.
      lia. }
    rewrite length_app, (Hcs (children node) (incl_refl _)).
    cbn [List.length].
    destruct (Nat.ltb 0 d); cbn [List.length]; lia.
Qed.

(** X21.  The printout of a built tree has one line for every node
    and one for every edge: twice the number of nodes, less one. *)
Theorem printTree_line_count {D : Type} {ops : DoubleOps D}
  (self : DecisionTree) (indices : list nat) (used : list string)
  (d : nat) (parentValue : string) :
  List.length (printTree (buildTree self indices used) d parentValue) + 1
  = 2 * List.length (nodes (buildTree self indices used)).
Proof.
  apply (printTree_length self). apply buildTree_nodes_well_shaped.
Qed.

(** ** [loadCSV] followed by [train] *)

(** X22.  On the lines of a file with at most [INT_MAX] lines, whose
    header row has at most [INT_MAX] cells and whose other lines have a
    cell for every header cell: [train] fails exactly when there is no
    line after the header row or the target is none of the header cells
    as stored; so it fails for every target with a comma or with a blank
    or tab at an end. *)
Theorem train_after_loadCSV {D : Type} {ops : DoubleOps D}
  (lines : list string) (target : string) :
  (Z.of_nat (List.length (parse_line (hd "" lines))) <= INT_MAX)%Z ->
  (Z.of_nat (List.length lines) <= INT_MAX)%Z ->
  Forall (fun line =>
            List.length (parse_line (hd "" lines)) <= List.length (parse_line line))
    (tl lines) ->
  rows_cover_headers (loadCSV lines target)
  /\ (train (loadCSV lines target) = None <->
      List.length lines <= 1 \/ ~ In target (parse_line (hd "" lines)))
  /\ (clean_cell target = false -> train (loadCSV lines target) = None).
Proof.
  intros Hlen _ Hwide.
  assert (Hcover : rows_cover_headers (loadCSV lines target)).
  { unfold rows_cover_headers. destruct lines as [|first others]; [constructor|].
    cbn [loadCSV data headers hd tl] in *. apply Forall_forall.
    intros row Hrow. apply in_map_iff in Hrow. destruct Hrow as (line & <- & Hline).
    rewrite Forall_forall in Hwide. apply Hwide. exact Hline. }
  assert (Hiff : train (loadCSV lines target) = None <->
                 List.length lines <= 1 \/ ~ In target (parse_line (hd "" lines))).
  { destruct lines as [|first others].
    - split; [intros _; left; simpl; lia|reflexivity].
    - assert (Hh : (Z.of_nat (List.length (headers (loadCSV (first :: others) target)))
                    <= INT_MAX)%Z) by exact Hlen.
      destruct (train_spec (loadCSV (first :: others) target) Hh) as [Hnone _].
      rewrite Hnone. cbn [loadCSV data headers targetColumn hd List.length].
      split; (intros [Hd | Hn]; [left|right; exact Hn]).
      + destruct others; [simpl; lia|discriminate Hd].
      + destruct others; [reflexivity|simpl in Hd; lia]. }
  split; [exact Hcover|]. split; [exact Hiff|].
  intros Hclean. apply Hiff. right. intros Hin.
  pose proof (parse_line_cells (hd "" lines)) as Hcells.
  rewrite Forall_forall in Hcells. rewrite (Hcells target Hin) in Hclean.
  discriminate.
Qed.

Lemma train_after_loadCSV_witness :
  (Z.of_nat (List.length (parse_line (hd "" ["f, y"; "b,yes"; " a ,no"]))) <= INT_MAX)%Z
  /\ (Z.of_nat (List.length ["f, y"; "b,yes"; " a ,no"]) <= INT_MAX)%Z
  /\ train (ops := B64) (loadCSV ["f, y"; "b,yes"; " a ,no"] " y") = None.
Proof.
  assert (H : (Z.of_nat (List.length (parse_line (hd "" ["f, y"; "b,yes"; " a ,no"])))
               <= INT_MAX)%Z) by (vm_compute; discriminate).
  assert (Hl : (Z.of_nat (List.length ["f, y"; "b,yes"; " a ,no"]) <= INT_MAX)%Z)
    by (vm_compute; discriminate).
  assert (Hw : Forall (fun line =>
                         List.length (parse_line (hd "" ["f, y"; "b,yes"; " a ,no"]))
                         <= List.length (parse_line line))
                 (tl ["f, y"; "b,yes"; " a ,no"])).
  { repeat constructor. }
  split; [exact H|]. split; [exact Hl|].
  apply (proj2 (proj2 (train_after_loadCSV (ops := B64)
                         ["f, y"; "b,yes"; " a ,no"] " y" H Hl Hw))).
  reflexivity.
Defined.
